(** * unifi-proxy: a shallow embedding of the TLS SNI passthrough proxy

    The development follows the JavaScript sources module by module:
    - [src/utils/sni-parser.js]  ([parseSNI], [hasEnoughDataForSNI]),
    - [src/utils/ip-filter.js]   ([ipToInt], [parseCIDR], [matchesCIDR],
      [setAllowedIPs], [isAllowed]),
    - [src/config.js]            ([UNIFI_DOMAINS], [getUpstreamForSNI]),
    - [src/health-check.js]      (the [StatsTracker] methods),
    - [src/server.js]            ([checkRateLimit], [handleConnection] and
      the callbacks it installs).

    JavaScript values are modelled as follows.  A [Buffer] is a list of bytes,
    a string is the list of its UTF-16 code units, [Date.now()] is an integer
    passed in by the caller, 32-bit integer operators are written on [Z] with
    their wrap-around, and a function that returns [null] or throws returns
    [None]. *)

From Stdlib Require Import ZArith NArith Lia Bool List Ascii String.
From Stdlib Require Import Strings.Byte DecimalString DecimalNat.
From stdpp Require Import base option list gmap.

Import ListNotations.
Local Open Scope nat_scope.

(* ===================================================================== *)
(** ** JavaScript strings                                                 *)
(* ===================================================================== *)

(** A JavaScript string: its sequence of UTF-16 code units. *)
Abbreviation jsstring := (list N).

(** The string written by an ASCII literal of the source. *)
Definition js (s : string) : jsstring :=
  map N_of_ascii (list_ascii_of_string s).

(** Truthiness of a string: only the empty string is falsy. *)
Definition truthy (s : jsstring) : bool :=
  match s with [] => false | _ :: _ => true end.

(** UTF-16 code units of one code point. *)
Definition codeUnits (cp : N) : jsstring :=
  if (cp <? 0x10000)%N then [cp]
  else let c := (cp - 0x10000)%N in
       [(0xD800 + N.shiftr c 10)%N; (0xDC00 + N.land c 0x3FF)%N].

(** State of the UTF-8 decoder inside a multi-byte sequence: the code point
    so far, the number of continuation bytes still expected and the range
    in which the next byte must lie. *)
Record Utf8State := {
  u_cp : N;
  u_need : nat;
  u_lo : N;
  u_hi : N
}.

(** A byte met outside a sequence: what it emits and the state it opens. *)
Definition utf8Lead (b : N) : jsstring * option Utf8State :=
  if (b <=? 0x7F)%N then ([b], None)
  else if ((0xC2 <=? b) && (b <=? 0xDF))%N then
    ([], Some {| u_cp := N.land b 0x1F; u_need := 1; u_lo := 0x80%N; u_hi := 0xBF%N |})
  else if ((0xE0 <=? b) && (b <=? 0xEF))%N then
    ([], Some {| u_cp := N.land b 0xF; u_need := 2;
                 u_lo := if (b =? 0xE0)%N then 0xA0%N else 0x80%N;
                 u_hi := if (b =? 0xED)%N then 0x9F%N else 0xBF%N |})
  else if ((0xF0 <=? b) && (b <=? 0xF4))%N then
    ([], Some {| u_cp := N.land b 0x7; u_need := 3;
                 u_lo := if (b =? 0xF0)%N then 0x90%N else 0x80%N;
                 u_hi := if (b =? 0xF4)%N then 0x8F%N else 0xBF%N |})
  else ([0xFFFD%N], None).

(** UTF-8 decoding as [Buffer.prototype.toString('utf8')] does it: every
    maximal ill-formed subsequence becomes one U+FFFD, and the byte that
    ends it is decoded again as the start of the next sequence. *)
Fixpoint utf8Decode (st : option Utf8State) (bs : list N) : jsstring :=
  match bs with
  | [] => match st with Some _ => [0xFFFD%N] | None => [] end
  | b :: rest =>
    match st with
    | None => let '(out, st') := utf8Lead b in out ++ utf8Decode st' rest
    | Some s =>
      if ((u_lo s <=? b) && (b <=? u_hi s))%N then
        let cp := N.lor (N.shiftl (u_cp s) 6) (N.land b 0x3F) in
        match u_need s with
        | S (S n) =>
          utf8Decode (Some {| u_cp := cp; u_need := S n;
                              u_lo := 0x80%N; u_hi := 0xBF%N |}) rest
        | _ => codeUnits cp ++ utf8Decode None rest
        end
      else
        let '(out, st') := utf8Lead b in
        0xFFFD%N :: out ++ utf8Decode st' rest
    end
  end.

(* ===================================================================== *)
(** ** Buffers                                                            *)
(* ===================================================================== *)

(** [buffer[i]]: the byte as a number, [None] for [undefined]. *)
Definition byteAt (buffer : list byte) (i : nat) : option nat :=
  Byte.to_nat <$> buffer !! i.

(** [buffer.readUInt16BE(offset)]; [None] when it throws a RangeError. *)
Definition readUInt16BE (buffer : list byte) (offset : nat) : option nat :=
  match byteAt buffer offset, byteAt buffer (offset + 1) with
  | Some hi, Some lo => Some (256 * hi + lo)
  | _, _ => None
  end.

(** [buffer.toString('utf8', start, end)]. *)
Definition toStringUtf8 (buffer : list byte) (start stop : nat) : jsstring :=
  utf8Decode None (map Byte.to_N (take (stop - start) (drop start buffer))).

(* ===================================================================== *)
(** ** src/utils/sni-parser.js                                            *)
(* ===================================================================== *)

(** The branch of [parseSNI] taken on an extension of type 0x0000;
    [offset] is the first byte of the extension data. *)
Definition parseSNIExtension (buffer : list byte) (offset : nat)
  : option jsstring :=
  if length buffer <=? offset + 4 then None
  else
    match readUInt16BE buffer offset with
    | None => None
    | Some serverNameListLength =>
      let offset := offset + 2 in
      if length buffer <=? offset + 2 then None
      else
        match byteAt buffer offset, readUInt16BE buffer (offset + 1) with
        | Some serverNameType, Some serverNameLength =>
          let offset := offset + 3 in
          if (serverNameType =? 0)
             && (offset + serverNameLength <=? length buffer)
          then Some (toStringUtf8 buffer offset (offset + serverNameLength))
          else None
        | _, _ => None
        end
    end.

(** The [while] loop over the extensions.  Every iteration moves [offset]
    forward by at least four bytes and needs [offset + 3 < buffer.length],
    so [fuel = length buffer] iterations are never used up
    (lemma [parseExtensions_fuel]). *)
Fixpoint parseExtensions (fuel : nat) (buffer : list byte)
    (offset extensionsEnd : nat) : option jsstring :=
  match fuel with
  | O => None
  | S fuel =>
    if (offset + 3 <? extensionsEnd) && (offset + 3 <? length buffer) then
      match readUInt16BE buffer offset, readUInt16BE buffer (offset + 2) with
      | Some extensionType, Some extensionLength =>
        let offset := offset + 4 in
        if extensionType =? 0 then parseSNIExtension buffer offset
        else parseExtensions fuel buffer (offset + extensionLength) extensionsEnd
      | _, _ => None
      end
    else None
  end.

(** [parseSNI(buffer)]: [Some name] for a returned string, [None] for
    [null] (returned directly or from the [catch]). *)
Definition parseSNI (buffer : list byte) : option jsstring :=
  if (length buffer <? 5) || negb (bool_decide (byteAt buffer 0 = Some 0x16))
  then None
  else if negb (bool_decide (byteAt buffer 5 = Some 0x01)) then None
  else
    let offset := 43 in
    if length buffer <=? offset then None
    else
      match byteAt buffer offset with
      | None => None
      | Some sessionIdLength =>
        let offset := offset + (1 + sessionIdLength) in
        if length buffer <=? offset + 1 then None
        else
          match readUInt16BE buffer offset with
          | None => None
          | Some cipherSuitesLength =>
            let offset := offset + (2 + cipherSuitesLength) in
            if length buffer <=? offset then None
            else
              match byteAt buffer offset with
              | None => None
              | Some compressionMethodsLength =>
                let offset := offset + (1 + compressionMethodsLength) in
                if length buffer <=? offset + 1 then None
                else
                  match readUInt16BE buffer offset with
                  | None => None
                  | Some extensionsLength =>
                    let offset := offset + 2 in
                    let extensionsEnd := offset + extensionsLength in
                    parseExtensions (length buffer) buffer offset extensionsEnd
                  end
              end
          end
      end.

(** [hasEnoughDataForSNI(buffer)]. *)
Definition hasEnoughDataForSNI (buffer : list byte) : bool :=
  if length buffer <? 5 then false
  else if negb (bool_decide (byteAt buffer 0 = Some 0x16)) then false
  else
    match readUInt16BE buffer 3 with
    | Some recordLength => recordLength + 5 <=? length buffer
    | None => false
    end.

(* ===================================================================== *)
(** ** String and number built-ins used by ip-filter.js                   *)
(* ===================================================================== *)

(** White space and line terminators, as [trim], [Number] and [parseInt]
    skip them. *)
Definition isWhiteSpace (c : N) : bool :=
  existsb (N.eqb c)
    [0x9; 0xA; 0xB; 0xC; 0xD; 0x20; 0xA0; 0x1680; 0x2028; 0x2029; 0x202F;
     0x205F; 0x3000; 0xFEFF]%N
  || ((0x2000 <=? c) && (c <=? 0x200A))%N.

Fixpoint trimStart (s : jsstring) : jsstring :=
  match s with
  | c :: rest => if isWhiteSpace c then trimStart rest else s
  | [] => []
  end.

Definition trim (s : jsstring) : jsstring :=
  rev (trimStart (rev (trimStart s))).

(** [s.split(sep)] for a separator of one code unit. *)
Fixpoint split (sep : N) (s : jsstring) : list jsstring :=
  match s with
  | [] => [[]]
  | c :: rest =>
    if (c =? sep)%N then [] :: split sep rest
    else match split sep rest with
         | h :: t => (c :: h) :: t
         | [] => [[c]]
         end
  end.

(** [s.includes(c)] for a string [c] of one code unit. *)
Definition includes (c : N) (s : jsstring) : bool := existsb (N.eqb c) s.

(** A JavaScript number: NaN, an infinity, or the finite double
    [(-1)^neg * m * 2^e] (a negative zero is [Fin true 0 _]). *)
Inductive jsnum :=
| NaN
| Inf (neg : bool)
| Fin (neg : bool) (m : N) (e : Z).

(** The double nearest to [n / d] (ties to even), for [0 <= n], [0 < d]. *)
Definition roundBinary64 (neg : bool) (n d : Z) : jsnum :=
  if (n =? 0)%Z then Fin neg 0 0
  else
    let scaled (ex : Z) : Z * Z :=
      if (0 <=? ex)%Z then (n, d * 2 ^ ex)%Z else (n * 2 ^ (- ex), d)%Z in
    let ex1 := Z.max (-1074) (Z.log2 n - Z.log2 d - 52) in
    let '(p1, q1) := scaled ex1 in
    let ex := if ((p1 / q1 <? 2 ^ 52) && (-1074 <? ex1))%Z
              then (ex1 - 1)%Z else ex1 in
    let '(p, q) := scaled ex in
    let fl := (p / q)%Z in
    let r := (p mod q)%Z in
    let m := if ((q <? 2 * r) || ((q =? 2 * r) && Z.odd fl))%Z
             then (fl + 1)%Z else fl in
    if ((0 <=? ex) && (2 ^ 1024 <=? m * 2 ^ ex))%Z then Inf neg
    else Fin neg (Z.to_N m) ex.

(** The value of a digit in a radix, if it is one. *)
Definition digitValue (radix : N) (c : N) : option N :=
  let v := if ((0x30 <=? c) && (c <=? 0x39))%N then Some (c - 0x30)%N
           else if ((0x61 <=? c) && (c <=? 0x7A))%N then Some (c - 0x61 + 10)%N
           else if ((0x41 <=? c) && (c <=? 0x5A))%N then Some (c - 0x41 + 10)%N
           else None in
  match v with
  | Some d => if (d <? radix)%N then Some d else None
  | None => None
  end.

(** The longest prefix of digits, as their values, and what follows it. *)
Fixpoint takeDigits (radix : N) (s : jsstring) : list N * jsstring :=
  match s with
  | c :: rest =>
    match digitValue radix c with
    | Some d => let '(ds, tl) := takeDigits radix rest in (d :: ds, tl)
    | None => ([], s)
    end
  | [] => ([], [])
  end.

Definition digitsValue (radix : N) (ds : list N) : Z :=
  fold_left (fun acc d => (acc * Z.of_N radix + Z.of_N d)%Z) ds 0%Z.

(** A leading [+] or [-]: whether the sign is negative, and the rest. *)
Definition takeSign (s : jsstring) : bool * jsstring :=
  match s with
  | 0x2B%N :: rest => (false, rest)
  | 0x2D%N :: rest => (true, rest)
  | _ => (false, s)
  end.

(** A literal [0x..], [0o..] or [0b..] after its prefix. *)
Definition nonDecimalLiteral (radix : N) (s : jsstring) : jsnum :=
  match takeDigits radix s with
  | ((_ :: _) as ds, []) => roundBinary64 false (digitsValue radix ds) 1
  | _ => NaN
  end.

(** An optional exponent part: [Some k] when the rest of the literal is
    empty ([k = 0]) or a well-formed exponent. *)
Definition exponentPart (s : jsstring) : option Z :=
  match s with
  | [] => Some 0%Z
  | c :: rest =>
    if ((c =? 0x65) || (c =? 0x45))%N then
      let '(neg, rest) := takeSign rest in
      match takeDigits 10 rest with
      | ((_ :: _) as ds, []) =>
        Some (if neg then (- digitsValue 10 ds)%Z else digitsValue 10 ds)
      | _ => None
      end
    else None
  end.

(** A decimal literal after its sign. *)
Definition decimalLiteral (neg : bool) (s : jsstring) : jsnum :=
  let '(ip, rest) := takeDigits 10 s in
  let '(fp, rest) :=
    match rest with
    | 0x2E%N :: rest' => takeDigits 10 rest'
    | _ => ([], rest)
    end in
  match ip ++ fp, exponentPart rest with
  | (_ :: _) as ds, Some ex =>
    let k := (ex - Z.of_nat (length fp))%Z in
    if (0 <=? k)%Z then roundBinary64 neg (digitsValue 10 ds * 10 ^ k) 1
    else roundBinary64 neg (digitsValue 10 ds) (10 ^ (- k))
  | _, _ => NaN
  end.

(** [Number(s)] on a string. *)
Definition Number (s : jsstring) : jsnum :=
  match trim s with
  | [] => Fin false 0 0
  | 0x30%N :: c :: rest =>
    if ((c =? 0x78) || (c =? 0x58))%N then nonDecimalLiteral 16 rest
    else if ((c =? 0x6F) || (c =? 0x4F))%N then nonDecimalLiteral 8 rest
    else if ((c =? 0x62) || (c =? 0x42))%N then nonDecimalLiteral 2 rest
    else decimalLiteral false (trim s)
  | t =>
    let '(neg, u) := takeSign t in
    if bool_decide (u = js "Infinity") then Inf neg else decimalLiteral neg u
  end.

(** [parseInt(s, 10)]: [None] for NaN, otherwise the integer read (a
    negative zero is [0]). *)
Definition parseInt10 (s : jsstring) : option Z :=
  let '(neg, u) := takeSign (trimStart s) in
  match takeDigits 10 u with
  | ((_ :: _) as ds, _) =>
    Some (if neg then (- digitsValue 10 ds)%Z else digitsValue 10 ds)
  | _ => None
  end.

(** [p < 0] and [p > 255] on numbers (false on NaN). *)
Definition ltZero (p : jsnum) : bool :=
  match p with
  | Inf neg => neg
  | Fin neg m _ => neg && (0 <? m)%N
  | NaN => false
  end.

Definition gt255 (p : jsnum) : bool :=
  match p with
  | Inf neg => negb neg
  | Fin neg m e =>
    negb neg &&
    (if (0 <=? e)%Z then (255 <? Z.of_N m * 2 ^ e)%Z
     else (255 * 2 ^ (- e) <? Z.of_N m)%Z)
  | NaN => false
  end.

(** The integer part of a number, as the 32-bit conversions take it
    (NaN and the infinities convert to 0). *)
Definition truncate (p : jsnum) : Z :=
  match p with
  | Fin neg m e =>
    let t := if (0 <=? e)%Z then (Z.of_N m * 2 ^ e)%Z
             else (Z.of_N m / 2 ^ (- e))%Z in
    if neg then (- t)%Z else t
  | _ => 0%Z
  end.

(** ToInt32 and ToUint32 of an integer. *)
Definition toInt32 (z : Z) : Z := ((z + 2 ^ 31) mod 2 ^ 32 - 2 ^ 31)%Z.
Definition toUint32 (z : Z) : Z := (z mod 2 ^ 32)%Z.

(** [a << k], [a | b], [a & b] and [a >>> 0] on integers. *)
Definition shl32 (a k : Z) : Z := toInt32 (toInt32 a * 2 ^ (k mod 32)).
Definition or32 (a b : Z) : Z := Z.lor (toInt32 a) (toInt32 b).
Definition and32 (a b : Z) : Z := Z.land (toInt32 a) (toInt32 b).

(* ===================================================================== *)
(** ** src/utils/ip-filter.js                                             *)
(* ===================================================================== *)

(** [ipToInt(ip)]: the signed 32-bit result, [None] when it throws
    "Invalid IP address".  A part that converts to NaN passes the range
    test of the source, since both comparisons are false on NaN. *)
Definition ipToInt (ip : jsstring) : option Z :=
  let parts := map Number (split 0x2E ip) in
  if negb (length parts =? 4)
     || existsb (fun p => ltZero p || gt255 p) parts
  then None
  else
    match parts with
    | [p0; p1; p2; p3] =>
      Some (or32 (or32 (or32 (shl32 (truncate p0) 24)
                             (shl32 (truncate p1) 16))
                       (shl32 (truncate p2) 8))
                 (truncate p3))
    | _ => None
    end.

(** The object [{ network, mask }] returned by [parseCIDR]. *)
Record Cidr := {
  network : Z;
  mask : Z
}.

(** [parseCIDR(cidr)]; [None] when it throws. *)
Definition parseCIDR (cidr : jsstring) : option Cidr :=
  match split 0x2F cidr with
  | ip :: prefixLen :: _ =>
    match parseInt10 prefixLen with
    | None => None
    | Some prefix =>
      if ((prefix <? 0) || (32 <? prefix))%Z then None
      else
        match ipToInt ip with
        | None => None
        | Some network =>
          let mask := if (prefix =? 0)%Z then 0%Z
                      else toUint32 (shl32 0xFFFFFFFF (32 - prefix)) in
          Some {| network := and32 network mask; mask := mask |}
        end
    end
  | _ => None
  end.

(** [matchesCIDR(ipInt, cidr)]. *)
Definition matchesCIDR (ipInt : Z) (cidr : Cidr) : bool :=
  (and32 ipInt (mask cidr) =? network cidr)%Z.

(** An element of [this.rules]: [{ type: 'cidr', cidr, original }] or
    [{ type: 'ip', ip, original }]. *)
Inductive Rule :=
| CidrRule (cidr : Cidr) (original : jsstring)
| IpRule (ip : Z) (original : jsstring).

(** The argument of [setAllowedIPs]: a comma-separated string or an array
    of strings. *)
Inductive AllowedIPs :=
| IPString (s : jsstring)
| IPArray (l : list jsstring).

Definition ipList (allowedIPs : AllowedIPs) : list jsstring :=
  match allowedIPs with
  | IPString s => List.filter truthy (map trim (split 0x2C s))
  | IPArray l => l
  end.

(** The body of the [for] loop of [setAllowedIPs]: the rule pushed for an
    entry, [None] when the entry is dropped with a warning. *)
Definition parseEntry (entry : jsstring) : option Rule :=
  if includes 0x2F entry then
    match parseCIDR entry with
    | Some c => Some (CidrRule c entry)
    | None => None
    end
  else
    match ipToInt entry with
    | Some i => Some (IpRule i entry)
    | None => None
    end.

(** [setAllowedIPs(allowedIPs)], as the value of [this.rules]. *)
Definition setAllowedIPs (allowedIPs : AllowedIPs) : list Rule :=
  flat_map (fun entry => match parseEntry entry with
                         | Some r => [r]
                         | None => []
                         end)
           (ipList allowedIPs).

Definition isUniversal (rule : Rule) : bool :=
  match rule with
  | CidrRule c _ => (network c =? 0)%Z && (mask c =? 0)%Z
  | IpRule _ _ => false
  end.

Definition ruleMatches (ipInt : Z) (rule : Rule) : bool :=
  match rule with
  | IpRule ip _ => (ipInt =? ip)%Z
  | CidrRule c _ => matchesCIDR ipInt c
  end.

(** [isAllowed(ip)] of a filter whose rules are [rules]. *)
Definition isAllowed (rules : list Rule) (ip : jsstring) : bool :=
  if length rules =? 0 then true
  else if existsb isUniversal rules then true
  else
    match ipToInt ip with
    | Some ipInt => existsb (ruleMatches ipInt) rules
    | None => false
    end.

Definition getRules (rules : list Rule) : list jsstring :=
  map (fun rule => match rule with
                   | CidrRule _ o => o
                   | IpRule _ o => o
                   end) rules.

(* ===================================================================== *)
(** ** Property reads on plain objects                                    *)
(* ===================================================================== *)

(** The property names every plain object inherits from
    [Object.prototype]; each of them reads as a function, or as the
    prototype object for [__proto__], hence as a truthy value. *)
Definition objectPrototypeNames : list jsstring :=
  map js ["constructor"; "__defineGetter__"; "__defineSetter__";
          "hasOwnProperty"; "__lookupGetter__"; "__lookupSetter__";
          "isPrototypeOf"; "propertyIsEnumerable"; "toString"; "valueOf";
          "__proto__"; "toLocaleString"]%string.

(** The result of [obj[key]] on a plain object. *)
Inductive PropertyRead (V : Type) :=
| OwnValue (v : V)
| InheritedValue (name : jsstring)
| UndefinedValue.
Arguments OwnValue {V} v.
Arguments InheritedValue {V} name.
Arguments UndefinedValue {V}.

Definition readProperty {V : Type} (own : option V) (key : jsstring)
  : PropertyRead V :=
  match own with
  | Some v => OwnValue v
  | None =>
    if bool_decide (key ∈ objectPrototypeNames) then InheritedValue key
    else UndefinedValue
  end.

(* ===================================================================== *)
(** ** src/config.js                                                      *)
(* ===================================================================== *)

Record Upstream := {
  host : jsstring;
  port : Z
}.

Definition UNIFI_DOMAINS : list (jsstring * Upstream) :=
  map (fun name => (js name, {| host := js name; port := 443 |}))
    ["fw-download.ubnt.com";
     "fw-update.ubnt.com";
     "fw-update.ui.com";
     "apt.artifacts.ui.com";
     "apt-beta.artifacts.ui.com";
     "apt-release-candidate.artifacts.ui.com"]%string.

(** The own property [key] of an object literal given by its entries. *)
Fixpoint ownProperty {V : Type} (obj : list (jsstring * V)) (key : jsstring)
  : option V :=
  match obj with
  | [] => None
  | (k, v) :: rest => if bool_decide (k = key) then Some v
                      else ownProperty rest key
  end.

(** What [getUpstreamForSNI] can return: [null], a target of the table, or
    a member inherited from [Object.prototype]. *)
Inductive UpstreamValue :=
| Null
| Target (u : Upstream)
| Inherited (name : jsstring).

(** [getUpstreamForSNI(sni)]. *)
Definition getUpstreamForSNI (sni : jsstring) : UpstreamValue :=
  if negb (truthy sni) then Null
  else
    match readProperty (ownProperty UNIFI_DOMAINS sni) sni with
    | OwnValue u => Target u
    | InheritedValue name => Inherited name
    | UndefinedValue => Null
    end.

(** [isAllowedSNI(sni)], as a boolean. *)
Definition isAllowedSNI (sni : jsstring) : bool :=
  truthy sni && bool_decide (is_Some (ownProperty UNIFI_DOMAINS sni)).

Definition getAllowedDomains : list jsstring := map fst UNIFI_DOMAINS.

(* ===================================================================== *)
(** ** src/health-check.js: StatsTracker                                  *)
(* ===================================================================== *)

(** A value stored in [domains] or [ipConnections]: a number, or the
    string that [+ 1] makes of an inherited member (its text is not
    tracked). *)
Inductive CountValue :=
| Count (n : Z)
| Text.

Record StatsTracker := {
  total : Z;
  active : Z;
  successful : Z;
  failed : Z;
  domains : gmap jsstring CountValue;
  ipConnections : gmap jsstring CountValue
}.

(** The tracker built by the constructor. *)
Definition newStatsTracker : StatsTracker :=
  {| total := 0; active := 0; successful := 0; failed := 0;
     domains := empty; ipConnections := empty |}.

(** [obj[key] = (obj[key] || 0) + 1] on the plain object [obj].  A write to
    [__proto__] goes to the inherited setter, which ignores a value that is
    not an object. *)
Definition increment (obj : gmap jsstring CountValue) (key : jsstring)
  : gmap jsstring CountValue :=
  let value :=
    match readProperty (obj !! key) key with
    | OwnValue (Count n) => Count (n + 1)
    | OwnValue Text => Text
    | InheritedValue _ => Text
    | UndefinedValue => Count 1
    end in
  if bool_decide (key = js "__proto__") then obj else <[key := value]> obj.

(** [recordConnection(ip, sni)]. *)
Definition recordConnection (ip sni : jsstring) (s : StatsTracker)
  : StatsTracker :=
  {| total := total s + 1;
     active := active s + 1;
     successful := successful s;
     failed := failed s;
     domains := if truthy sni then increment (domains s) sni else domains s;
     ipConnections := if truthy ip then increment (ipConnections s) ip
                      else ipConnections s |}.

(** [recordSuccess()]. *)
Definition recordSuccess (s : StatsTracker) : StatsTracker :=
  {| total := total s;
     active := Z.max 0 (active s - 1);
     successful := successful s + 1;
     failed := failed s;
     domains := domains s;
     ipConnections := ipConnections s |}.

(** [recordFailure()]. *)
Definition recordFailure (s : StatsTracker) : StatsTracker :=
  {| total := total s;
     active := Z.max 0 (active s - 1);
     successful := successful s;
     failed := failed s + 1;
     domains := domains s;
     ipConnections := ipConnections s |}.

(** A call of one of the three recording methods. *)
Inductive StatsCall :=
| CallConnection (ip sni : jsstring)
| CallSuccess
| CallFailure.

Definition applyCall (s : StatsTracker) (c : StatsCall) : StatsTracker :=
  match c with
  | CallConnection ip sni => recordConnection ip sni s
  | CallSuccess => recordSuccess s
  | CallFailure => recordFailure s
  end.

Definition applyCalls (calls : list StatsCall) (s : StatsTracker)
  : StatsTracker :=
  fold_left applyCall calls s.

(* ===================================================================== *)
(** ** src/server.js                                                      *)
(* ===================================================================== *)

(** A value of [rateLimitMap]: [{ count, resetTime }]. *)
Record RateEntry := {
  count : Z;
  resetTime : Z
}.

(** [checkRateLimit(ip)] at time [now = Date.now()], with
    [rateLimitPerIP = config.rateLimitPerIP]: the boolean returned and the
    map afterwards. *)
Definition checkRateLimit (rateLimitPerIP now : Z) (ip : jsstring)
    (rateLimitMap : gmap jsstring RateEntry)
  : bool * gmap jsstring RateEntry :=
  let resetTime' := (now + 60000)%Z in
  match rateLimitMap !! ip with
  | Some existing =>
    if (resetTime existing <? now)%Z then
      (true, <[ip := {| count := 1; resetTime := resetTime' |}]> rateLimitMap)
    else if (rateLimitPerIP <=? count existing)%Z then (false, rateLimitMap)
    else
      (true, <[ip := {| count := count existing + 1;
                        resetTime := resetTime existing |}]> rateLimitMap)
  | None =>
    (true, <[ip := {| count := 1; resetTime := resetTime' |}]> rateLimitMap)
  end.

(** The periodic sweep installed by [setInterval]. *)
Definition sweepRateLimit (now : Z) (rateLimitMap : gmap jsstring RateEntry)
  : gmap jsstring RateEntry :=
  filter (fun kv => ¬ (resetTime kv.2 < now)%Z) rateLimitMap.

(** What touches [rateLimitMap]: a call of [checkRateLimit] for an
    address, or a run of the sweep, each at its [Date.now()]. *)
Inductive RateEvent :=
| RateCheck (now : Z) (ip : jsstring)
| RateSweep (now : Z).

Definition eventTime (ev : RateEvent) : Z :=
  match ev with RateCheck now _ => now | RateSweep now => now end.

(** A run of such events: the answer of every check, in order, and the
    map at the end. *)
Fixpoint runRateLimit (rateLimitPerIP : Z) (evs : list RateEvent)
    (m : gmap jsstring RateEntry)
  : list (jsstring * bool) * gmap jsstring RateEntry :=
  match evs with
  | [] => ([], m)
  | RateCheck now ip :: rest =>
    let '(admitted, m) := checkRateLimit rateLimitPerIP now ip m in
    let '(answers, m) := runRateLimit rateLimitPerIP rest m in
    ((ip, admitted) :: answers, m)
  | RateSweep now :: rest =>
    runRateLimit rateLimitPerIP rest (sweepRateLimit now m)
  end.

(** The number of checks of [ip] answered [true]. *)
Definition admittedCount (ip : jsstring) (answers : list (jsstring * bool))
  : nat :=
  length (List.filter (fun a => bool_decide (a = (ip, true))) answers).

(** The socket returned by [tls.connect]: the [host] and [port] options it
    was given ([None] for [undefined]) and whether it was destroyed. *)
Record UpstreamSocket := {
  dialHost : option jsstring;
  dialPort : option Z;
  upstreamDestroyed : bool
}.

(** The module-level state shared by all connections. *)
Record Server := {
  stats : StatsTracker;
  rateLimitMap : gmap jsstring RateEntry
}.

(** The variables closed over by the callbacks of one [handleConnection]
    call, with the state of the client socket and of the preread timer. *)
Record Connection := {
  clientIP : jsstring;
  upstreamSocket : option UpstreamSocket;
  sniHostname : option jsstring;
  dataBuffer : option (list byte);
  isUpstreamConnected : bool;
  prereadTimer : bool;      (* the timer is set and has not fired *)
  dataListener : bool;      (* [onClientData] listens for 'data' *)
  clientDestroyed : bool;
  written : list byte;      (* what [upstreamSocket.write] has been given *)
  uncaught : bool           (* an exception has left a listener *)
}.

Definition setStats (s : StatsTracker) (srv : Server) : Server :=
  {| stats := s; rateLimitMap := rateLimitMap srv |}.

(** [clearTimeout(prereadTimer)]. *)
Definition clearPrereadTimer (c : Connection) : Connection :=
  {| clientIP := clientIP c; upstreamSocket := upstreamSocket c;
     sniHostname := sniHostname c; dataBuffer := dataBuffer c;
     isUpstreamConnected := isUpstreamConnected c; prereadTimer := false;
     dataListener := dataListener c; clientDestroyed := clientDestroyed c;
     written := written c; uncaught := uncaught c |}.

(** [clientSocket.destroy()]. *)
Definition destroyClient (c : Connection) : Connection :=
  {| clientIP := clientIP c; upstreamSocket := upstreamSocket c;
     sniHostname := sniHostname c; dataBuffer := dataBuffer c;
     isUpstreamConnected := isUpstreamConnected c;
     prereadTimer := prereadTimer c;
     dataListener := dataListener c; clientDestroyed := true;
     written := written c; uncaught := uncaught c |}.

(** [upstreamSocket.destroy()], when there is an upstream socket. *)
Definition destroyUpstream (c : Connection) : Connection :=
  {| clientIP := clientIP c;
     upstreamSocket :=
       match upstreamSocket c with
       | Some u => Some {| dialHost := dialHost u; dialPort := dialPort u;
                           upstreamDestroyed := true |}
       | None => None
       end;
     sniHostname := sniHostname c; dataBuffer := dataBuffer c;
     isUpstreamConnected := isUpstreamConnected c;
     prereadTimer := prereadTimer c;
     dataListener := dataListener c; clientDestroyed := clientDestroyed c;
     written := written c; uncaught := uncaught c |}.

(** [cleanup()]. *)
Definition cleanup (c : Connection) : Connection :=
  destroyUpstream (destroyClient (clearPrereadTimer c)).

(** The [host] and [port] properties read from the value that
    [getUpstreamForSNI] returned. *)
Definition hostOf (upstream : UpstreamValue) : option jsstring :=
  match upstream with Target u => Some (host u) | _ => None end.
Definition portOf (upstream : UpstreamValue) : option Z :=
  match upstream with Target u => Some (port u) | _ => None end.

(** An exception leaves the running listener: nothing of the listener
    after the throwing call runs, and [server.js] has no handler for it. *)
Definition throwUncaught (c : Connection) : Connection :=
  {| clientIP := clientIP c; upstreamSocket := upstreamSocket c;
     sniHostname := sniHostname c; dataBuffer := dataBuffer c;
     isUpstreamConnected := isUpstreamConnected c;
     prereadTimer := prereadTimer c;
     dataListener := dataListener c; clientDestroyed := clientDestroyed c;
     written := written c; uncaught := true |}.

(** [connectToUpstream(upstream)]: the call of [tls.connect] and the
    assignment of its result.  With [port: undefined] (and no [path])
    [tls.connect] throws before it returns a socket, so [upstreamSocket]
    keeps its value and no listener is installed. *)
Definition connectToUpstream (upstream : UpstreamValue) (c : Connection)
  : Connection :=
  match portOf upstream with
  | None => throwUncaught c
  | Some p =>
    {| clientIP := clientIP c;
       upstreamSocket := Some {| dialHost := hostOf upstream;
                                 dialPort := Some p;
                                 upstreamDestroyed := false |};
       sniHostname := sniHostname c; dataBuffer := dataBuffer c;
       isUpstreamConnected := isUpstreamConnected c;
       prereadTimer := prereadTimer c;
       dataListener := dataListener c; clientDestroyed := clientDestroyed c;
       written := written c; uncaught := uncaught c |}
  end.

(** The rejections of [handleConnection] and [onClientData]:
    [stats.recordFailure(); clearTimeout(prereadTimer);
    clientSocket.destroy()]. *)
Definition reject (srv : Server) (c : Connection) : Server * Connection :=
  (setStats (recordFailure (stats srv)) srv,
   destroyClient (clearPrereadTimer c)).

(** The connection variables as [handleConnection] initialises them. *)
Definition newConnection (ip : jsstring) : Connection :=
  {| clientIP := ip; upstreamSocket := None; sniHostname := None;
     dataBuffer := Some []; isUpstreamConnected := false;
     prereadTimer := false; dataListener := false;
     clientDestroyed := false; written := []; uncaught := false |}.

(** The connection once the preread timer is set and the listeners are
    installed. *)
Definition listeningConnection (ip : jsstring) : Connection :=
  {| clientIP := ip; upstreamSocket := None; sniHostname := None;
     dataBuffer := Some []; isUpstreamConnected := false;
     prereadTimer := true; dataListener := true;
     clientDestroyed := false; written := []; uncaught := false |}.

(** The synchronous part of [handleConnection(clientSocket)] for a socket
    whose [remoteAddress] is [ip], at time [now]: the allow-list check, the
    rate-limit check, then the timer and the listeners are installed. *)
Definition handleConnection (rules : list Rule) (rateLimitPerIP now : Z)
    (ip : jsstring) (srv : Server) : Server * Connection :=
  let c := newConnection ip in
  if negb (isAllowed rules ip) then
    (setStats (recordFailure (stats srv)) srv, destroyClient c)
  else
    let '(admitted, m) := checkRateLimit rateLimitPerIP now ip (rateLimitMap srv) in
    let srv := {| stats := stats srv; rateLimitMap := m |} in
    if negb admitted then
      (setStats (recordFailure (stats srv)) srv, destroyClient c)
    else (srv, listeningConnection ip).

(** Assignments to [dataBuffer] and [sniHostname], and
    [clientSocket.removeListener('data', onClientData)]. *)
Definition setDataBuffer (buffer : option (list byte)) (c : Connection)
  : Connection :=
  {| clientIP := clientIP c; upstreamSocket := upstreamSocket c;
     sniHostname := sniHostname c; dataBuffer := buffer;
     isUpstreamConnected := isUpstreamConnected c;
     prereadTimer := prereadTimer c;
     dataListener := dataListener c; clientDestroyed := clientDestroyed c;
     written := written c; uncaught := uncaught c |}.

Definition setSniHostname (sni : option jsstring) (c : Connection)
  : Connection :=
  {| clientIP := clientIP c; upstreamSocket := upstreamSocket c;
     sniHostname := sni; dataBuffer := dataBuffer c;
     isUpstreamConnected := isUpstreamConnected c;
     prereadTimer := prereadTimer c;
     dataListener := dataListener c; clientDestroyed := clientDestroyed c;
     written := written c; uncaught := uncaught c |}.

Definition removeDataListener (c : Connection) : Connection :=
  {| clientIP := clientIP c; upstreamSocket := upstreamSocket c;
     sniHostname := sniHostname c; dataBuffer := dataBuffer c;
     isUpstreamConnected := isUpstreamConnected c;
     prereadTimer := prereadTimer c;
     dataListener := false; clientDestroyed := clientDestroyed c;
     written := written c; uncaught := uncaught c |}.

(** [onClientData(data)]. *)
Definition onClientData (data : list byte) (srv : Server) (c : Connection)
  : Server * Connection :=
  match dataBuffer c with
  | None => (srv, c)   (* not reached: the listener is removed before the
                          buffer is set to [null] *)
  | Some old =>
    let buffer := old ++ data in
    let c := setDataBuffer (Some buffer) c in
    if negb (hasEnoughDataForSNI buffer) then (srv, c)
    else
      let sni := parseSNI buffer in
      let c := setSniHostname sni c in
      match sni with
      | None => reject srv c
      | Some name =>
        if negb (truthy name) then reject srv c
        else
          match getUpstreamForSNI name with
          | Null => reject srv c
          | upstream =>
            let srv :=
              setStats (recordConnection (clientIP c) name (stats srv)) srv in
            (srv, connectToUpstream upstream (removeDataListener c))
          end
      end
  end.

(** The callback of the preread timer. *)
Definition onPrereadTimeout (srv : Server) (c : Connection)
  : Server * Connection :=
  let c := clearPrereadTimer c in
  if negb (isUpstreamConnected c) then
    (setStats (recordFailure (stats srv)) srv, destroyClient c)
  else (srv, c).

(** The ['secureConnect'] listener of the upstream socket. *)
Definition onSecureConnect (srv : Server) (c : Connection)
  : Server * Connection :=
  (setStats (recordSuccess (stats srv)) srv,
   {| clientIP := clientIP c; upstreamSocket := upstreamSocket c;
      sniHostname := sniHostname c; dataBuffer := None;
      isUpstreamConnected := true; prereadTimer := false;
      dataListener := dataListener c; clientDestroyed := clientDestroyed c;
      written := written c ++ default [] (dataBuffer c);
      uncaught := uncaught c |}).

(** The ['timeout'] and ['error'] listeners of the upstream socket. *)
Definition onUpstreamFailure (srv : Server) (c : Connection)
  : Server * Connection :=
  (setStats (recordFailure (stats srv)) srv, cleanup c).

(** What the runtime can deliver to one connection. *)
Inductive Event :=
| ClientData (data : list byte)
| PrereadTimeout
| SecureConnect
| UpstreamTimeout
| UpstreamError
| UpstreamEnd
| UpstreamClose
| ClientError
| ClientTimeout
| ClientEnd
| ClientClose.

Definition upstreamLive (c : Connection) : bool :=
  match upstreamSocket c with
  | Some u => negb (upstreamDestroyed u)
  | None => false
  end.

(** Delivery of an event to the listeners of the connection.  The
    listeners of the upstream socket are installed by [connectToUpstream]
    and run on every event of that socket, also after [cleanup] destroyed
    it: they have no check of their own.  What is not delivered: data
    after the client socket was destroyed or the listener removed, a timer
    that was cleared, an event of an upstream socket that does not exist,
    and ['secureConnect'] on a destroyed socket or a second time. *)
Definition deliver (ev : Event) (srv : Server) (c : Connection)
  : Server * Connection :=
  match ev with
  | ClientData data =>
    if dataListener c && negb (clientDestroyed c) then onClientData data srv c
    else (srv, c)
  | PrereadTimeout =>
    if prereadTimer c then onPrereadTimeout srv c else (srv, c)
  | SecureConnect =>
    if upstreamLive c && negb (isUpstreamConnected c)
    then onSecureConnect srv c else (srv, c)
  | UpstreamTimeout | UpstreamError =>
    if bool_decide (is_Some (upstreamSocket c)) then onUpstreamFailure srv c
    else (srv, c)
  | UpstreamEnd | UpstreamClose =>
    if bool_decide (is_Some (upstreamSocket c)) then (srv, cleanup c)
    else (srv, c)
  | ClientError | ClientTimeout | ClientEnd | ClientClose => (srv, cleanup c)
  end.

(** A run of events on one connection. *)
Fixpoint deliverAll (evs : list Event) (srv : Server) (c : Connection)
  : Server * Connection :=
  match evs with
  | [] => (srv, c)
  | ev :: rest => let '(srv, c) := deliver ev srv c in deliverAll rest srv c
  end.

(** The server state when the process starts. *)
Definition newServer : Server :=
  {| stats := newStatsTracker; rateLimitMap := empty |}.

(* ===================================================================== *)
(** ** ClientHello records, as clients send them                          *)
(* ===================================================================== *)

(** The byte of a number below 256, and the big-endian encodings of
    16-bit and 24-bit lengths. *)
Definition u8 (n : nat) : byte := default x00 (Byte.of_nat (n mod 256)).
Definition be16 (n : nat) : list byte := [u8 (n / 256); u8 n].
Definition be24 (n : nat) : list byte :=
  [u8 (n / 256 / 256); u8 (n / 256); u8 n].

(** An extension: its type and its data. *)
Definition encodeExtension (ext : nat * list byte) : list byte :=
  be16 ext.1 ++ be16 (length ext.2) ++ ext.2.

Definition encodeExtensions (exts : list (nat * list byte)) : list byte :=
  flat_map encodeExtension exts.

(** The data of a server_name extension with one host_name entry. *)
Definition serverNameData (name : list byte) : list byte :=
  be16 (length name + 3) ++ [x00] ++ be16 (length name) ++ name.

(** The fields of a ClientHello that the sender chooses. *)
Record ClientHello := {
  random : list byte;
  sessionId : list byte;
  cipherSuites : list byte;
  compressionMethods : list byte;
  extensions : list (nat * list byte)
}.

(** The body of the handshake message, from the client version on. *)
Definition helloBody (ch : ClientHello) : list byte :=
  [x03; x03] ++ random ch
  ++ [u8 (length (sessionId ch))] ++ sessionId ch
  ++ be16 (length (cipherSuites ch)) ++ cipherSuites ch
  ++ [u8 (length (compressionMethods ch))] ++ compressionMethods ch
  ++ be16 (length (encodeExtensions (extensions ch)))
  ++ encodeExtensions (extensions ch).

(** The TLS record carrying the ClientHello. *)
Definition encodeClientHello (ch : ClientHello) : list byte :=
  [x16; x03; x01] ++ be16 (4 + length (helloBody ch))
  ++ [x01] ++ be24 (length (helloBody ch)) ++ helloBody ch.

(** The 43 bytes before the session id. *)
Definition helloPrefix (ch : ClientHello) : list byte :=
  [x16; x03; x01] ++ be16 (4 + length (helloBody ch))
  ++ [x01] ++ be24 (length (helloBody ch)) ++ [x03; x03] ++ random ch.

(** The fields fit the widths of their length prefixes and the message
    fits one record. *)
Definition wellFormed (ch : ClientHello) : Prop :=
  length (random ch) = 32
  /\ length (sessionId ch) < 256
  /\ length (cipherSuites ch) < 256 * 256
  /\ length (compressionMethods ch) < 256
  /\ Forall (fun ext => ext.1 < 256 * 256 /\ length ext.2 < 256 * 256) (extensions ch)
  /\ 4 + length (helloBody ch) < 256 * 256.

(** A ClientHello whose only extension is server_name with [name], and the
    bytes of an ASCII or UTF-8 literal. *)
Definition helloFor (name : list byte) : ClientHello :=
  {| random := repeat x00 32;
     sessionId := [];
     cipherSuites := [x13; x01];
     compressionMethods := [x00];
     extensions := [(0, serverNameData name)] |}.

Definition bytes (s : string) : list byte := list_byte_of_string s.

(** Two ClientHello records written out byte by byte: one whose
    server_name entry has length 0, one for [example.com]. *)
Definition emptyNameHello : list byte :=
  [x16; x03; x01; x00; x38;              (* record: handshake, length 56 *)
   x01; x00; x00; x34;                   (* ClientHello, length 52 *)
   x03; x03]                             (* client version *)
  ++ repeat x00 32                       (* random *)
  ++ [x00;                               (* session id length *)
      x00; x02; x13; x01;                (* cipher suites *)
      x01; x00;                          (* compression methods *)
      x00; x09;                          (* extensions length *)
      x00; x00; x00; x05;                (* server_name, length 5 *)
      x00; x03;                          (* server name list length *)
      x00;                               (* host_name *)
      x00; x00].                         (* name length 0 *)

Definition exampleComHello : list byte :=
  [x16; x03; x01; x00; x43;
   x01; x00; x00; x3f;
   x03; x03]
  ++ repeat x00 32
  ++ [x00;
      x00; x02; x13; x01;
      x01; x00;
      x00; x14;
      x00; x00; x00; x10;
      x00; x0e;
      x00;
      x00; x0b]
  ++ bytes "example.com".

(** The first 16 KiB + 1 bytes of a record that announces 65535 bytes,
    and the start of a plain HTTP request. *)
Definition oversizedPrefix : list byte :=
  [x16; x03; x01; xff; xff] ++ repeat x00 (16 * 1024 - 4).

Definition httpRequest : list byte := bytes "GET / HTTP/1.1".

(** The text of allow-list entries: a number in decimal, a dotted quad
    and a CIDR entry [a.b.c.d/n]. *)
Definition decimal (n : nat) : jsstring :=
  js (NilEmpty.string_of_uint (Nat.to_uint n)).

Definition dotted (a b c d : nat) : jsstring :=
  decimal a ++ 0x2E%N :: decimal b ++ 0x2E%N :: decimal c
  ++ 0x2E%N :: decimal d.

Definition cidrText (a b c d n : nat) : jsstring :=
  dotted a b c d ++ 0x2F%N :: decimal n.

(** Address strings that are no IPv4 dotted quad by their shape: the
    number of dots is not three, or the string is a quad of decimal
    numbers with one above 255. *)
Definition dotCount (ip : jsstring) : nat :=
  length (List.filter (N.eqb 0x2E) ip).

Definition octetAbove255 (ip : jsstring) : Prop :=
  exists a b c d,
    ip = dotted a b c d /\ (255 < a \/ 255 < b \/ 255 < c \/ 255 < d).

Definition malformedAddress (ip : jsstring) : Prop :=
  dotCount ip <> 3 \/ octetAbove255 ip.

(** The address [a.b.c.d] as an unsigned 32-bit number, the mask of a
    prefix length, and the octets of a 32-bit number ([octetOf 3] is the
    first one). *)
Definition address (a b c d : nat) : Z :=
  (Z.of_nat a * 2 ^ 24 + Z.of_nat b * 2 ^ 16 + Z.of_nat c * 2 ^ 8
   + Z.of_nat d)%Z.

Definition maskOf (n : nat) : Z :=
  if n =? 0 then 0%Z else (2 ^ 32 - 2 ^ (32 - Z.of_nat n))%Z.

Definition octetOf (i : Z) (w : Z) : nat :=
  Z.to_nat ((w / 2 ^ (8 * i)) mod 256).

(** The entry [(a.b.c.d & mask_n)/n]. *)
Definition canonicalText (a b c d n : nat) : jsstring :=
  let w := Z.land (address a b c d) (maskOf n) in
  cidrText (octetOf 3 w) (octetOf 2 w) (octetOf 1 w) (octetOf 0 w) n.

(** What the built-ins make of the decimal text of [k]; evaluated for
    every [k] up to 255 in [decimalChecks_all]. *)
Definition decimalChecks (k : nat) : bool :=
  let s := decimal k in
  negb (ltZero (Number s)) && negb (gt255 (Number s))
  && (truncate (Number s) =? Z.of_nat k)%Z
  && bool_decide (parseInt10 s = Some (Z.of_nat k))
  && negb (includes 0x2E s) && negb (includes 0x2F s)
  && negb (includes 0x2C s)
  && match s with c :: _ => negb (isWhiteSpace c) | [] => false end
  && match rev s with c :: _ => negb (isWhiteSpace c) | [] => false end.

(** Two rules that differ at most in the text they were read from. *)
Definition sameRule (r1 r2 : Rule) : Prop :=
  match r1, r2 with
  | CidrRule c1 _, CidrRule c2 _ => c1 = c2
  | IpRule i1 _, IpRule i2 _ => i1 = i2
  | _, _ => False
  end.

(** The allow-list of the default configuration, [ALLOWED_IPS] unset. *)
Definition defaultRules : list Rule :=
  setAllowedIPs (IPString (js "0.0.0.0/0")).

(* ===================================================================== *)
(** ** src/config.js: the configuration and its validation                *)
(* ===================================================================== *)

Module Config.

(** The fields of [config] that [validateConfig] and the proxy core read.
    A number is the integer that [parseInt] gave, or [None] when it gave
    NaN. *)
Record t := {
  port : option Z;
  healthPort : option Z;
  allowedIPs : jsstring;
  proxyConnectTimeout : option Z;
  proxyTimeout : option Z;
  prereadTimeout : option Z;
  rateLimitPerIP : option Z
}.

End Config.

(** [x < c] and [x > c] for a number [x] that may be NaN. *)
Definition numLt (x : option Z) (c : Z) : bool :=
  match x with Some v => (v <? c)%Z | None => false end.
Definition numGt (x : option Z) (c : Z) : bool :=
  match x with Some v => (c <? v)%Z | None => false end.

(** [x === y] on numbers: false when either is NaN. *)
Definition numEq (x y : option Z) : bool :=
  match x, y with
  | Some v, Some w => (v =? w)%Z
  | _, _ => false
  end.

(** The messages that [validateConfig] collects, by the check that failed
    and the value printed in the message. *)
Inductive ConfigError :=
| InvalidPort (value : option Z)
| InvalidHealthPort (value : option Z)
| SamePorts (value : option Z)
| ConnectTimeoutTooLow (value : option Z)
| ProxyTimeoutTooLow (value : option Z)
| RateLimitTooLow (value : option Z).

(** [validateConfig()]: the array [errors]; the function throws when it is
    not empty. *)
Definition validateConfig (c : Config.t) : list ConfigError :=
  (if numLt (Config.port c) 1 || numGt (Config.port c) 65535
   then [InvalidPort (Config.port c)] else [])
  ++ (if numLt (Config.healthPort c) 1 || numGt (Config.healthPort c) 65535
      then [InvalidHealthPort (Config.healthPort c)] else [])
  ++ (if numEq (Config.port c) (Config.healthPort c)
      then [SamePorts (Config.port c)] else [])
  ++ (if numLt (Config.proxyConnectTimeout c) 1000
      then [ConnectTimeoutTooLow (Config.proxyConnectTimeout c)] else [])
  ++ (if numLt (Config.proxyTimeout c) 1000
      then [ProxyTimeoutTooLow (Config.proxyTimeout c)] else [])
  ++ (if numLt (Config.rateLimitPerIP c) 1
      then [RateLimitTooLow (Config.rateLimitPerIP c)] else []).

(** [getRuleCount()]. *)
Definition getRuleCount (rules : list Rule) : nat := length rules.

(* ===================================================================== *)
(** ** Further test vectors and predicates of the statements              *)
(* ===================================================================== *)

(** A ClientHello with a session id, a supported_groups extension before
    the server_name extension for [name], and a second server_name
    extension after it. *)
Definition sampleHello (name : list byte) : ClientHello :=
  {| random := repeat x2a 32;
     sessionId := repeat x01 32;
     cipherSuites := [x13; x01; x13; x02];
     compressionMethods := [x00];
     extensions := [(10, [x00; x02; x00; x1d]);
                    (0, serverNameData name);
                    (0, serverNameData (bytes "ignored.example"))] |}.

(** Every entry holds a count between 1 and the limit. *)
Definition countsWithin (rateLimitPerIP : Z) (m : gmap jsstring RateEntry)
  : Prop :=
  forall ip e, m !! ip = Some e -> (1 <= count e <= rateLimitPerIP)%Z.

(** A number passes a range check when it is NaN or in the range. *)
Definition nanOrWithin (x : option Z) (lo hi : Z) : Prop :=
  match x with Some v => (lo <= v <= hi)%Z | None => True end.
Definition nanOrAtLeast (x : option Z) (lo : Z) : Prop :=
  match x with Some v => (lo <= v)%Z | None => True end.

(** The number of [recordConnection] calls for an SNI. *)
Definition connectionsFor (sni : jsstring) (calls : list StatsCall) : nat :=
  length (List.filter (fun c => match c with
                                | CallConnection _ s => bool_decide (s = sni)
                                | _ => false
                                end) calls).

Definition countOf (n : nat) : option CountValue :=
  match n with O => None | S _ => Some (Count (Z.of_nat n)) end.

(** The connection after a ClientHello for [sni] was accepted, and after
    the upstream handshake completed. *)
Definition dialledConnection (ip sni : jsstring) (u : Upstream)
    (hello : list byte) : Connection :=
  connectToUpstream (Target u)
    (removeDataListener
       (setSniHostname (Some sni)
          (setDataBuffer (Some hello) (listeningConnection ip)))).

(** A connection on which [cleanup] or a rejection has run: the client
    socket is destroyed, the timer is cleared and no upstream socket is
    live. *)
Definition closed (c : Connection) : Prop :=
  clientDestroyed c = true /\ prereadTimer c = false /\ upstreamLive c = false.

(** The events that run the ['timeout'] or the ['error'] listener of the
    upstream socket, and how many of them a run holds. *)
Definition isUpstreamFailure (ev : Event) : bool :=
  match ev with UpstreamTimeout | UpstreamError => true | _ => false end.

Definition upstreamFailures (evs : list Event) : nat :=
  length (List.filter isUpstreamFailure evs).

(** What holds of a connection at every moment: [tls.connect] has been
    called only for a parsed name that [getUpstreamForSNI] did not refuse,
    after which [onClientData] no longer listens; and nothing is written
    upstream before the upstream handshake is complete. *)
Definition dialOnlyAfterRoute (c : Connection) : Prop :=
  (upstreamSocket c <> None ->
   dataListener c = false
   /\ exists name, sniHostname c = Some name
                   /\ getUpstreamForSNI name <> Null)
  /\ (isUpstreamConnected c = false -> written c = []).

(* ===================================================================== *)
(** * Properties                                                          *)
(* ===================================================================== *)

(** ** Reading buffers *)

(** Lengths of chains of appends, by arithmetic. *)
Ltac list_len :=
  repeat first [ rewrite length_app | rewrite repeat_length
               | progress unfold be16, be24 | progress cbn [length] ];
  lia.

(** Both sides are the same chain of appends, up to bracketing. *)
Ltac list_norm :=
  repeat (progress (rewrite <- ?app_assoc; cbn [app])); reflexivity.

Lemma u8_to_nat (n : nat) : n < 256 -> Byte.to_nat (u8 n) = n.
Proof.
  intros Hn. unfold u8. rewrite Nat.mod_small by exact Hn.
  destruct (Byte.of_nat n) as [b|] eqn:E.
  - simpl. apply Byte.to_of_nat. exact E.
  - apply Byte.of_nat_None_iff in E. lia.
Qed.

Lemma u8_mod_to_nat (n : nat) : Byte.to_nat (u8 n) = n mod 256.
Proof.
  unfold u8.
  assert (Hlt : n mod 256 < 256) by (apply Nat.mod_upper_bound; lia).
  destruct (Byte.of_nat (n mod 256)) as [b|] eqn:E.
  - simpl. apply Byte.to_of_nat. exact E.
  - apply Byte.of_nat_None_iff in E. lia.
Qed.

Lemma byteAt_skip (front l : list byte) (off i : nat) :
  length front = off -> byteAt (front ++ l) (off + i) = byteAt l i.
Proof.
  intros <-. unfold byteAt. rewrite lookup_app_r by lia.
  replace (length front + i - length front) with i by lia. reflexivity.
Qed.

Lemma byteAt_here (front : list byte) (x : byte) (rest : list byte) (off : nat) :
  length front = off -> byteAt (front ++ x :: rest) off = Some (Byte.to_nat x).
Proof.
  intros H. rewrite <- (Nat.add_0_r off). rewrite (byteAt_skip _ _ off) by exact H.
  reflexivity.
Qed.

Lemma byteAt_front (front l : list byte) (i : nat) :
  i < length front -> byteAt (front ++ l) i = byteAt front i.
Proof.
  intros H. unfold byteAt. rewrite lookup_app_l by exact H. reflexivity.
Qed.

Lemma byteAt_bound (b : list byte) (i v : nat) :
  byteAt b i = Some v -> i < length b /\ v < 256.
Proof.
  unfold byteAt. intros H.
  destruct (b !! i) as [x|] eqn:E; simpl in H; [|discriminate].
  injection H as <-. split.
  - eapply lookup_lt_Some. exact E.
  - pose proof (Byte.to_nat_bounded x). lia.
Qed.

Lemma byteAt_None (b : list byte) (i : nat) :
  length b <= i -> byteAt b i = None.
Proof.
  intros H. unfold byteAt. rewrite lookup_ge_None_2 by exact H. reflexivity.
Qed.

Lemma readUInt16BE_skip (front l : list byte) (off i : nat) :
  length front = off -> readUInt16BE (front ++ l) (off + i) = readUInt16BE l i.
Proof.
  intros H. unfold readUInt16BE.
  rewrite (byteAt_skip _ _ off) by exact H.
  replace (off + i + 1) with (off + (i + 1)) by lia.
  rewrite (byteAt_skip _ _ off) by exact H. reflexivity.
Qed.

Lemma readUInt16BE_be16 (n : nat) (rest : list byte) :
  n < 256 * 256 -> readUInt16BE (be16 n ++ rest) 0 = Some n.
Proof.
  intros Hn. unfold readUInt16BE, be16.
  change (byteAt ([u8 (n / 256); u8 n] ++ rest) 0)
    with (Some (Byte.to_nat (u8 (n / 256)))).
  change (byteAt ([u8 (n / 256); u8 n] ++ rest) (0 + 1))
    with (Some (Byte.to_nat (u8 n))).
  rewrite u8_to_nat by (apply Nat.Div0.div_lt_upper_bound; lia).
  rewrite u8_mod_to_nat. f_equal.
  pose proof (Nat.div_mod_eq n 256). lia.
Qed.

Lemma readUInt16BE_here (front : list byte) (n : nat) (rest : list byte)
    (off : nat) :
  length front = off -> n < 256 * 256 ->
  readUInt16BE (front ++ be16 n ++ rest) off = Some n.
Proof.
  intros H Hn. rewrite <- (Nat.add_0_r off).
  rewrite (readUInt16BE_skip _ _ off) by exact H.
  apply readUInt16BE_be16. exact Hn.
Qed.

Lemma readUInt16BE_bound (b : list byte) (off n : nat) :
  readUInt16BE b off = Some n -> off + 1 < length b /\ n < 256 * 256.
Proof.
  unfold readUInt16BE. intros H.
  destruct (byteAt b off) as [hi|] eqn:E1; [|discriminate].
  destruct (byteAt b (off + 1)) as [lo|] eqn:E2; [|discriminate].
  injection H as <-.
  apply byteAt_bound in E1, E2. lia.
Qed.

Lemma length_be16 (n : nat) : length (be16 n) = 2.
Proof. reflexivity. Qed.

(** ** The extension loop never runs out of fuel *)

Lemma parseExtensions_fuel (b : list byte) (extensionsEnd : nat) :
  forall fuel1 fuel2 offset,
    length b <= offset + fuel1 -> length b <= offset + fuel2 ->
    parseExtensions fuel1 b offset extensionsEnd
    = parseExtensions fuel2 b offset extensionsEnd.
Proof.
  induction fuel1 as [|fuel1 IH]; intros fuel2 offset H1 H2.
  - destruct fuel2 as [|fuel2]; [reflexivity|]. simpl.
    replace (offset + 3 <? length b) with false
      by (symmetry; apply Nat.ltb_ge; lia).
    rewrite andb_false_r. reflexivity.
  - destruct fuel2 as [|fuel2].
    + simpl.
      replace (offset + 3 <? length b) with false
        by (symmetry; apply Nat.ltb_ge; lia).
      rewrite andb_false_r. reflexivity.
    + simpl.
      destruct ((offset + 3 <? extensionsEnd) && (offset + 3 <? length b));
        [|reflexivity].
      destruct (readUInt16BE b offset) as [t|]; [|reflexivity].
      destruct (readUInt16BE b (offset + 2)) as [l|]; [|reflexivity].
      destruct (t =? 0); [reflexivity|].
      apply IH; lia.
Qed.

(** ** The parser on encoded ClientHello records *)

Lemma length_serverNameData (name : list byte) :
  length (serverNameData name) = length name + 5.
Proof.
  unfold serverNameData. rewrite !length_app, !length_be16. cbn [length]. lia.
Qed.

Lemma length_encodeExtension (ext : nat * list byte) :
  length (encodeExtension ext) = 4 + length ext.2.
Proof.
  unfold encodeExtension. rewrite !length_app, !length_be16. lia.
Qed.

Lemma toStringUtf8_slice (front name rest : list byte) (off : nat) :
  length front = off ->
  toStringUtf8 (front ++ name ++ rest) off (off + length name)
  = utf8Decode None (map Byte.to_N name).
Proof.
  intros <-. unfold toStringUtf8.
  rewrite drop_app_length.
  replace (length front + length name - length front) with (length name) by lia.
  rewrite take_app_length. reflexivity.
Qed.

Lemma parseSNIExtension_serverName (front name rest : list byte) (off : nat) :
  length front = off ->
  length name + 3 < 256 * 256 ->
  parseSNIExtension (front ++ serverNameData name ++ rest) off
  = Some (utf8Decode None (map Byte.to_N name)).
Proof.
  intros Hoff Hlen.
  set (b := front ++ serverNameData name ++ rest).
  assert (Hb : length b = off + (length name + 5) + length rest).
  { subst b. rewrite !length_app, length_serverNameData. lia. }
  unfold parseSNIExtension.
  replace (length b <=? off + 4) with false
    by (symmetry; apply Nat.leb_gt; lia).
  assert (H1 : readUInt16BE b off = Some (length name + 3)).
  { subst b. unfold serverNameData. rewrite <- !app_assoc.
    apply readUInt16BE_here; [exact Hoff | exact Hlen]. }
  rewrite H1.
  replace (length b <=? off + 2 + 2) with false
    by (symmetry; apply Nat.leb_gt; lia).
  assert (H2 : byteAt b (off + 2) = Some 0).
  { subst b. unfold serverNameData.
    replace (front ++ (be16 (length name + 3) ++ [x00] ++ be16 (length name) ++ name) ++ rest)
      with ((front ++ be16 (length name + 3)) ++ x00 :: be16 (length name) ++ name ++ rest)
      by (rewrite <- !app_assoc; reflexivity).
    apply byteAt_here. rewrite length_app, length_be16. lia. }
  rewrite H2.
  assert (H3 : readUInt16BE b (off + 2 + 1) = Some (length name)).
  { subst b. unfold serverNameData.
    replace (front ++ (be16 (length name + 3) ++ [x00] ++ be16 (length name) ++ name) ++ rest)
      with ((front ++ be16 (length name + 3) ++ [x00]) ++ be16 (length name) ++ name ++ rest)
      by (rewrite <- !app_assoc; reflexivity).
    apply readUInt16BE_here; [|lia].
    rewrite !length_app, length_be16. cbn [length]. lia. }
  rewrite H3.
  replace (off + 2 + 3 + length name <=? length b) with true
    by (symmetry; apply Nat.leb_le; lia).
  cbn [Nat.eqb andb]. f_equal.
  subst b. unfold serverNameData.
  replace (front ++ (be16 (length name + 3) ++ [x00] ++ be16 (length name) ++ name) ++ rest)
    with ((front ++ be16 (length name + 3) ++ [x00] ++ be16 (length name)) ++ name ++ rest)
    by (rewrite <- !app_assoc; reflexivity).
  apply toStringUtf8_slice.
  rewrite !length_app, !length_be16. cbn [length]. lia.
Qed.

(** The loop steps over every extension whose type is not 0. *)
Lemma parseExtensions_skip (pre : list (nat * list byte)) :
  forall (front rest : list byte) (fuel off extensionsEnd : nat),
    Forall (fun ext => ext.1 <> 0 /\ ext.1 < 256 * 256
                       /\ length ext.2 < 256 * 256) pre ->
    length front = off ->
    off + length (encodeExtensions pre) + 3 < extensionsEnd ->
    3 < length rest ->
    parseExtensions (length pre + fuel)
      (front ++ encodeExtensions pre ++ rest) off extensionsEnd
    = parseExtensions fuel
        (front ++ encodeExtensions pre ++ rest)
        (off + length (encodeExtensions pre)) extensionsEnd.
Proof.
  induction pre as [|[t d] pre IH];
    intros front rest fuel off extensionsEnd Hpre Hoff Hend Hrest.
  - cbn [encodeExtensions flat_map length]. rewrite Nat.add_0_r. reflexivity.
  - inversion Hpre as [|? ? [Ht [Ht' Hd]] Hpre']; subst. cbn [fst snd] in *.
    set (b := front ++ encodeExtensions ((t, d) :: pre) ++ rest).
    assert (Hb : b = (front ++ encodeExtension (t, d))
                      ++ encodeExtensions pre ++ rest).
    { subst b. cbn [encodeExtensions flat_map]. rewrite <- !app_assoc.
      reflexivity. }
    assert (Hlen : length (encodeExtensions ((t, d) :: pre))
                   = 4 + length d + length (encodeExtensions pre)).
    { cbn [encodeExtensions flat_map]. rewrite length_app, length_encodeExtension.
      reflexivity. }
    rewrite Hlen in Hend.
    assert (Hlb : length b = length front + (4 + length d
                    + length (encodeExtensions pre)) + length rest).
    { subst b. rewrite !length_app, Hlen. lia. }
    cbn [length Nat.add parseExtensions].
    replace (length front + 3 <? extensionsEnd) with true
      by (symmetry; apply Nat.ltb_lt; lia).
    replace (length front + 3 <? length b) with true
      by (symmetry; apply Nat.ltb_lt; lia).
    cbn [andb].
    assert (H1 : readUInt16BE b (length front) = Some t).
    { subst b. cbn [encodeExtensions flat_map]. unfold encodeExtension.
      cbn [fst snd]. rewrite <- !app_assoc.
      apply readUInt16BE_here; [reflexivity | exact Ht']. }
    assert (H2 : readUInt16BE b (length front + 2) = Some (length d)).
    { subst b. rewrite (readUInt16BE_skip front _ (length front)) by reflexivity.
      cbn [encodeExtensions flat_map]. unfold encodeExtension.
      cbn [fst snd]. rewrite <- !app_assoc.
      apply readUInt16BE_here; [reflexivity | exact Hd]. }
    rewrite H1, H2.
    replace (t =? 0) with false by (symmetry; apply Nat.eqb_neq; exact Ht).
    rewrite Hb.
    replace (length front + 4 + length d)
      with (length (front ++ encodeExtension (t, d)))
      by (rewrite length_app, length_encodeExtension; cbn [snd]; lia).
    rewrite (IH (front ++ encodeExtension (t, d)) rest fuel _ extensionsEnd
               Hpre' eq_refl).
    + f_equal. rewrite length_app, length_encodeExtension. cbn [snd]. lia.
    + rewrite length_app, length_encodeExtension. cbn [snd]. lia.
    + exact Hrest.
Qed.

(** [parseSNI] up to the extension loop, on a buffer laid out as a
    ClientHello: a 43-byte prefix, then the three length-prefixed fields
    and the extension block [E] announced with length [le]. *)
Lemma parseSNI_layout (P sid cs cm E : list byte) (le : nat) :
  length P = 43 ->
  byteAt P 0 = Some 0x16 ->
  byteAt P 5 = Some 0x01 ->
  length sid < 256 -> length cs < 256 * 256 -> length cm < 256 ->
  le < 256 * 256 ->
  let b := P ++ u8 (length sid) :: sid ++ be16 (length cs) ++ cs
             ++ u8 (length cm) :: cm ++ be16 le ++ E in
  let offset := 43 + (1 + length sid) + (2 + length cs)
                + (1 + length cm) + 2 in
  length b = offset + length E
  /\ parseSNI b = parseExtensions (length b) b offset (offset + le).
Proof.
  intros HP H0 H5 Hsid Hcs Hcm Hle b offset.
  assert (Hlen : length b = offset + length E).
  { subst b offset. list_len. }
  split; [exact Hlen|].
  unfold parseSNI. cbv zeta.
  replace (length b <? 5) with false by (symmetry; apply Nat.ltb_ge; lia).
  assert (Hb0 : byteAt b 0 = Some 0x16).
  { subst b. rewrite byteAt_front by lia. exact H0. }
  assert (Hb5 : byteAt b 5 = Some 0x01).
  { subst b. rewrite byteAt_front by lia. exact H5. }
  rewrite (bool_decide_eq_true_2 _ Hb0), (bool_decide_eq_true_2 _ Hb5).
  cbn [negb orb].
  replace (length b <=? 43) with false by (symmetry; apply Nat.leb_gt; lia).
  assert (H1 : byteAt b 43 = Some (length sid)).
  { subst b. rewrite (byteAt_here P _ _ 43 HP).
    rewrite u8_to_nat by exact Hsid. reflexivity. }
  rewrite H1.
  replace (length b <=? 43 + (1 + length sid) + 1) with false
    by (symmetry; apply Nat.leb_gt; lia).
  assert (H2 : readUInt16BE b (43 + (1 + length sid)) = Some (length cs)).
  { subst b.
    replace (P ++ u8 (length sid) :: sid ++ be16 (length cs) ++ cs
               ++ u8 (length cm) :: cm ++ be16 le ++ E)
      with ((P ++ u8 (length sid) :: sid) ++ be16 (length cs) ++ cs
               ++ u8 (length cm) :: cm ++ be16 le ++ E)
      by (rewrite <- app_assoc; reflexivity).
    apply readUInt16BE_here; [|exact Hcs].
    list_len. }
  rewrite H2.
  replace (length b <=? 43 + (1 + length sid) + (2 + length cs)) with false
    by (symmetry; apply Nat.leb_gt; lia).
  assert (H3 : byteAt b (43 + (1 + length sid) + (2 + length cs))
               = Some (length cm)).
  { subst b.
    replace (P ++ u8 (length sid) :: sid ++ be16 (length cs) ++ cs
               ++ u8 (length cm) :: cm ++ be16 le ++ E)
      with ((P ++ u8 (length sid) :: sid ++ be16 (length cs) ++ cs)
               ++ u8 (length cm) :: cm ++ be16 le ++ E)
      by list_norm.
    rewrite byteAt_here.
    - rewrite u8_to_nat by exact Hcm. reflexivity.
    - list_len. }
  rewrite H3.
  replace (length b <=? 43 + (1 + length sid) + (2 + length cs)
                        + (1 + length cm) + 1) with false
    by (symmetry; apply Nat.leb_gt; lia).
  assert (H4 : readUInt16BE b (43 + (1 + length sid) + (2 + length cs)
                               + (1 + length cm)) = Some le).
  { subst b.
    replace (P ++ u8 (length sid) :: sid ++ be16 (length cs) ++ cs
               ++ u8 (length cm) :: cm ++ be16 le ++ E)
      with ((P ++ u8 (length sid) :: sid ++ be16 (length cs) ++ cs
               ++ u8 (length cm) :: cm) ++ be16 le ++ E)
      by list_norm.
    apply readUInt16BE_here; [|exact Hle].
    list_len. }
  rewrite H4. reflexivity.
Qed.

Lemma encodeExtensions_app (pre post : list (nat * list byte)) :
  encodeExtensions (pre ++ post)
  = encodeExtensions pre ++ encodeExtensions post.
Proof. apply flat_map_app. Qed.

Lemma length_encodeExtensions_ge (exts : list (nat * list byte)) :
  length exts <= length (encodeExtensions exts).
Proof.
  induction exts as [|ext exts IH]; [reflexivity|].
  change (encodeExtensions (ext :: exts))
    with (encodeExtension ext ++ encodeExtensions exts).
  rewrite length_app, length_encodeExtension. cbn [length]. lia.
Qed.

Lemma encodeClientHello_layout (ch : ClientHello) :
  encodeClientHello ch
  = helloPrefix ch ++ u8 (length (sessionId ch)) :: sessionId ch
      ++ be16 (length (cipherSuites ch)) ++ cipherSuites ch
      ++ u8 (length (compressionMethods ch)) :: compressionMethods ch
      ++ be16 (length (encodeExtensions (extensions ch)))
      ++ encodeExtensions (extensions ch).
Proof. unfold encodeClientHello, helloPrefix, helloBody. list_norm. Qed.

Lemma length_helloBody (ch : ClientHello) :
  length (helloBody ch)
  = 2 + length (random ch) + (1 + length (sessionId ch))
    + (2 + length (cipherSuites ch)) + (1 + length (compressionMethods ch))
    + 2 + length (encodeExtensions (extensions ch)).
Proof. unfold helloBody. list_len. Qed.

(** On a well-formed ClientHello whose first server_name extension holds
    the host_name entry [name], [parseSNI] returns [name] decoded. *)
Lemma parseSNI_encodeClientHello (ch : ClientHello)
    (pre post : list (nat * list byte)) (name : list byte) :
  wellFormed ch ->
  extensions ch = pre ++ (0, serverNameData name) :: post ->
  Forall (fun ext => ext.1 <> 0) pre ->
  parseSNI (encodeClientHello ch) = Some (utf8Decode None (map Byte.to_N name)).
Proof.
  intros (Hrand & Hsid & Hcs & Hcm & Hexts & Hrec) Hext Hpre.
  pose proof (length_helloBody ch) as Hbody.
  assert (Hle : length (encodeExtensions (extensions ch)) < 256 * 256) by lia.
  assert (HP : length (helloPrefix ch) = 43).
  { unfold helloPrefix. list_len. }
  destruct (parseSNI_layout (helloPrefix ch) (sessionId ch) (cipherSuites ch)
              (compressionMethods ch) (encodeExtensions (extensions ch))
              (length (encodeExtensions (extensions ch)))
              HP eq_refl eq_refl Hsid Hcs Hcm Hle) as [Hlen Hparse].
  rewrite <- encodeClientHello_layout in Hlen, Hparse.
  rewrite Hparse. clear Hparse.
  set (b := encodeClientHello ch) in *.
  set (offset := 43 + (1 + length (sessionId ch))
                 + (2 + length (cipherSuites ch))
                 + (1 + length (compressionMethods ch)) + 2) in *.
  set (data := serverNameData name) in *.
  assert (HE : encodeExtensions (extensions ch)
               = encodeExtensions pre
                 ++ be16 0 ++ be16 (length data) ++ data
                 ++ encodeExtensions post).
  { rewrite Hext, encodeExtensions_app.
    change (encodeExtensions ((0, data) :: post))
      with (encodeExtension (0, data) ++ encodeExtensions post).
    unfold encodeExtension. cbn [fst snd]. list_norm. }
  set (front := helloPrefix ch ++ u8 (length (sessionId ch)) :: sessionId ch
                ++ be16 (length (cipherSuites ch)) ++ cipherSuites ch
                ++ u8 (length (compressionMethods ch)) :: compressionMethods ch
                ++ be16 (length (encodeExtensions (extensions ch)))).
  assert (Hfront : length front = offset).
  { subst front offset. list_len. }
  assert (Hb : b = front ++ encodeExtensions pre
                     ++ be16 0 ++ be16 (length data) ++ data
                     ++ encodeExtensions post).
  { subst b front. rewrite encodeClientHello_layout. rewrite HE at 2.
    list_norm. }
  assert (Hdata : length data < 256 * 256 /\ length data = length name + 5).
  { rewrite Hext in Hexts. apply Forall_app in Hexts as [_ Hexts].
    inversion Hexts as [|? ? [_ Hd] _]; subst. cbn [snd] in Hd.
    split; [exact Hd | apply length_serverNameData]. }
  destruct Hdata as [Hdata Hdata'].
  assert (HlenE : length (encodeExtensions (extensions ch))
                  = length (encodeExtensions pre) + (4 + length data)
                    + length (encodeExtensions post)).
  { rewrite HE. list_len. }
  assert (Hpre' : Forall (fun ext => ext.1 <> 0 /\ ext.1 < 256 * 256
                                     /\ length ext.2 < 256 * 256) pre).
  { rewrite Hext in Hexts. apply Forall_app in Hexts as [Hexts _].
    rewrite Forall_forall in *. intros x Hx.
    specialize (Hpre x Hx). specialize (Hexts x Hx). tauto. }
  pose proof (length_encodeExtensions_ge pre) as Hcount.
  destruct (length b - length pre) as [|fuel] eqn:Hfuel; [lia|].
  replace (length b) with (length pre + S fuel) at 1 by lia.
  rewrite Hb.
  rewrite (parseExtensions_skip pre front _ (S fuel) offset _ Hpre' Hfront)
    by list_len.
  rewrite <- Hb.
  cbn [parseExtensions].
  replace (offset + length (encodeExtensions pre) + 3
           <? offset + length (encodeExtensions (extensions ch))) with true
    by (symmetry; apply Nat.ltb_lt; lia).
  replace (offset + length (encodeExtensions pre) + 3 <? length b) with true
    by (symmetry; apply Nat.ltb_lt; lia).
  cbn [andb].
  assert (H1 : readUInt16BE b (offset + length (encodeExtensions pre)) = Some 0).
  { rewrite Hb.
    replace (front ++ encodeExtensions pre ++ be16 0 ++ be16 (length data)
               ++ data ++ encodeExtensions post)
      with ((front ++ encodeExtensions pre) ++ be16 0 ++ be16 (length data)
               ++ data ++ encodeExtensions post) by list_norm.
    apply readUInt16BE_here; [list_len | lia]. }
  assert (H2 : readUInt16BE b (offset + length (encodeExtensions pre) + 2)
               = Some (length data)).
  { rewrite Hb.
    replace (front ++ encodeExtensions pre ++ be16 0 ++ be16 (length data)
               ++ data ++ encodeExtensions post)
      with ((front ++ encodeExtensions pre ++ be16 0) ++ be16 (length data)
               ++ data ++ encodeExtensions post) by list_norm.
    apply readUInt16BE_here; [list_len | exact Hdata]. }
  rewrite H1, H2. cbn [Nat.eqb].
  rewrite Hb.
  replace (front ++ encodeExtensions pre ++ be16 0 ++ be16 (length data)
             ++ data ++ encodeExtensions post)
    with ((front ++ encodeExtensions pre ++ be16 0 ++ be16 (length data))
             ++ serverNameData name ++ encodeExtensions post) by list_norm.
  apply parseSNIExtension_serverName; [list_len | lia].
Qed.

(** A well-formed ClientHello is a complete record. *)
Lemma hasEnoughDataForSNI_encodeClientHello (ch : ClientHello) :
  wellFormed ch -> hasEnoughDataForSNI (encodeClientHello ch) = true.
Proof.
  intros (Hrand & Hsid & Hcs & Hcm & Hexts & Hrec).
  unfold hasEnoughDataForSNI.
  assert (Hlen : length (encodeClientHello ch) = 9 + length (helloBody ch)).
  { unfold encodeClientHello. list_len. }
  replace (length (encodeClientHello ch) <? 5) with false
    by (symmetry; apply Nat.ltb_ge; lia).
  assert (H0 : byteAt (encodeClientHello ch) 0 = Some 0x16) by reflexivity.
  rewrite (bool_decide_eq_true_2 _ H0). cbn [negb].
  assert (H3 : readUInt16BE (encodeClientHello ch) 3
               = Some (4 + length (helloBody ch))).
  { unfold encodeClientHello.
    apply (readUInt16BE_here [x16; x03; x01]); [reflexivity | exact Hrec]. }
  rewrite H3. apply Nat.leb_le. lia.
Qed.

Lemma emptyNameHello_encoded :
  emptyNameHello = encodeClientHello (helloFor []).
Proof. reflexivity. Qed.

Lemma exampleComHello_encoded :
  exampleComHello = encodeClientHello (helloFor (bytes "example.com")).
Proof. reflexivity. Qed.

Lemma helloFor_wellFormed (name : list byte) :
  length name < 1000 -> wellFormed (helloFor name).
Proof.
  intros Hn. unfold wellFormed.
  rewrite length_helloBody. cbn [helloFor random sessionId cipherSuites
    compressionMethods extensions encodeExtensions flat_map].
  rewrite app_nil_r, length_encodeExtension. cbn [snd fst].
  rewrite length_serverNameData, repeat_length. cbn [length].
  repeat split; try lia.
  constructor; [|constructor]. cbn [fst snd].
  rewrite length_serverNameData. lia.
Qed.

(** ** C7: a server name of length zero *)

(** C7, counterexample.  On the ClientHello [emptyNameHello], whose first
    server_name extension holds a host_name entry of length 0, [parseSNI]
    does not return [null]: it returns the empty string. *)
Lemma C7_zero_length_name_not_absent :
  parseSNI emptyNameHello = Some [] /\ parseSNI emptyNameHello <> None.
Proof. split; [vm_compute; reflexivity | vm_compute; discriminate]. Qed.

(** C7, as amended.  For every well-formed ClientHello whose first
    server_name extension (type 0x0000) holds a host_name entry (type 0) of
    length 0, [parseSNI] returns the empty string, not [null]. *)
Theorem C7_zero_length_name_is_empty_string (ch : ClientHello)
    (pre post : list (nat * list byte)) :
  wellFormed ch ->
  extensions ch = pre ++ (0, serverNameData []) :: post ->
  Forall (fun ext => ext.1 <> 0) pre ->
  parseSNI (encodeClientHello ch) = Some (js "").
Proof.
  intros Hwf Hext Hpre.
  rewrite (parseSNI_encodeClientHello ch pre post [] Hwf Hext Hpre).
  reflexivity.
Qed.

Lemma C7_zero_length_name_witness :
  parseSNI (encodeClientHello (helloFor [])) = Some (js "").
Proof.
  apply (C7_zero_length_name_is_empty_string (helloFor []) [] []).
  - apply helloFor_wellFormed. cbn [length]. lia.
  - reflexivity.
  - constructor.
Defined.

(** ** The connection handler *)

Lemma handleConnection_admitted (rules : list Rule) (rateLimitPerIP now : Z)
    (ip : jsstring) (srv : Server) :
  isAllowed rules ip = true ->
  (checkRateLimit rateLimitPerIP now ip (rateLimitMap srv)).1 = true ->
  handleConnection rules rateLimitPerIP now ip srv
  = ({| stats := stats srv;
        rateLimitMap :=
          (checkRateLimit rateLimitPerIP now ip (rateLimitMap srv)).2 |},
     listeningConnection ip).
Proof.
  intros Hallowed Hrate. unfold handleConnection.
  rewrite Hallowed. cbn [negb].
  destruct (checkRateLimit rateLimitPerIP now ip (rateLimitMap srv))
    as [admitted m].
  cbn [fst snd] in *. subst admitted. reflexivity.
Qed.

Lemma setDataBuffer_same (c : Connection) :
  setDataBuffer (dataBuffer c) c = c.
Proof. destruct c. reflexivity. Qed.

(** While the probe says no, [onClientData] only appends. *)
Lemma onClientData_waits (data old : list byte) (srv : Server)
    (c : Connection) :
  dataBuffer c = Some old ->
  hasEnoughDataForSNI (old ++ data) = false ->
  onClientData data srv c = (srv, setDataBuffer (Some (old ++ data)) c).
Proof.
  intros Hbuf Hprobe. unfold onClientData. rewrite Hbuf. cbv zeta.
  rewrite Hprobe. reflexivity.
Qed.

(** A parse result that is [null] or the empty string is rejected. *)
Lemma onClientData_rejects_falsy (data old : list byte) (srv : Server)
    (c : Connection) (sni : option jsstring) :
  dataBuffer c = Some old ->
  hasEnoughDataForSNI (old ++ data) = true ->
  parseSNI (old ++ data) = sni ->
  sni = None \/ sni = Some [] ->
  onClientData data srv c
  = reject srv (setSniHostname sni (setDataBuffer (Some (old ++ data)) c)).
Proof.
  intros Hbuf Hprobe Hparse Hsni. unfold onClientData.
  rewrite Hbuf. cbv zeta. rewrite Hprobe, Hparse. cbn [negb].
  destruct Hsni as [-> | ->]; reflexivity.
Qed.

(** A name for which [getUpstreamForSNI] returns [null] is rejected. *)
Lemma onClientData_rejects_unknown (data old : list byte) (srv : Server)
    (c : Connection) (name : jsstring) :
  dataBuffer c = Some old ->
  hasEnoughDataForSNI (old ++ data) = true ->
  parseSNI (old ++ data) = Some name ->
  getUpstreamForSNI name = Null ->
  onClientData data srv c
  = reject srv (setSniHostname (Some name)
                  (setDataBuffer (Some (old ++ data)) c)).
Proof.
  intros Hbuf Hprobe Hparse Hroute. unfold onClientData.
  rewrite Hbuf. cbv zeta. rewrite Hprobe, Hparse. cbn [negb].
  rewrite Hroute. destruct (truthy name); reflexivity.
Qed.

Lemma deliverAll_app (evs1 evs2 : list Event) :
  forall (srv : Server) (c : Connection),
    deliverAll (evs1 ++ evs2) srv c
    = deliverAll evs2 (deliverAll evs1 srv c).1 (deliverAll evs1 srv c).2.
Proof.
  induction evs1 as [|ev evs1 IH]; intros srv c.
  - reflexivity.
  - cbn [app deliverAll]. destruct (deliver ev srv c) as [srv' c'].
    apply IH.
Qed.

(** A run of chunks none of which completes the probe leaves everything
    but the buffer as it was. *)
Lemma deliverAll_waits (chunks : list (list byte)) :
  forall (srv : Server) (c : Connection) (old : list byte),
    dataBuffer c = Some old ->
    dataListener c = true ->
    clientDestroyed c = false ->
    (forall k, 0 < k <= length chunks ->
               hasEnoughDataForSNI (old ++ concat (take k chunks)) = false) ->
    deliverAll (map ClientData chunks) srv c
    = (srv, setDataBuffer (Some (old ++ concat chunks)) c).
Proof.
  induction chunks as [|chunk chunks IH]; intros srv c old Hbuf Hl Hd Hprobe.
  - cbn [map deliverAll concat]. rewrite app_nil_r, <- Hbuf, setDataBuffer_same.
    reflexivity.
  - cbn [map deliverAll deliver]. rewrite Hl, Hd. cbn [negb andb].
    rewrite (onClientData_waits chunk old srv c Hbuf).
    + rewrite (IH srv _ (old ++ chunk)); try reflexivity.
      * cbn [concat]. rewrite app_assoc. reflexivity.
      * exact Hl.
      * exact Hd.
      * intros k Hk. specialize (Hprobe (S k)). cbn [take concat] in Hprobe.
        rewrite <- app_assoc. apply Hprobe. cbn [length]. lia.
    + specialize (Hprobe 1). cbn [take concat] in Hprobe.
      rewrite take_0 in Hprobe. cbn [concat] in Hprobe.
      rewrite app_nil_r in Hprobe. apply Hprobe. cbn [length]. lia.
Qed.

(** ** C10: the empty string is handled like a missing SNI *)

(** C10.  When [parseSNI] returns the empty string for the buffered
    ClientHello, [onClientData] records a failure, clears the timer and
    destroys the client socket without calling [tls.connect]: the
    truthiness test on the parsed name rejects the empty string, and
    [getUpstreamForSNI] returns [null] on it as well. *)
Theorem C10_empty_sni_closes_without_dial (data old : list byte)
    (srv : Server) (c : Connection) :
  dataBuffer c = Some old ->
  hasEnoughDataForSNI (old ++ data) = true ->
  parseSNI (old ++ data) = Some (js "") ->
  truthy (js "") = false
  /\ getUpstreamForSNI (js "") = Null
  /\ onClientData data srv c
     = reject srv (setSniHostname (Some (js ""))
                     (setDataBuffer (Some (old ++ data)) c))
  /\ stats (onClientData data srv c).1 = recordFailure (stats srv)
  /\ clientDestroyed (onClientData data srv c).2 = true
  /\ prereadTimer (onClientData data srv c).2 = false
  /\ upstreamSocket (onClientData data srv c).2 = upstreamSocket c.
Proof.
  intros Hbuf Hprobe Hparse.
  pose proof (onClientData_rejects_falsy data old srv c (Some (js ""))
                Hbuf Hprobe Hparse (or_intror eq_refl)) as Hrun.
  rewrite Hrun. repeat split; reflexivity.
Qed.

Lemma C10_empty_sni_witness :
  let c := listeningConnection (js "203.0.113.5") in
  stats (onClientData emptyNameHello newServer c).1
  = recordFailure newStatsTracker
  /\ clientDestroyed (onClientData emptyNameHello newServer c).2 = true
  /\ upstreamSocket (onClientData emptyNameHello newServer c).2 = None.
Proof.
  intros c.
  destruct (C10_empty_sni_closes_without_dial emptyNameHello [] newServer c)
    as (_ & _ & _ & Hstats & Hdestroyed & _ & Hup).
  - reflexivity.
  - vm_compute. reflexivity.
  - vm_compute. reflexivity.
  - split; [exact Hstats | split; [exact Hdestroyed | exact Hup]].
Defined.

(** ** C2: a name that is not in the route table *)

(** C2, counterexample.  Default allow-list, a first connection from
    203.0.113.5 and the ClientHello [exampleComHello] with SNI
    [example.com]: afterwards [total] is 0, not 1, and [domains] has no
    entry for [example.com]. *)
Lemma C2_unknown_sni_counterexample :
  let '(srv0, c0) :=
    handleConnection defaultRules 100 0 (js "203.0.113.5") newServer in
  let '(srv1, c1) := deliver (ClientData exampleComHello) srv0 c0 in
  parseSNI exampleComHello = Some (js "example.com")
  /\ total (stats srv1) = 0%Z
  /\ domains (stats srv1) !! js "example.com" = None
  /\ ~ (total (stats srv1) = 1%Z
        /\ failed (stats srv1) = 1%Z
        /\ domains (stats srv1) !! js "example.com" = Some (Count 1)).
Proof.
  vm_compute. repeat split; try reflexivity.
  intros [H _]. discriminate H.
Qed.

(** C2, as amended.  For a connection from an allowed source that the
    rate limiter admits, whose well-formed ClientHello carries the SNI
    [example.com], the client socket is destroyed and [tls.connect] is
    never called; the only change to the stats is [recordFailure]:
    [failed] grows by one, [total] and [domains] stay as they were, because
    [recordConnection] runs only after the route-table check has passed. *)
Theorem C2_unknown_sni_only_counts_failure (rules : list Rule)
    (rateLimitPerIP now : Z) (ip : jsstring) (srv : Server)
    (ch : ClientHello) (pre post : list (nat * list byte)) :
  isAllowed rules ip = true ->
  (checkRateLimit rateLimitPerIP now ip (rateLimitMap srv)).1 = true ->
  wellFormed ch ->
  extensions ch = pre ++ (0, serverNameData (bytes "example.com")) :: post ->
  Forall (fun ext => ext.1 <> 0) pre ->
  let '(srv0, c0) := handleConnection rules rateLimitPerIP now ip srv in
  let '(srv1, c1) := deliver (ClientData (encodeClientHello ch)) srv0 c0 in
  clientDestroyed c1 = true
  /\ upstreamSocket c1 = None
  /\ stats srv1 = recordFailure (stats srv)
  /\ total (stats srv1) = total (stats srv)
  /\ failed (stats srv1) = (failed (stats srv) + 1)%Z
  /\ domains (stats srv1) = domains (stats srv).
Proof.
  intros Hallowed Hrate Hwf Hext Hpre.
  rewrite (handleConnection_admitted _ _ _ _ _ Hallowed Hrate).
  cbn [deliver listeningConnection dataListener clientDestroyed negb andb].
  change (onClientData (encodeClientHello ch) ?s _)
    with (onClientData (encodeClientHello ch) s (listeningConnection ip)).
  rewrite (onClientData_rejects_unknown (encodeClientHello ch) []
             _ (listeningConnection ip) (js "example.com")).
  - repeat split; reflexivity.
  - reflexivity.
  - apply hasEnoughDataForSNI_encodeClientHello. exact Hwf.
  - rewrite app_nil_l.
    rewrite (parseSNI_encodeClientHello ch pre post _ Hwf Hext Hpre).
    reflexivity.
  - reflexivity.
Qed.

Lemma C2_unknown_sni_witness :
  let '(srv0, c0) :=
    handleConnection defaultRules 100 0 (js "203.0.113.5") newServer in
  let '(srv1, c1) :=
    deliver (ClientData (encodeClientHello (helloFor (bytes "example.com"))))
            srv0 c0 in
  clientDestroyed c1 = true
  /\ upstreamSocket c1 = None
  /\ stats srv1 = recordFailure (stats newServer)
  /\ total (stats srv1) = total (stats newServer)
  /\ failed (stats srv1) = (failed (stats newServer) + 1)%Z
  /\ domains (stats srv1) = domains (stats newServer).
Proof.
  apply (C2_unknown_sni_only_counts_failure defaultRules 100 0
           (js "203.0.113.5") newServer
           (helloFor (bytes "example.com")) [] []).
  - vm_compute. reflexivity.
  - vm_compute. reflexivity.
  - apply helloFor_wellFormed. vm_compute. lia.
  - reflexivity.
  - constructor.
Defined.

(** ** C3: no cap on the preread buffer *)

(** C3, counterexample.  One chunk of 16 KiB + 1 bytes that starts a
    record of 65535 bytes: the probe says no, the buffer now holds more
    than 16 KiB, and the connection is neither closed nor counted as
    failed. *)
Lemma C3_oversized_buffer_keeps_waiting :
  let '(srv0, c0) :=
    handleConnection defaultRules 100 0 (js "203.0.113.5") newServer in
  let '(srv1, c1) := deliver (ClientData oversizedPrefix) srv0 c0 in
  hasEnoughDataForSNI oversizedPrefix = false
  /\ (16 * 1024 <? length (default [] (dataBuffer c1))) = true
  /\ clientDestroyed c1 = false
  /\ dataListener c1 = true
  /\ failed (stats srv1) = 0%Z.
Proof. vm_compute. repeat split; reflexivity. Qed.

(** C3, as amended.  The preread buffer has no cap: as long as
    [hasEnoughDataForSNI] is false on what has been buffered, every chunk
    is appended, whatever the size reached, and nothing else changes (the
    socket stays open, the timer stays set, the stats are untouched).  No
    failure is raised for a large buffer. *)
Theorem C3_preread_buffer_has_no_cap (rules : list Rule)
    (rateLimitPerIP now : Z) (ip : jsstring) (srv : Server)
    (chunks : list (list byte)) :
  isAllowed rules ip = true ->
  (checkRateLimit rateLimitPerIP now ip (rateLimitMap srv)).1 = true ->
  (forall k, 0 < k <= length chunks ->
             hasEnoughDataForSNI (concat (take k chunks)) = false) ->
  let '(srv0, c0) := handleConnection rules rateLimitPerIP now ip srv in
  deliverAll (map ClientData chunks) srv0 c0
  = (srv0, setDataBuffer (Some (concat chunks)) c0).
Proof.
  intros Hallowed Hrate Hprobe.
  rewrite (handleConnection_admitted _ _ _ _ _ Hallowed Hrate).
  apply (deliverAll_waits chunks _ (listeningConnection ip) []);
    try reflexivity.
  exact Hprobe.
Qed.

Lemma C3_preread_buffer_witness :
  let '(srv0, c0) :=
    handleConnection defaultRules 100 0 (js "203.0.113.5") newServer in
  deliverAll (map ClientData [[x16; x03; x01]; [xff; xff; x00]]) srv0 c0
  = (srv0, setDataBuffer (Some [x16; x03; x01; xff; xff; x00]) c0).
Proof.
  apply (C3_preread_buffer_has_no_cap defaultRules 100 0 (js "203.0.113.5")
           newServer [[x16; x03; x01]; [xff; xff; x00]]).
  - vm_compute. reflexivity.
  - vm_compute. reflexivity.
  - intros k Hk. cbn [length] in Hk.
    destruct k as [|[|[|k]]]; [lia | reflexivity | reflexivity | lia].
Defined.

(** ** C5: input that is not TLS *)

Lemma hasEnoughDataForSNI_not_tls (buffer : list byte) :
  byteAt buffer 0 <> Some 0x16 -> hasEnoughDataForSNI buffer = false.
Proof.
  intros H. unfold hasEnoughDataForSNI.
  destruct (length buffer <? 5); [reflexivity|].
  rewrite (bool_decide_eq_false_2 _ H). reflexivity.
Qed.

Lemma concat_take_prefix (chunks : list (list byte)) (k : nat) :
  exists rest, concat chunks = concat (take k chunks) ++ rest.
Proof.
  exists (concat (drop k chunks)).
  rewrite <- concat_app, take_drop. reflexivity.
Qed.

(** C5, counterexample.  The first bytes of an HTTP request, first byte
    0x47: after [onClientData] the socket is still open, the listener and
    the timer are still in place and no failure is recorded. *)
Lemma C5_http_request_not_closed :
  let '(srv0, c0) :=
    handleConnection defaultRules 100 0 (js "203.0.113.5") newServer in
  let '(srv1, c1) := deliver (ClientData httpRequest) srv0 c0 in
  byteAt httpRequest 0 = Some 0x47
  /\ clientDestroyed c1 = false
  /\ dataListener c1 = true
  /\ prereadTimer c1 = true
  /\ failed (stats srv1) = 0%Z.
Proof. vm_compute. repeat split; reflexivity. Qed.

(** C5, as amended.  When the first byte received is not 0x16,
    [hasEnoughDataForSNI] is false on every buffered prefix, so the handler
    keeps buffering and changes nothing else; the connection is closed,
    and counted as failed, when the preread timer fires. *)
Theorem C5_non_tls_closed_by_preread_timer (rules : list Rule)
    (rateLimitPerIP now : Z) (ip : jsstring) (srv : Server)
    (chunks : list (list byte)) (first : byte) (rest : list byte) :
  isAllowed rules ip = true ->
  (checkRateLimit rateLimitPerIP now ip (rateLimitMap srv)).1 = true ->
  concat chunks = first :: rest ->
  first <> x16 ->
  let '(srv0, c0) := handleConnection rules rateLimitPerIP now ip srv in
  hasEnoughDataForSNI (concat chunks) = false
  /\ deliverAll (map ClientData chunks) srv0 c0
     = (srv0, setDataBuffer (Some (concat chunks)) c0)
  /\ stats (deliverAll (map ClientData chunks ++ [PrereadTimeout]) srv0 c0).1
     = recordFailure (stats srv)
  /\ clientDestroyed
       (deliverAll (map ClientData chunks ++ [PrereadTimeout]) srv0 c0).2
     = true
  /\ upstreamSocket
       (deliverAll (map ClientData chunks ++ [PrereadTimeout]) srv0 c0).2
     = None.
Proof.
  intros Hallowed Hrate Hfirst Hne.
  rewrite (handleConnection_admitted _ _ _ _ _ Hallowed Hrate).
  assert (Hprefix : forall l tail, first :: rest = l ++ tail ->
                                   hasEnoughDataForSNI l = false).
  { intros l tail Heq. apply hasEnoughDataForSNI_not_tls.
    destruct l as [|x l]; [discriminate|].
    injection Heq as <- _. unfold byteAt. cbn [lookup list_lookup fmap option_fmap option_map].
    intros Hx. injection Hx as Hx. apply Hne.
    apply (f_equal Byte.of_nat) in Hx. rewrite Byte.of_to_nat in Hx.
    change (Byte.of_nat 22) with (Some x16) in Hx. congruence. }
  assert (Hwait : deliverAll (map ClientData chunks)
                    {| stats := stats srv;
                       rateLimitMap := (checkRateLimit rateLimitPerIP now ip
                                          (rateLimitMap srv)).2 |}
                    (listeningConnection ip)
                  = ({| stats := stats srv;
                        rateLimitMap := (checkRateLimit rateLimitPerIP now ip
                                           (rateLimitMap srv)).2 |},
                     setDataBuffer (Some (concat chunks))
                       (listeningConnection ip))).
  { apply (deliverAll_waits chunks _ (listeningConnection ip) []);
      try reflexivity.
    intros k _. destruct (concat_take_prefix chunks k) as [tail Htail].
    apply (Hprefix _ tail). rewrite <- Hfirst. exact Htail. }
  split; [apply (Hprefix _ []); rewrite app_nil_r; symmetry; exact Hfirst|].
  split; [exact Hwait|].
  rewrite deliverAll_app, Hwait.
  repeat split; reflexivity.
Qed.

Lemma C5_non_tls_witness :
  let '(srv0, c0) :=
    handleConnection defaultRules 100 0 (js "203.0.113.5") newServer in
  hasEnoughDataForSNI (concat [httpRequest]) = false
  /\ deliverAll (map ClientData [httpRequest]) srv0 c0
     = (srv0, setDataBuffer (Some (concat [httpRequest])) c0)
  /\ stats (deliverAll (map ClientData [httpRequest] ++ [PrereadTimeout])
              srv0 c0).1
     = recordFailure (stats newServer)
  /\ clientDestroyed
       (deliverAll (map ClientData [httpRequest] ++ [PrereadTimeout])
          srv0 c0).2
     = true
  /\ upstreamSocket
       (deliverAll (map ClientData [httpRequest] ++ [PrereadTimeout])
          srv0 c0).2
     = None.
Proof.
  apply (C5_non_tls_closed_by_preread_timer defaultRules 100 0
           (js "203.0.113.5") newServer [httpRequest]
           x47 (bytes "ET / HTTP/1.1")).
  - vm_compute. reflexivity.
  - vm_compute. reflexivity.
  - reflexivity.
  - discriminate.
Defined.

(** ** C4: the route table *)

(** The six configured names map to their targets. *)
Lemma getUpstreamForSNI_configured (name : jsstring) (u : Upstream) :
  In (name, u) UNIFI_DOMAINS -> getUpstreamForSNI name = Target u.
Proof.
  intros Hin. cbn in Hin.
  repeat (destruct Hin as [Hin | Hin];
          [injection Hin as <- <-; vm_compute; reflexivity|]).
  contradiction.
Qed.

(** A name that is neither configured nor a member of [Object.prototype]
    is denied. *)
Lemma getUpstreamForSNI_denied (sni : jsstring) :
  ownProperty UNIFI_DOMAINS sni = None ->
  sni ∉ objectPrototypeNames ->
  getUpstreamForSNI sni = Null.
Proof.
  intros Hown Hproto. unfold getUpstreamForSNI, readProperty.
  rewrite Hown, (bool_decide_eq_false_2 _ Hproto).
  destruct (truthy sni); reflexivity.
Qed.

(** A member of [Object.prototype] is not denied. *)
Lemma getUpstreamForSNI_inherited (sni : jsstring) :
  sni ∈ objectPrototypeNames -> getUpstreamForSNI sni = Inherited sni.
Proof.
  intros Hin. unfold objectPrototypeNames in Hin. cbn [map] in Hin.
  repeat (apply elem_of_cons in Hin as [-> | Hin];
          [vm_compute; reflexivity|]).
  apply elem_of_nil in Hin. contradiction.
Qed.

(** C4, at the failing input.  [constructor] is not one of the six
    configured names, and [isAllowedSNI], which tests [hasOwnProperty],
    rejects it; yet [getUpstreamForSNI] does not return [null] on it: the
    lookup [UNIFI_DOMAINS[sni]] finds the member inherited from
    [Object.prototype]. *)
Theorem C4_inherited_name_not_denied :
  ownProperty UNIFI_DOMAINS (js "constructor") = None
  /\ isAllowedSNI (js "constructor") = false
  /\ getUpstreamForSNI (js "constructor") = Inherited (js "constructor")
  /\ getUpstreamForSNI (js "constructor") <> Null.
Proof.
  repeat split; try (vm_compute; reflexivity).
  vm_compute. discriminate.
Qed.

(** The same input through the handler: a ClientHello with the SNI
    [constructor] is not rejected; the connection is recorded, the data
    listener is removed and [tls.connect] is called with [host] and [port]
    undefined.  That call throws: no upstream socket exists afterwards, the
    client socket is left open and the exception leaves the listener. *)
Lemma constructor_sni_throws_in_connect :
  let '(srv0, c0) :=
    handleConnection defaultRules 100 0 (js "203.0.113.5") newServer in
  let '(srv1, c1) :=
    deliver (ClientData (encodeClientHello (helloFor (bytes "constructor"))))
            srv0 c0 in
  total (stats srv1) = 1%Z
  /\ failed (stats srv1) = 0%Z
  /\ dataListener c1 = false
  /\ clientDestroyed c1 = false
  /\ upstreamSocket c1 = None
  /\ uncaught c1 = true.
Proof. vm_compute. repeat split; reflexivity. Qed.

(** ** C6: addresses that do not parse *)

(** Not every address that is no dotted quad makes [ipToInt] throw: a part
    that converts to NaN passes the range test and counts as 0, so an
    IPv4-mapped IPv6 address reads as an address in [0.0.0.0/8]. *)
Lemma ipToInt_ipv4_mapped :
  ipToInt (js "::ffff:10.2.3.4") = ipToInt (js "0.2.3.4")
  /\ ipToInt (js "0.2.3.4") = Some 131844%Z.
Proof. vm_compute. split; reflexivity. Qed.

(** C6, counterexample.  Under the default allow-list [0.0.0.0/0], and
    under an empty one, the IPv6 address [::1], on which [ipToInt] throws,
    is allowed. *)
Lemma C6_unparseable_allowed_by_default :
  ipToInt (js "::1") = None
  /\ isAllowed defaultRules (js "::1") = true
  /\ isAllowed (setAllowedIPs (IPString (js ""))) (js "::1") = true.
Proof. vm_compute. repeat split; reflexivity. Qed.

(** ** C1: the counters of the stats tracker *)

(** Whatever calls are made, [active] stays between
    [max 0 (total - successful - failed)] and [total]. *)
Lemma applyCalls_bounds (calls : list StatsCall) :
  forall s : StatsTracker,
    (0 <= active s)%Z ->
    (total s - successful s - failed s <= active s)%Z ->
    (active s <= total s)%Z ->
    (0 <= active (applyCalls calls s))%Z
    /\ (total (applyCalls calls s) - successful (applyCalls calls s)
        - failed (applyCalls calls s) <= active (applyCalls calls s))%Z
    /\ (active (applyCalls calls s) <= total (applyCalls calls s))%Z.
Proof.
  induction calls as [|call calls IH]; intros s H0 H1 H2.
  - cbn. lia.
  - cbn [applyCalls fold_left]. apply IH; destruct call; cbn; lia.
Qed.

Lemma handleConnection_rejected (rules : list Rule) (rateLimitPerIP now : Z)
    (ip : jsstring) (srv : Server) :
  isAllowed rules ip = false
  \/ (checkRateLimit rateLimitPerIP now ip (rateLimitMap srv)).1 = false ->
  stats (handleConnection rules rateLimitPerIP now ip srv).1
  = recordFailure (stats srv)
  /\ clientDestroyed (handleConnection rules rateLimitPerIP now ip srv).2
     = true.
Proof.
  intros Hrej. unfold handleConnection.
  destruct (isAllowed rules ip); cbn [negb].
  - destruct Hrej as [Hrej | Hrej]; [discriminate|].
    destruct (checkRateLimit rateLimitPerIP now ip (rateLimitMap srv))
      as [admitted m].
    cbn [fst] in Hrej. subst admitted. cbn. split; reflexivity.
  - cbn. split; reflexivity.
Qed.

(** C1, counterexample.  Allow-list [10.0.0.0/8], fresh tracker, one
    connection from 203.0.113.5: it is rejected with [failed = 1] and
    [total = 0], so [active = 0] differs from
    [total - successful - failed = -1]. *)
Lemma C1_rejection_breaks_conservation :
  let '(srv1, c1) :=
    handleConnection (setAllowedIPs (IPString (js "10.0.0.0/8"))) 100 0
                     (js "203.0.113.5") newServer in
  clientDestroyed c1 = true
  /\ active (stats srv1) = 0%Z
  /\ (total (stats srv1) - successful (stats srv1) - failed (stats srv1))%Z
     = (-1)%Z
  /\ active (stats srv1)
     <> (total (stats srv1) - successful (stats srv1) - failed (stats srv1))%Z.
Proof.
  vm_compute. repeat split; try reflexivity. discriminate.
Qed.

(** C1, as amended.  A connection rejected by the allow-list or by the rate
    limiter gets exactly one [failed++] and no [total++] or
    [successful++], and [active] is decremented but not below zero.  On a
    tracker reached from the initial one by any calls of the recording
    methods, [active] is therefore never negative and never below
    [total - successful - failed], also after the rejection; equality is
    not maintained. *)
Theorem C1_rejected_connection_counts_one_failure (calls : list StatsCall)
    (rules : list Rule) (rateLimitPerIP now : Z) (ip : jsstring)
    (srv : Server) :
  stats srv = applyCalls calls newStatsTracker ->
  isAllowed rules ip = false
  \/ (checkRateLimit rateLimitPerIP now ip (rateLimitMap srv)).1 = false ->
  let s := stats srv in
  let s' := stats (handleConnection rules rateLimitPerIP now ip srv).1 in
  failed s' = (failed s + 1)%Z
  /\ successful s' = successful s
  /\ total s' = total s
  /\ active s' = Z.max 0 (active s - 1)
  /\ (0 <= active s)%Z /\ (0 <= active s')%Z
  /\ (total s - successful s - failed s <= active s)%Z
  /\ (total s' - successful s' - failed s' <= active s')%Z.
Proof.
  intros Hreach Hrej s s'.
  destruct (handleConnection_rejected rules rateLimitPerIP now ip srv Hrej)
    as [Hstats _].
  assert (Hbounds : (0 <= active s)%Z
                    /\ (total s - successful s - failed s <= active s)%Z
                    /\ (active s <= total s)%Z).
  { subst s. rewrite Hreach. apply applyCalls_bounds; cbn; lia. }
  subst s'. rewrite Hstats. fold s. cbn [recordFailure failed successful
    total active]. lia.
Qed.

Lemma C1_rejected_connection_witness :
  let srv := {| stats := applyCalls [CallConnection (js "10.0.0.1")
                                       (js "fw-update.ui.com")]
                           newStatsTracker;
                rateLimitMap := empty |} in
  let s := stats srv in
  let s' := stats (handleConnection
                     (setAllowedIPs (IPString (js "10.0.0.0/8"))) 100 0
                     (js "203.0.113.5") srv).1 in
  failed s' = (failed s + 1)%Z
  /\ successful s' = successful s
  /\ total s' = total s
  /\ active s' = Z.max 0 (active s - 1)
  /\ (0 <= active s)%Z /\ (0 <= active s')%Z
  /\ (total s - successful s - failed s <= active s)%Z
  /\ (total s' - successful s' - failed s' <= active s')%Z.
Proof.
  intros srv.
  apply (C1_rejected_connection_counts_one_failure
           [CallConnection (js "10.0.0.1") (js "fw-update.ui.com")]).
  - reflexivity.
  - left. vm_compute. reflexivity.
Defined.

(** ** C8: the rate limiter *)

Lemma checkRateLimit_other (rateLimitPerIP now : Z) (ip ip' : jsstring)
    (m : gmap jsstring RateEntry) :
  ip' <> ip ->
  (checkRateLimit rateLimitPerIP now ip' m).2 !! ip = m !! ip.
Proof.
  intros Hne. unfold checkRateLimit.
  destruct (m !! ip') as [existing|]; cbn [snd].
  - destruct (resetTime existing <? now)%Z; cbn [snd].
    + apply lookup_insert_ne. exact Hne.
    + destruct (rateLimitPerIP <=? count existing)%Z; cbn [snd];
        [reflexivity | apply lookup_insert_ne; exact Hne].
  - apply lookup_insert_ne. exact Hne.
Qed.

(** A check that finds no entry, or an entry whose window is over, opens a
    window. *)
Lemma checkRateLimit_opens (rateLimitPerIP now : Z) (ip : jsstring)
    (m : gmap jsstring RateEntry) :
  m !! ip = None
  \/ (exists e, m !! ip = Some e /\ (resetTime e < now)%Z) ->
  checkRateLimit rateLimitPerIP now ip m
  = (true, <[ip := {| count := 1; resetTime := now + 60000 |}]> m).
Proof.
  intros [Hnone | (e & He & Hexp)]; unfold checkRateLimit.
  - rewrite Hnone. reflexivity.
  - rewrite He. replace (resetTime e <? now)%Z with true
      by (symmetry; apply Z.ltb_lt; exact Hexp).
    reflexivity.
Qed.

(** Inside an open window the admissions of [ip] and the count of its
    entry never add up to more than the limit. *)
Lemma runRateLimit_window (rateLimitPerIP : Z) (ip : jsstring)
    (evs : list RateEvent) :
  forall (m : gmap jsstring RateEntry) (e : RateEntry),
    m !! ip = Some e ->
    (count e <= rateLimitPerIP)%Z ->
    Forall (fun ev => (eventTime ev <= resetTime e)%Z) evs ->
    (Z.of_nat (admittedCount ip (runRateLimit rateLimitPerIP evs m).1)
     + count e <= rateLimitPerIP)%Z.
Proof.
  induction evs as [|ev evs IH]; intros m e He Hcount Htimes.
  - cbn. lia.
  - inversion Htimes as [|? ? Htime Htimes']; subst.
    destruct ev as [now ip' | now]; cbn [eventTime] in Htime.
    + cbn [runRateLimit].
      destruct (decide (ip' = ip)) as [-> | Hne].
      * unfold checkRateLimit. rewrite He.
        replace (resetTime e <? now)%Z with false
          by (symmetry; apply Z.ltb_ge; lia).
        destruct (rateLimitPerIP <=? count e)%Z eqn:Hfull.
        -- specialize (IH m e He Hcount Htimes').
           destruct (runRateLimit rateLimitPerIP evs m) as [answers m'].
           unfold admittedCount in *. cbn [fst List.filter] in *.
           rewrite bool_decide_eq_false_2 by congruence. exact IH.
        -- apply Z.leb_gt in Hfull.
           specialize (IH (<[ip := {| count := count e + 1;
                                      resetTime := resetTime e |}]> m)
                          {| count := count e + 1;
                             resetTime := resetTime e |}
                          (lookup_insert_eq _ _ _)).
           cbn [count resetTime] in IH.
           specialize (IH ltac:(lia) Htimes').
           destruct (runRateLimit rateLimitPerIP evs _) as [answers m'].
           unfold admittedCount in *. cbn [fst List.filter] in *.
           rewrite bool_decide_eq_true_2 by reflexivity.
           cbn [length]. lia.
      * pose proof (checkRateLimit_other rateLimitPerIP now ip ip' m Hne)
          as Hother.
        destruct (checkRateLimit rateLimitPerIP now ip' m) as [admitted m1].
        cbn [snd] in Hother. rewrite He in Hother.
        specialize (IH m1 e Hother Hcount Htimes').
        destruct (runRateLimit rateLimitPerIP evs m1) as [answers m'].
        unfold admittedCount in *. cbn [fst List.filter] in *.
        rewrite bool_decide_eq_false_2 by congruence. exact IH.
    + cbn [runRateLimit]. apply IH; [|exact Hcount | exact Htimes'].
      unfold sweepRateLimit. apply map_lookup_filter_Some_2; [exact He|].
      cbn [snd]. lia.
Qed.

(** C8.  With a configured limit of at least 1: a check that finds no
    entry for the address, or an entry whose window has expired, is
    admitted and sets the entry to count 1 with a window ending 60 seconds
    later; and among that check and all the checks and sweeps that follow
    it up to the end of that window, the number of checks of the address
    answered [true] is at most the limit. *)
Theorem C8_rate_limit_bound (rateLimitPerIP t0 : Z) (ip : jsstring)
    (m : gmap jsstring RateEntry) (evs : list RateEvent) :
  (1 <= rateLimitPerIP)%Z ->
  m !! ip = None \/ (exists e, m !! ip = Some e /\ (resetTime e < t0)%Z) ->
  Forall (fun ev => (eventTime ev <= t0 + 60000)%Z) evs ->
  checkRateLimit rateLimitPerIP t0 ip m
  = (true, <[ip := {| count := 1; resetTime := t0 + 60000 |}]> m)
  /\ (Z.of_nat (admittedCount ip
                  (runRateLimit rateLimitPerIP (RateCheck t0 ip :: evs) m).1)
      <= rateLimitPerIP)%Z.
Proof.
  intros Hlimit Hopen Htimes.
  pose proof (checkRateLimit_opens rateLimitPerIP t0 ip m Hopen) as Hfirst.
  split; [exact Hfirst|].
  cbn [runRateLimit]. rewrite Hfirst.
  pose proof (runRateLimit_window rateLimitPerIP ip evs
                (<[ip := {| count := 1; resetTime := t0 + 60000 |}]> m)
                {| count := 1; resetTime := t0 + 60000 |}
                (lookup_insert_eq _ _ _)) as Hwin.
  cbn [count resetTime] in Hwin. specialize (Hwin Hlimit Htimes).
  destruct (runRateLimit rateLimitPerIP evs _) as [answers m'].
  unfold admittedCount in *. cbn [fst List.filter] in *.
  rewrite bool_decide_eq_true_2 by reflexivity.
  cbn [length]. lia.
Qed.

Lemma C8_rate_limit_witness :
  let ip := js "203.0.113.5" in
  let evs := [RateCheck 10 ip; RateSweep 60000; RateCheck 20000 ip;
              RateCheck 60000 (js "10.0.0.1"); RateCheck 60000 ip] in
  checkRateLimit 2 0 ip empty
  = (true, <[ip := {| count := 1; resetTime := 0 + 60000 |}]> empty)
  /\ (Z.of_nat (admittedCount ip
                  (runRateLimit 2 (RateCheck 0 ip :: evs) empty).1)
      <= 2)%Z.
Proof.
  intros ip evs. apply (C8_rate_limit_bound 2 0 ip empty evs).
  - lia.
  - left. reflexivity.
  - subst evs. repeat constructor; cbn; lia.
Defined.

(** ** C9: CIDR entries and their canonical form *)

(** *** 32-bit conversions, bit by bit *)

Local Open Scope Z_scope.

Ltac pow_consts :=
  change (2 ^ 31) with 2147483648 in *;
  change (2 ^ 32) with 4294967296 in *.

Lemma toInt32_cases (x : Z) :
  (0 <= x mod 2 ^ 32 < 2 ^ 31 /\ toInt32 x = x mod 2 ^ 32)
  \/ (2 ^ 31 <= x mod 2 ^ 32 < 2 ^ 32 /\ toInt32 x = x mod 2 ^ 32 - 2 ^ 32).
Proof. unfold toInt32. pow_consts. Z.div_mod_to_equations. lia. Qed.

Lemma small_bits (y i : Z) : 0 <= y < 2 ^ 31 -> 31 <= i -> Z.testbit y i = false.
Proof.
  intros Hy Hi. destruct (Z.eq_dec y 0) as [-> | Hne].
  - apply Z.bits_0.
  - apply Z.bits_above_log2; [lia|].
    assert (Z.log2 y < 31) by (apply Z.log2_lt_pow2; lia). lia.
Qed.

Lemma toInt32_testbit (x i : Z) :
  0 <= i -> Z.testbit (toInt32 x) i = Z.testbit x (Z.min i 31).
Proof.
  intros Hi.
  destruct (toInt32_cases x) as [[Hy ->] | [Hy ->]].
  - destruct (Z_lt_le_dec i 31) as [Hlt | Hge].
    + rewrite Z.min_l by lia. apply Z.mod_pow2_bits_low. lia.
    + rewrite Z.min_r by lia.
      rewrite <- (Z.mod_pow2_bits_low x 32 31) by lia.
      rewrite !small_bits by lia. reflexivity.
  - destruct (Z_lt_le_dec i 32) as [Hlt | Hge].
    + rewrite Z.min_l by lia.
      rewrite <- (Z.mod_pow2_bits_low (x mod 2 ^ 32 - 2 ^ 32) 32 i) by lia.
      replace ((x mod 2 ^ 32 - 2 ^ 32) mod 2 ^ 32) with (x mod 2 ^ 32)
        by (pow_consts; Z.div_mod_to_equations; lia).
      apply Z.mod_pow2_bits_low. lia.
    + rewrite Z.min_r by lia.
      rewrite <- (Z.mod_pow2_bits_low x 32 31) by lia.
      rewrite Z.bits_above_log2_neg.
      * symmetry. apply Z.testbit_true; [lia|].
        pow_consts. Z.div_mod_to_equations. lia.
      * pow_consts. lia.
      * set (p := Z.pred (- (x mod 2 ^ 32 - 2 ^ 32))).
        assert (Hp : 0 <= p < 2 ^ 31) by (subst p; pow_consts; lia).
        destruct (Z.eq_dec p 0) as [-> | Hne]; [cbn; lia|].
        assert (Z.log2 p < 31) by (apply Z.log2_lt_pow2; lia). lia.
Qed.

Lemma toInt32_land (x y : Z) :
  toInt32 (Z.land x y) = Z.land (toInt32 x) (toInt32 y).
Proof.
  apply Z.bits_inj'. intros i Hi.
  rewrite Z.land_spec, !toInt32_testbit, Z.land_spec by exact Hi.
  reflexivity.
Qed.

Lemma toInt32_lor (x y : Z) :
  toInt32 (Z.lor x y) = Z.lor (toInt32 x) (toInt32 y).
Proof.
  apply Z.bits_inj'. intros i Hi.
  rewrite Z.lor_spec, !toInt32_testbit, Z.lor_spec by exact Hi.
  reflexivity.
Qed.

Lemma toInt32_idem (x : Z) : toInt32 (toInt32 x) = toInt32 x.
Proof.
  apply Z.bits_inj'. intros i Hi.
  rewrite !toInt32_testbit by lia.
  f_equal. lia.
Qed.

Lemma toInt32_mod (x : Z) : toInt32 (x mod 2 ^ 32) = toInt32 x.
Proof. unfold toInt32. pow_consts. Z.div_mod_to_equations. lia. Qed.

Lemma lor_shifted (h l k : Z) :
  0 <= k -> 0 <= l < 2 ^ k -> Z.lor (h * 2 ^ k) l = h * 2 ^ k + l.
Proof.
  intros Hk Hl.
  assert (Hland : Z.land (h * 2 ^ k) l = 0).
  { apply Z.bits_inj'. intros i Hi. rewrite Z.land_spec, Z.bits_0.
    destruct (Z_lt_le_dec i k) as [Hlt | Hge].
    - rewrite Z.mul_pow2_bits_low by exact Hlt. reflexivity.
    - destruct (Z.eq_dec l 0) as [-> | Hne].
      + rewrite Z.bits_0. apply andb_false_r.
      + rewrite (Z.bits_above_log2 l i); [apply andb_false_r | lia |].
        assert (Z.log2 l < k) by (apply Z.log2_lt_pow2; lia). lia. }
  rewrite <- (Z.lxor_lor _ _ Hland). symmetry.
  apply Z.add_nocarry_lxor. exact Hland.
Qed.

Local Close Scope Z_scope.

(** *** The built-ins on decimal text *)

Lemma decimalChecks_all : forallb decimalChecks (seq 0 256) = true.
Proof. vm_compute. reflexivity. Qed.

Lemma decimalChecks_octet (k : nat) : k <= 255 -> decimalChecks k = true.
Proof.
  intros Hk. pose proof decimalChecks_all as H.
  rewrite forallb_forall in H. apply H. apply in_seq. lia.
Qed.

Lemma mask_all :
  forallb (fun n => ((if (Z.of_nat n =? 0)%Z then 0%Z
                      else toUint32 (shl32 0xFFFFFFFF (32 - Z.of_nat n)))
                     =? maskOf n)%Z) (seq 0 33) = true.
Proof. vm_compute. reflexivity. Qed.

Lemma split_no_sep (sep : N) (s : jsstring) :
  includes sep s = false -> split sep s = [s].
Proof.
  induction s as [|c s IH]; intros H; [reflexivity|].
  cbn [includes existsb] in H. apply orb_false_iff in H as [Hc Hs].
  cbn [split]. rewrite N.eqb_sym, Hc. rewrite (IH Hs). reflexivity.
Qed.

Lemma split_app_sep (sep : N) (s rest : jsstring) :
  includes sep s = false ->
  split sep (s ++ sep :: rest) = s :: split sep rest.
Proof.
  induction s as [|c s IH]; intros H.
  - cbn [app split]. rewrite N.eqb_refl. reflexivity.
  - cbn [includes existsb] in H. apply orb_false_iff in H as [Hc Hs].
    cbn [app split]. rewrite N.eqb_sym, Hc. rewrite (IH Hs). reflexivity.
Qed.

Lemma includes_app (c : N) (s t : jsstring) :
  includes c (s ++ t) = includes c s || includes c t.
Proof. apply existsb_app. Qed.

Lemma decimal_facts (k : nat) :
  k <= 255 ->
  ltZero (Number (decimal k)) = false
  /\ gt255 (Number (decimal k)) = false
  /\ truncate (Number (decimal k)) = Z.of_nat k
  /\ parseInt10 (decimal k) = Some (Z.of_nat k)
  /\ includes 0x2E (decimal k) = false
  /\ includes 0x2F (decimal k) = false
  /\ includes 0x2C (decimal k) = false
  /\ (exists c t, decimal k = c :: t /\ isWhiteSpace c = false)
  /\ (exists c t, rev (decimal k) = c :: t /\ isWhiteSpace c = false).
Proof.
  intros Hk. pose proof (decimalChecks_octet k Hk) as H.
  unfold decimalChecks in H. cbv zeta in H.
  repeat (apply andb_true_iff in H as [H ?]).
  repeat match goal with
         | H : negb _ = true |- _ => apply negb_true_iff in H
         end.
  repeat split; try assumption.
  - apply Z.eqb_eq. assumption.
  - eapply bool_decide_eq_true_1. eassumption.
  - destruct (decimal k) as [|c t]; [discriminate|].
    exists c, t. split; [reflexivity|]. apply negb_true_iff. assumption.
  - destruct (rev (decimal k)) as [|c t]; [discriminate|].
    exists c, t. split; [reflexivity|]. apply negb_true_iff. assumption.
Qed.

Lemma toInt32_lor_l (u v : Z) :
  toInt32 (Z.lor (toInt32 u) v) = toInt32 (Z.lor u v).
Proof. rewrite toInt32_lor, toInt32_idem, <- toInt32_lor. reflexivity. Qed.

Lemma combine_octets (a b c d : Z) :
  (0 <= a < 256 -> 0 <= b < 256 -> 0 <= c < 256 -> 0 <= d < 256 ->
   or32 (or32 (or32 (shl32 a 24) (shl32 b 16)) (shl32 c 8)) d
   = toInt32 (a * 2 ^ 24 + b * 2 ^ 16 + c * 2 ^ 8 + d))%Z.
Proof.
  intros Ha Hb Hc Hd.
  assert (Hsmall : forall x, (0 <= x < 256)%Z -> toInt32 x = x).
  { intros x Hx. unfold toInt32. pow_consts. rewrite Z.mod_small by lia. lia. }
  unfold or32, shl32.
  rewrite (Hsmall a Ha), (Hsmall b Hb), (Hsmall c Hc).
  change (24 mod 32)%Z with 24%Z. change (16 mod 32)%Z with 16%Z.
  change (8 mod 32)%Z with 8%Z.
  rewrite !toInt32_idem.
  rewrite <- (toInt32_lor (a * 2 ^ 24) (b * 2 ^ 16)), toInt32_idem.
  rewrite <- (toInt32_lor (Z.lor (a * 2 ^ 24) (b * 2 ^ 16)) (c * 2 ^ 8)),
    toInt32_idem.
  rewrite <- toInt32_lor.
  f_equal.
  rewrite (lor_shifted a (b * 2 ^ 16) 24) by lia.
  replace (a * 2 ^ 24 + b * 2 ^ 16)%Z with ((a * 2 ^ 8 + b) * 2 ^ 16)%Z by lia.
  rewrite (lor_shifted _ (c * 2 ^ 8) 16) by lia.
  replace ((a * 2 ^ 8 + b) * 2 ^ 16 + c * 2 ^ 8)%Z
    with ((a * 2 ^ 16 + b * 2 ^ 8 + c) * 2 ^ 8)%Z by lia.
  rewrite (lor_shifted _ d 8) by lia.
  lia.
Qed.

Lemma split_dotted (a b c d : nat) :
  a <= 255 -> b <= 255 -> c <= 255 -> d <= 255 ->
  split 0x2E (dotted a b c d) = [decimal a; decimal b; decimal c; decimal d].
Proof.
  intros Ha Hb Hc Hd. unfold dotted.
  destruct (decimal_facts a Ha) as (_ & _ & _ & _ & Hdot_a & _).
  destruct (decimal_facts b Hb) as (_ & _ & _ & _ & Hdot_b & _).
  destruct (decimal_facts c Hc) as (_ & _ & _ & _ & Hdot_c & _).
  destruct (decimal_facts d Hd) as (_ & _ & _ & _ & Hdot_d & _).
  rewrite (split_app_sep _ _ _ Hdot_a), (split_app_sep _ _ _ Hdot_b),
    (split_app_sep _ _ _ Hdot_c), (split_no_sep _ _ Hdot_d).
  reflexivity.
Qed.

Lemma ipToInt_dotted (a b c d : nat) :
  a <= 255 -> b <= 255 -> c <= 255 -> d <= 255 ->
  ipToInt (dotted a b c d) = Some (toInt32 (address a b c d)).
Proof.
  intros Ha Hb Hc Hd. unfold ipToInt.
  rewrite (split_dotted a b c d Ha Hb Hc Hd).
  destruct (decimal_facts a Ha) as (La & Ga & Ta & _).
  destruct (decimal_facts b Hb) as (Lb & Gb & Tb & _).
  destruct (decimal_facts c Hc) as (Lc & Gc & Tc & _).
  destruct (decimal_facts d Hd) as (Ld & Gd & Td & _).
  cbn [map length Nat.eqb negb orb existsb].
  rewrite La, Ga, Lb, Gb, Lc, Gc, Ld, Gd. cbn [orb].
  rewrite Ta, Tb, Tc, Td. f_equal.
  apply combine_octets; lia.
Qed.

(** *** [parseCIDR] on [a.b.c.d/n] *)

Lemma includes_dotted (sep : N) (a b c d : nat) :
  sep <> 0x2E%N ->
  includes sep (decimal a) = false -> includes sep (decimal b) = false ->
  includes sep (decimal c) = false -> includes sep (decimal d) = false ->
  includes sep (dotted a b c d) = false.
Proof.
  intros Hsep Ha Hb Hc Hd. unfold dotted, includes in *.
  repeat (rewrite existsb_app || cbn [existsb]).
  rewrite Ha, Hb, Hc, Hd.
  replace (sep =? 46)%N with false by (symmetry; apply N.eqb_neq; exact Hsep).
  reflexivity.
Qed.

Lemma mask_prefix (n : nat) :
  n <= 32 ->
  (if (Z.of_nat n =? 0)%Z then 0%Z
   else toUint32 (shl32 0xFFFFFFFF (32 - Z.of_nat n))) = maskOf n.
Proof.
  intros Hn. pose proof mask_all as H. rewrite forallb_forall in H.
  apply Z.eqb_eq. apply (H n). apply in_seq. lia.
Qed.

Lemma parseCIDR_cidrText (a b c d n : nat) :
  a <= 255 -> b <= 255 -> c <= 255 -> d <= 255 -> n <= 32 ->
  parseCIDR (cidrText a b c d n)
  = Some {| network := toInt32 (Z.land (address a b c d) (maskOf n));
            mask := maskOf n |}.
Proof.
  intros Ha Hb Hc Hd Hn. unfold parseCIDR, cidrText.
  assert (Hn' : n <= 255) by lia.
  destruct (decimal_facts a Ha) as (_ & _ & _ & _ & _ & Sa & _).
  destruct (decimal_facts b Hb) as (_ & _ & _ & _ & _ & Sb & _).
  destruct (decimal_facts c Hc) as (_ & _ & _ & _ & _ & Sc & _).
  destruct (decimal_facts d Hd) as (_ & _ & _ & _ & _ & Sd & _).
  destruct (decimal_facts n Hn') as (_ & _ & _ & Pn & _ & Sn & _).
  rewrite (split_app_sep 0x2F (dotted a b c d) (decimal n))
    by (apply includes_dotted; [discriminate | assumption..]).
  rewrite (split_no_sep _ _ Sn), Pn.
  replace ((Z.of_nat n <? 0)%Z || (32 <? Z.of_nat n)%Z) with false
    by (symmetry; apply orb_false_iff; split;
        [apply Z.ltb_ge | apply Z.ltb_ge]; lia).
  rewrite (ipToInt_dotted a b c d Ha Hb Hc Hd).
  rewrite (mask_prefix n Hn).
  unfold and32. rewrite toInt32_idem, <- toInt32_land. reflexivity.
Qed.

Lemma octetOf_bound (i w : Z) : octetOf i w <= 255.
Proof.
  unfold octetOf.
  pose proof (Z.mod_pos_bound (w / 2 ^ (8 * i)) 256 ltac:(lia)). lia.
Qed.

Lemma address_octets (w : Z) :
  address (octetOf 3 w) (octetOf 2 w) (octetOf 1 w) (octetOf 0 w)
  = (w mod 2 ^ 32)%Z.
Proof.
  unfold address, octetOf.
  rewrite !Z2Nat.id by (apply Z.mod_pos_bound; lia).
  change (8 * 3)%Z with 24%Z. change (8 * 2)%Z with 16%Z.
  change (8 * 1)%Z with 8%Z. change (8 * 0)%Z with 0%Z.
  change (2 ^ 24)%Z with 16777216%Z. change (2 ^ 16)%Z with 65536%Z.
  change (2 ^ 8)%Z with 256%Z. change (2 ^ 0)%Z with 1%Z.
  change (2 ^ 32)%Z with 4294967296%Z.
  Z.div_mod_to_equations. lia.
Qed.

Lemma parseCIDR_canonicalText (a b c d n : nat) :
  a <= 255 -> b <= 255 -> c <= 255 -> d <= 255 -> n <= 32 ->
  parseCIDR (canonicalText a b c d n) = parseCIDR (cidrText a b c d n).
Proof.
  intros Ha Hb Hc Hd Hn. unfold canonicalText. cbv zeta.
  rewrite !parseCIDR_cidrText by (assumption || apply octetOf_bound).
  rewrite address_octets. f_equal. f_equal.
  rewrite toInt32_land, toInt32_mod, <- toInt32_land.
  rewrite <- Z.land_assoc, Z.land_diag. reflexivity.
Qed.

(** *** Rule sets that differ in the text of a rule *)

Lemma sameRule_refl (r : Rule) : sameRule r r.
Proof. destruct r; reflexivity. Qed.

Lemma existsb_sameRule (f : Rule -> bool) (rules1 rules2 : list Rule) :
  (forall r1 r2, sameRule r1 r2 -> f r1 = f r2) ->
  Forall2 sameRule rules1 rules2 ->
  existsb f rules1 = existsb f rules2.
Proof.
  intros Hf H. induction H as [|r1 r2 l1 l2 Hr _ IH]; [reflexivity|].
  cbn [existsb]. rewrite IH, (Hf r1 r2 Hr). reflexivity.
Qed.

Lemma isUniversal_sameRule (r1 r2 : Rule) :
  sameRule r1 r2 -> isUniversal r1 = isUniversal r2.
Proof.
  destruct r1, r2; cbn [sameRule]; intros H;
    try contradiction; subst; reflexivity.
Qed.

Lemma ruleMatches_sameRule (ipInt : Z) (r1 r2 : Rule) :
  sameRule r1 r2 -> ruleMatches ipInt r1 = ruleMatches ipInt r2.
Proof.
  destruct r1, r2; cbn [sameRule]; intros H;
    try contradiction; subst; reflexivity.
Qed.

Lemma isAllowed_sameRule (rules1 rules2 : list Rule) (ip : jsstring) :
  Forall2 sameRule rules1 rules2 ->
  isAllowed rules1 ip = isAllowed rules2 ip.
Proof.
  intros H. unfold isAllowed.
  rewrite (Forall2_length _ _ _ H).
  rewrite (existsb_sameRule isUniversal rules1 rules2 isUniversal_sameRule H).
  destruct (ipToInt ip) as [ipInt|]; [|reflexivity].
  rewrite (existsb_sameRule (ruleMatches ipInt) rules1 rules2
             (ruleMatches_sameRule ipInt) H).
  reflexivity.
Qed.

Lemma includes_slash_cidrText (a b c d n : nat) :
  includes 0x2F (cidrText a b c d n) = true.
Proof.
  unfold cidrText, includes. rewrite existsb_app. cbn [existsb].
  rewrite N.eqb_refl. cbn [orb]. apply orb_true_r.
Qed.

Lemma parseEntry_cidrText (a b c d n : nat) :
  a <= 255 -> b <= 255 -> c <= 255 -> d <= 255 -> n <= 32 ->
  parseEntry (cidrText a b c d n)
  = Some (CidrRule {| network := toInt32 (Z.land (address a b c d) (maskOf n));
                      mask := maskOf n |}
                   (cidrText a b c d n)).
Proof.
  intros Ha Hb Hc Hd Hn. unfold parseEntry.
  rewrite includes_slash_cidrText, parseCIDR_cidrText by assumption.
  reflexivity.
Qed.

Lemma trim_cidrText (a b c d n : nat) :
  a <= 255 -> n <= 255 -> trim (cidrText a b c d n) = cidrText a b c d n.
Proof.
  intros Ha Hn.
  destruct (decimal_facts a Ha) as (_ & _ & _ & _ & _ & _ & _ & Hfirst & _).
  destruct (decimal_facts n Hn) as (_ & _ & _ & _ & _ & _ & _ & _ & Hlast).
  destruct Hfirst as (x & t & Hx & Hwx). destruct Hlast as (y & u & Hy & Hwy).
  unfold trim.
  assert (H1 : trimStart (cidrText a b c d n) = cidrText a b c d n).
  { unfold cidrText, dotted. rewrite Hx. cbn [app trimStart].
    rewrite Hwx. reflexivity. }
  rewrite H1.
  assert (H2 : trimStart (rev (cidrText a b c d n))
               = rev (cidrText a b c d n)).
  { unfold cidrText. rewrite rev_app_distr. cbn [rev].
    rewrite Hy. cbn [app trimStart]. rewrite Hwy.
    reflexivity. }
  rewrite H2. apply rev_involutive.
Qed.

Lemma ipList_cidrText (a b c d n : nat) :
  a <= 255 -> b <= 255 -> c <= 255 -> d <= 255 -> n <= 255 ->
  ipList (IPString (cidrText a b c d n)) = [cidrText a b c d n].
Proof.
  intros Ha Hb Hc Hd Hn. unfold ipList.
  destruct (decimal_facts a Ha) as (_ & _ & _ & _ & _ & _ & Ca & Hfirst & _).
  destruct (decimal_facts b Hb) as (_ & _ & _ & _ & _ & _ & Cb & _).
  destruct (decimal_facts c Hc) as (_ & _ & _ & _ & _ & _ & Cc & _).
  destruct (decimal_facts d Hd) as (_ & _ & _ & _ & _ & _ & Cd & _).
  destruct (decimal_facts n Hn) as (_ & _ & _ & _ & _ & _ & Cn & _).
  rewrite split_no_sep.
  - cbn [map]. rewrite trim_cidrText by assumption.
    destruct Hfirst as (x & t & Hx & _).
    unfold cidrText, dotted. rewrite Hx. reflexivity.
  - unfold cidrText. rewrite includes_app. cbn [includes existsb].
    fold (includes 0x2C (decimal n)). rewrite Cn.
    rewrite includes_dotted by (discriminate || assumption).
    reflexivity.
Qed.

Lemma Forall2_sameRule_refl (rules : list Rule) : Forall2 sameRule rules rules.
Proof.
  induction rules as [|r rules IH]; constructor;
    [apply sameRule_refl | exact IH].
Qed.

Lemma canonical_sameRule (a b c d n : nat) :
  a <= 255 -> b <= 255 -> c <= 255 -> d <= 255 -> n <= 32 ->
  exists cidr,
    parseEntry (cidrText a b c d n) = Some (CidrRule cidr (cidrText a b c d n))
    /\ parseEntry (canonicalText a b c d n)
       = Some (CidrRule cidr (canonicalText a b c d n)).
Proof.
  intros Ha Hb Hc Hd Hn.
  pose proof (parseCIDR_canonicalText a b c d n Ha Hb Hc Hd Hn) as Hcanon.
  pose proof (parseCIDR_cidrText a b c d n Ha Hb Hc Hd Hn) as Hparse.
  eexists. split.
  - unfold parseEntry. rewrite includes_slash_cidrText, Hparse. reflexivity.
  - unfold parseEntry, canonicalText in *. cbv zeta in *.
    rewrite includes_slash_cidrText, Hcanon, Hparse. reflexivity.
Qed.

(** C9.  For all octets [a.b.c.d] and every prefix length [n] from 0 to
    32, the entry [a.b.c.d/n] and the entry [(a.b.c.d & mask_n)/n] parse to
    the same network and mask, and a rule set holding the one accepts
    exactly the addresses that the rule set holding the other accepts,
    whether the entry is the whole [ALLOWED_IPS] string or one element of
    an array of entries. *)
Theorem C9_cidr_canonicalization (a b c d n : nat)
    (before after : list jsstring) (ip : jsstring) :
  a <= 255 -> b <= 255 -> c <= 255 -> d <= 255 -> n <= 32 ->
  parseCIDR (canonicalText a b c d n) = parseCIDR (cidrText a b c d n)
  /\ isAllowed (setAllowedIPs (IPString (cidrText a b c d n))) ip
     = isAllowed (setAllowedIPs (IPString (canonicalText a b c d n))) ip
  /\ isAllowed
       (setAllowedIPs (IPArray (before ++ cidrText a b c d n :: after))) ip
     = isAllowed
         (setAllowedIPs (IPArray (before ++ canonicalText a b c d n :: after)))
         ip.
Proof.
  intros Ha Hb Hc Hd Hn.
  destruct (canonical_sameRule a b c d n Ha Hb Hc Hd Hn)
    as (cidr & Hentry & Hcanon).
  split; [apply parseCIDR_canonicalText; assumption|].
  split.
  - unfold setAllowedIPs, canonicalText. cbv zeta.
    rewrite !ipList_cidrText by (assumption || apply octetOf_bound || lia).
    cbn [flat_map]. fold (canonicalText a b c d n).
    rewrite Hentry, Hcanon. apply isAllowed_sameRule.
    constructor; [reflexivity | constructor].
  - unfold setAllowedIPs. cbn [ipList].
    rewrite !flat_map_app. cbn [flat_map].
    rewrite Hentry, Hcanon. apply isAllowed_sameRule.
    apply Forall2_app; [apply Forall2_sameRule_refl|].
    cbn [app]. constructor; [reflexivity | apply Forall2_sameRule_refl].
Qed.

Lemma C9_cidr_canonicalization_witness :
  canonicalText 192 168 77 200 20 = js "192.168.64.0/20"
  /\ parseCIDR (js "192.168.64.0/20") = parseCIDR (js "192.168.77.200/20")
  /\ isAllowed (setAllowedIPs (IPString (js "192.168.77.200/20")))
       (js "192.168.70.1")
     = isAllowed (setAllowedIPs (IPString (js "192.168.64.0/20")))
         (js "192.168.70.1")
  /\ isAllowed (setAllowedIPs (IPArray [js "10.0.0.1"; js "192.168.77.200/20"]))
       (js "192.168.70.1")
     = isAllowed (setAllowedIPs (IPArray [js "10.0.0.1"; js "192.168.64.0/20"]))
         (js "192.168.70.1").
Proof.
  split; [reflexivity|].
  apply (C9_cidr_canonicalization 192 168 77 200 20 [js "10.0.0.1"] []
           (js "192.168.70.1")); lia.
Defined.

(** ** C6: address strings that are no dotted quad *)

Lemma length_split (sep : N) (s : jsstring) :
  length (split sep s) = S (length (List.filter (N.eqb sep) s)).
Proof.
  induction s as [|c s IH]; [reflexivity|].
  cbn [split List.filter]. rewrite (N.eqb_sym sep c).
  destruct (c =? sep)%N.
  - cbn [length]. rewrite IH. reflexivity.
  - destruct (split sep s) as [|h t] eqn:E; cbn [length] in *; lia.
Qed.

Lemma ipToInt_needs_three_dots (ip : jsstring) :
  length (List.filter (N.eqb 0x2E) ip) <> 3 -> ipToInt ip = None.
Proof.
  intros H. unfold ipToInt.
  rewrite length_map, length_split.
  replace (S (length (List.filter (N.eqb 46) ip)) =? 4) with false
    by (symmetry; apply Nat.eqb_neq; lia).
  reflexivity.
Qed.

(** ** Decimal numerals of any size *)

(** The digits of a numeral, read by [takeDigits] as the number it
    writes. *)
Lemma takeDigits_uint (u : Decimal.uint) :
  exists ds,
    takeDigits 10 (js (NilEmpty.string_of_uint u)) = (ds, [])
    /\ length ds = length (js (NilEmpty.string_of_uint u))
    /\ Forall (fun c => (0x30 <= c <= 0x39)%N)
              (js (NilEmpty.string_of_uint u))
    /\ forall acc : nat,
         fold_left (fun a d => (a * Z.of_N 10 + Z.of_N d)%Z) ds (Z.of_nat acc)
         = Z.of_nat (Nat.of_uint_acc u acc).
Proof.
  induction u as [|u IH|u IH|u IH|u IH|u IH|u IH|u IH|u IH|u IH|u IH];
    [exists []; split; [reflexivity|]; split; [reflexivity|];
     split; [apply List.Forall_nil|]; intros acc; reflexivity |..];
    destruct IH as (ds & Htake & Hlen & Hdigits & Hval);
    match goal with
    | |- context [NilEmpty.string_of_uint (?D u)] =>
      change (js (NilEmpty.string_of_uint (D u)))
        with (hd 0%N (js (NilEmpty.string_of_uint (D Decimal.Nil)))
              :: js (NilEmpty.string_of_uint u))
    end;
    match goal with
    | |- context [hd 0%N ?l] =>
      let c := eval vm_compute in (hd 0%N l) in
      change (hd 0%N l) with c
    end;
    (eexists; split;
     [cbn [takeDigits]; rewrite Htake;
      match goal with
      | |- context [digitValue 10 ?c] =>
        let v := eval vm_compute in (digitValue 10 c) in
        change (digitValue 10 c) with v
      end; reflexivity|];
     split; [cbn [length]; rewrite Hlen; reflexivity|];
     split; [apply List.Forall_cons; [lia | exact Hdigits]|];
     intros acc; cbn [fold_left Nat.of_uint_acc];
     rewrite <- Hval; f_equal;
     rewrite ?Nat2Z.inj_succ, PeanoNat.Nat.tail_mul_spec, Nat2Z.inj_mul;
     change (Z.of_nat 10) with 10%Z; change (Z.of_N 10) with 10%Z;
     lia).
Qed.

Lemma takeDigits_decimal (k : nat) :
  exists ds,
    takeDigits 10 (decimal k) = (ds, [])
    /\ digitsValue 10 ds = Z.of_nat k
    /\ Forall (fun c => (0x30 <= c <= 0x39)%N) (decimal k).
Proof.
  destruct (takeDigits_uint (Nat.to_uint k)) as (ds & Htake & _ & Hd & Hval).
  exists ds. split; [exact Htake|]. split; [|exact Hd].
  unfold digitsValue. change 0%Z with (Z.of_nat 0). rewrite (Hval 0).
  change (Nat.of_uint_acc (Nat.to_uint k) 0) with (Nat.of_uint (Nat.to_uint k)).
  rewrite DecimalNat.Unsigned.of_to. reflexivity.
Qed.

Lemma digit_not_white (c : N) :
  (0x30 <= c <= 0x39)%N -> isWhiteSpace c = false.
Proof.
  intros Hc.
  assert (H : (c = 48 \/ c = 49 \/ c = 50 \/ c = 51 \/ c = 52 \/ c = 53
               \/ c = 54 \/ c = 55 \/ c = 56 \/ c = 57)%N) by lia.
  repeat (destruct H as [-> | H]; [reflexivity|]). subst c. reflexivity.
Qed.

Lemma digits_no (sep : N) (s : jsstring) :
  (sep < 0x30 \/ 0x39 < sep)%N ->
  Forall (fun c => (0x30 <= c <= 0x39)%N) s -> includes sep s = false.
Proof.
  intros Hsep Hs. unfold includes. induction Hs as [|c s Hc _ IH].
  - reflexivity.
  - cbn [existsb]. rewrite IH, orb_false_r. apply N.eqb_neq. lia.
Qed.

Lemma trim_digits (s : jsstring) :
  Forall (fun c => (0x30 <= c <= 0x39)%N) s -> trim s = s.
Proof.
  intros Hs. unfold trim.
  assert (Hstart : forall t, Forall (fun c => (0x30 <= c <= 0x39)%N) t ->
                             trimStart t = t).
  { intros t Ht. destruct Ht as [|c t Hc _]; [reflexivity|].
    cbn [trimStart]. rewrite (digit_not_white c Hc). reflexivity. }
  rewrite (Hstart s Hs).
  rewrite (Hstart (rev s)) by (apply Forall_rev; exact Hs).
  apply rev_involutive.
Qed.

Lemma decimalLiteral_digits (neg : bool) (s ds : jsstring) :
  takeDigits 10 s = (ds, []) ->
  ds <> [] ->
  decimalLiteral neg s = roundBinary64 neg (digitsValue 10 ds) 1.
Proof.
  intros Htake Hds. unfold decimalLiteral. rewrite Htake.
  rewrite app_nil_r. cbn [exponentPart length].
  destruct ds as [|d ds']; [contradiction|].
  change (0 - Z.of_nat 0)%Z with 0%Z. cbn [Z.leb Z.compare].
  change (10 ^ 0)%Z with 1%Z. rewrite Z.mul_1_r. reflexivity.
Qed.

Lemma Number_digits (s ds : jsstring) :
  Forall (fun c => (0x30 <= c <= 0x39)%N) s ->
  takeDigits 10 s = (ds, []) ->
  ds <> [] ->
  Number s = roundBinary64 false (digitsValue 10 ds) 1.
Proof.
  intros Hs Htake Hds. unfold Number. rewrite (trim_digits s Hs).
  rewrite <- (decimalLiteral_digits false s ds Htake Hds).
  destruct Hs as [|c s Hc Hs].
  - cbn in Htake. injection Htake as <-. contradiction.
  - assert (H : (c = 48 \/ c = 49 \/ c = 50 \/ c = 51 \/ c = 52 \/ c = 53
                 \/ c = 54 \/ c = 55 \/ c = 56 \/ c = 57)%N) by lia.
    assert (Hinf : forall c' t, (0x30 <= c' <= 0x39)%N ->
                     bool_decide (c' :: t = js "Infinity") = false).
    { intros c' t Hc'. apply bool_decide_eq_false_2.
      change (js "Infinity") with (0x49%N :: js "nfinity").
      intros [= Heq _]. lia. }
    destruct H as [-> | H].
    + destruct Hs as [|c2 s Hc2 Hs].
      * cbv beta iota zeta delta [takeSign]. rewrite Hinf by lia. reflexivity.
      * cbv beta iota zeta.
        replace ((c2 =? 120)%N || (c2 =? 88)%N) with false
          by (symmetry; apply orb_false_intro; apply N.eqb_neq; lia).
        replace ((c2 =? 111)%N || (c2 =? 79)%N) with false
          by (symmetry; apply orb_false_intro; apply N.eqb_neq; lia).
        replace ((c2 =? 98)%N || (c2 =? 66)%N) with false
          by (symmetry; apply orb_false_intro; apply N.eqb_neq; lia).
        reflexivity.
    + repeat (destruct H as [-> | H];
              [cbv beta iota zeta delta [takeSign];
               rewrite Hinf by lia; reflexivity|]).
      subst c. cbv beta iota zeta delta [takeSign].
      rewrite Hinf by lia. reflexivity.
Qed.

(** A number of 256 or more is read as a double above 255. *)
Lemma gt255_roundBinary64 (n : Z) :
  (256 <= n)%Z -> gt255 (roundBinary64 false n 1) = true.
Proof.
  intros Hn. unfold roundBinary64.
  replace (n =? 0)%Z with false by (symmetry; apply Z.eqb_neq; lia).
  change (Z.log2 1) with 0%Z. rewrite Z.sub_0_r.
  destruct (Z.log2_spec n ltac:(lia)) as [Hlo _].
  assert (HL : (8 <= Z.log2 n)%Z) by (apply Z.log2_le_pow2; lia).
  set (L := Z.log2 n) in *.
  rewrite Z.max_r by lia.
  cbv beta zeta.
  destruct (Z.leb_spec 0 (L - 52)) as [Hex | Hex].
  - assert (Hpow : (0 < 2 ^ (L - 52))%Z) by (apply Z.pow_pos_nonneg; lia).
    assert (Hsplit : (2 ^ L = 2 ^ 52 * 2 ^ (L - 52))%Z)
      by (rewrite <- Z.pow_add_r by lia; f_equal; lia).
    rewrite Z.mul_1_l.
    assert (Hfl : (2 ^ 52 <= n / 2 ^ (L - 52))%Z)
      by (apply Z.div_le_lower_bound; lia).
    replace (n / 2 ^ (L - 52) <? 2 ^ 52)%Z with false
      by (symmetry; apply Z.ltb_ge; exact Hfl).
    cbn [andb].
    replace (0 <=? L - 52)%Z with true by (symmetry; apply Z.leb_le; lia).
    cbv beta iota. rewrite Z.mul_1_l. cbn [andb].
    set (fl := (n / 2 ^ (L - 52))%Z) in *.
    set (m := if _ : bool then (fl + 1)%Z else fl).
    assert (Hm : (2 ^ 52 <= m)%Z) by (subst m; destruct (_ || _); lia).
    clearbody m.
    destruct (2 ^ 1024 <=? m * 2 ^ (L - 52))%Z; [reflexivity|].
    unfold gt255. cbn [negb andb].
    replace (0 <=? L - 52)%Z with true by (symmetry; apply Z.leb_le; lia).
    rewrite Z2N.id by lia. apply Z.ltb_lt.
    change (2 ^ 52)%Z with 4503599627370496%Z in Hm. nia.
  - assert (Hpow : (0 < 2 ^ (52 - L))%Z) by (apply Z.pow_pos_nonneg; lia).
    replace (- (L - 52))%Z with (52 - L)%Z by lia.
    rewrite Z.div_1_r.
    assert (Hsplit : (2 ^ 52 = 2 ^ L * 2 ^ (52 - L))%Z)
      by (rewrite <- Z.pow_add_r by lia; f_equal; lia).
    assert (Hfl : (2 ^ 52 <= n * 2 ^ (52 - L))%Z) by (rewrite Hsplit; nia).
    replace (n * 2 ^ (52 - L) <? 2 ^ 52)%Z with false
      by (symmetry; apply Z.ltb_ge; exact Hfl).
    cbn [andb].
    replace (0 <=? L - 52)%Z with false by (symmetry; apply Z.leb_gt; lia).
    cbv beta iota. cbn [andb].
    replace (- (L - 52))%Z with (52 - L)%Z by lia.
    rewrite Z.div_1_r, Z.mod_1_r.
    cbn [Z.mul Z.ltb Z.eqb Z.compare orb andb].
    unfold gt255. cbn [negb andb].
    replace (0 <=? L - 52)%Z with false by (symmetry; apply Z.leb_gt; lia).
    replace (- (L - 52))%Z with (52 - L)%Z by lia.
    change (2 * 0)%Z with 0%Z. cbn [Z.ltb Z.compare orb andb].
    rewrite Z2N.id by nia. apply Z.ltb_lt. nia.
Qed.

Lemma gt255_decimal (k : nat) :
  255 < k -> gt255 (Number (decimal k)) = true.
Proof.
  intros Hk.
  destruct (takeDigits_decimal k) as (ds & Htake & Hval & Hdigits).
  rewrite (Number_digits (decimal k) ds Hdigits Htake).
  - rewrite Hval. apply gt255_roundBinary64. lia.
  - intros ->. cbn in Hval. lia.
Qed.

(** The parts of a dotted quad of decimal numbers of any size. *)
Lemma split_dotted_any (a b c d : nat) :
  split 0x2E (dotted a b c d) = [decimal a; decimal b; decimal c; decimal d].
Proof.
  assert (Hdot : forall k, includes 0x2E (decimal k) = false).
  { intros k. destruct (takeDigits_decimal k) as (_ & _ & _ & Hdigits).
    apply digits_no; [lia | exact Hdigits]. }
  unfold dotted.
  rewrite !split_app_sep by apply Hdot.
  rewrite split_no_sep by apply Hdot. reflexivity.
Qed.

Lemma ipToInt_octet_above_255 (ip : jsstring) :
  octetAbove255 ip -> ipToInt ip = None.
Proof.
  intros (a & b & c & d & -> & Hbig). unfold ipToInt.
  rewrite split_dotted_any. cbn [map length Nat.eqb negb orb existsb].
  replace (_ || _) with true; [reflexivity|]. symmetry.
  destruct Hbig as [H | [H | [H | H]]];
    rewrite (gt255_decimal _ H), ?orb_true_r; reflexivity.
Qed.

Lemma ipToInt_malformed (ip : jsstring) :
  malformedAddress ip -> ipToInt ip = None.
Proof.
  intros [H | H];
    [apply ipToInt_needs_three_dots | apply ipToInt_octet_above_255];
    exact H.
Qed.

(** The slip itself, through the filter: under the one rule [0.0.0.0/8]
    the IPv4-mapped address [::ffff:10.2.3.4], which has three dots and is
    read as [0.2.3.4], is accepted. *)
Lemma isAllowed_ipv4_mapped :
  dotCount (js "::ffff:10.2.3.4") = 3
  /\ isAllowed (setAllowedIPs (IPString (js "0.0.0.0/8")))
               (js "::ffff:10.2.3.4") = true.
Proof. vm_compute. split; reflexivity. Qed.

(** C6, as amended.  For an address string that is no dotted quad by its
    shape (not exactly three dots, as every IPv6 address without an
    embedded IPv4 part, or decimal numbers with one above 255):
    [isAllowed] returns false under every rule set that is not empty and
    holds no universal rule (a CIDR rule with network 0 and mask 0).
    Under an empty rule set or one with a universal rule, [isAllowed]
    returns true for every string. *)
Theorem C6_unparseable_denied_by_restrictive_rules (rules : list Rule)
    (ip : jsstring) :
  malformedAddress ip ->
  (rules <> [] -> existsb isUniversal rules = false ->
   isAllowed rules ip = false)
  /\ (rules = [] \/ existsb isUniversal rules = true ->
      forall other, isAllowed rules other = true).
Proof.
  intros Hip. split.
  - intros Hne Huniv. unfold isAllowed.
    destruct rules as [|r rules]; [contradiction|].
    cbn [length Nat.eqb]. rewrite Huniv, (ipToInt_malformed ip Hip).
    reflexivity.
  - intros [-> | Huniv] other; unfold isAllowed; [reflexivity|].
    rewrite Huniv. destruct (length rules =? 0); reflexivity.
Qed.

Lemma C6_unparseable_denied_witness :
  isAllowed (setAllowedIPs (IPString (js "10.0.0.0/8"))) (js "::1") = false
  /\ isAllowed (setAllowedIPs (IPString (js "10.0.0.0/8")))
               (dotted 10 0 0 256) = false
  /\ isAllowed defaultRules (js "::1") = true.
Proof.
  split; [|split].
  - apply (C6_unparseable_denied_by_restrictive_rules
             (setAllowedIPs (IPString (js "10.0.0.0/8"))) (js "::1")).
    + left. vm_compute. lia.
    + vm_compute. discriminate.
    + vm_compute. reflexivity.
  - apply (C6_unparseable_denied_by_restrictive_rules
             (setAllowedIPs (IPString (js "10.0.0.0/8")))
             (dotted 10 0 0 256)).
    + right. exists 10, 0, 0, 256. split; [reflexivity | lia].
    + vm_compute. discriminate.
    + vm_compute. reflexivity.
  - apply (C6_unparseable_denied_by_restrictive_rules defaultRules
             (js "::1")).
    + left. vm_compute. lia.
    + right. vm_compute. reflexivity.
Defined.

(** ** More on the parser *)

Lemma utf8Decode_ascii (l : list N) :
  Forall (fun b => (b <= 0x7F)%N) l -> utf8Decode None l = l.
Proof.
  induction 1 as [|b l Hb _ IH]; [reflexivity|].
  cbn [utf8Decode]. unfold utf8Lead.
  replace (b <=? 0x7F)%N with true by (symmetry; apply N.leb_le; exact Hb).
  cbn [app]. rewrite IH. reflexivity.
Qed.

Lemma codeUnits_nonempty (cp : N) : codeUnits cp <> [].
Proof. unfold codeUnits. destruct (cp <? 0x10000)%N; discriminate. Qed.

Lemma utf8Lead_progress (b : N) :
  (utf8Lead b).1 <> [] \/ is_Some (utf8Lead b).2.
Proof.
  unfold utf8Lead.
  repeat match goal with
         | |- context [if ?c then _ else _] => destruct c
         end; cbn [fst snd]; (left; discriminate) || (right; eexists; reflexivity).
Qed.

Lemma utf8Decode_nonempty (bs : list N) :
  forall st, is_Some st \/ bs <> [] -> utf8Decode st bs <> [].
Proof.
  induction bs as [|b rest IH]; intros st H.
  - destruct H as [[s ->] | H]; [discriminate | contradiction].
  - cbn [utf8Decode]. destruct st as [s|].
    + destruct ((u_lo s <=? b) && (b <=? u_hi s))%N.
      * destruct (u_need s) as [|[|n]].
        -- intros Heq. apply app_eq_nil in Heq as [Heq _].
           exact (codeUnits_nonempty _ Heq).
        -- intros Heq. apply app_eq_nil in Heq as [Heq _].
           exact (codeUnits_nonempty _ Heq).
        -- apply IH. left. eexists. reflexivity.
      * destruct (utf8Lead b). discriminate.
    + destruct (utf8Lead_progress b) as [Hout | Hst];
        destruct (utf8Lead b) as [out st']; cbn [fst snd] in *.
      * intros Heq. apply app_eq_nil in Heq as [Heq _]. contradiction.
      * intros Heq. apply app_eq_nil in Heq as [_ Heq].
        exact (IH st' (or_introl Hst) Heq).
Qed.

(** The probe on the first [k] bytes of a buffer that starts a handshake
    record of [recordLength] bytes. *)
Lemma hasEnoughDataForSNI_take (buffer : list byte) (recordLength k : nat) :
  byteAt buffer 0 = Some 0x16 ->
  readUInt16BE buffer 3 = Some recordLength ->
  k <= length buffer ->
  hasEnoughDataForSNI (take k buffer) = (recordLength + 5 <=? k).
Proof.
  intros H0 H3 Hk. unfold hasEnoughDataForSNI.
  rewrite length_take, Nat.min_l by exact Hk.
  destruct (k <? 5) eqn:Hk5.
  - apply Nat.ltb_lt in Hk5. symmetry. apply Nat.leb_gt. lia.
  - apply Nat.ltb_ge in Hk5.
    assert (Hsame : forall i, i < k -> byteAt (take k buffer) i = byteAt buffer i).
    { intros i Hi. unfold byteAt. rewrite lookup_take_lt by exact Hi. reflexivity. }
    rewrite (Hsame 0) by lia. rewrite (bool_decide_eq_true_2 _ H0). cbn [negb].
    unfold readUInt16BE in *. rewrite (Hsame 3), (Hsame (3 + 1)) by lia.
    destruct (byteAt buffer 3); [|discriminate].
    destruct (byteAt buffer (3 + 1)); [|discriminate].
    injection H3 as <-. reflexivity.
Qed.

Lemma length_encodeClientHello (ch : ClientHello) :
  length (encodeClientHello ch) = 9 + length (helloBody ch).
Proof. unfold encodeClientHello. list_len. Qed.

Lemma readUInt16BE_encodeClientHello (ch : ClientHello) :
  wellFormed ch ->
  readUInt16BE (encodeClientHello ch) 3 = Some (4 + length (helloBody ch)).
Proof.
  intros (_ & _ & _ & _ & _ & Hrec). unfold encodeClientHello.
  apply (readUInt16BE_here [x16; x03; x01]); [reflexivity | exact Hrec].
Qed.

Lemma hasEnoughDataForSNI_prefix (ch : ClientHello) (k : nat) :
  wellFormed ch ->
  k <= length (encodeClientHello ch) ->
  hasEnoughDataForSNI (take k (encodeClientHello ch))
  = bool_decide (k = length (encodeClientHello ch)).
Proof.
  intros Hwf Hk.
  assert (H0 : byteAt (encodeClientHello ch) 0 = Some 0x16) by reflexivity.
  rewrite (hasEnoughDataForSNI_take _ (4 + length (helloBody ch)) k
             H0 (readUInt16BE_encodeClientHello ch Hwf) Hk).
  rewrite length_encodeClientHello in *.
  destruct (decide (k = 9 + length (helloBody ch))) as [-> | Hne].
  - rewrite bool_decide_eq_true_2 by reflexivity. apply Nat.leb_le. lia.
  - rewrite bool_decide_eq_false_2 by exact Hne. apply Nat.leb_gt. lia.
Qed.

Lemma parseSNIExtension_sound (b : list byte) (o : nat) (name : jsstring) :
  parseSNIExtension b o = Some name ->
  exists len,
    byteAt b (o + 2) = Some 0
    /\ readUInt16BE b (o + 3) = Some len
    /\ o + 5 + len <= length b
    /\ name = toStringUtf8 b (o + 5) (o + 5 + len).
Proof.
  unfold parseSNIExtension. intros H.
  destruct (length b <=? o + 4); [discriminate|].
  destruct (readUInt16BE b o) as [listLength|]; [|discriminate].
  destruct (length b <=? o + 2 + 2); [discriminate|].
  destruct (byteAt b (o + 2)) as [t|] eqn:Ht; [|discriminate].
  destruct (readUInt16BE b (o + 2 + 1)) as [len|] eqn:Hlen; [|discriminate].
  destruct (t =? 0) eqn:Ht0; [|discriminate].
  destruct (o + 2 + 3 + len <=? length b) eqn:Hfit; [|discriminate].
  cbn [andb] in H. injection H as <-.
  apply Nat.eqb_eq in Ht0. subst t. apply Nat.leb_le in Hfit.
  exists len. replace (o + 3) with (o + 2 + 1) by lia.
  replace (o + 5) with (o + 2 + 3) by lia.
  repeat split; [exact Hlen | lia].
Qed.

Lemma parseExtensions_sound (b : list byte) (extensionsEnd : nat)
    (name : jsstring) :
  forall fuel off,
    parseExtensions fuel b off extensionsEnd = Some name ->
    exists o,
      off <= o /\ o + 3 < extensionsEnd
      /\ readUInt16BE b o = Some 0
      /\ parseSNIExtension b (o + 4) = Some name.
Proof.
  induction fuel as [|fuel IH]; intros off H; [discriminate|].
  cbn [parseExtensions] in H.
  destruct (off + 3 <? extensionsEnd) eqn:Hend; [|discriminate].
  destruct (off + 3 <? length b); [|discriminate]. cbn [andb] in H.
  destruct (readUInt16BE b off) as [t|] eqn:Ht; [|discriminate].
  destruct (readUInt16BE b (off + 2)) as [l|]; [|discriminate].
  destruct (t =? 0) eqn:Ht0.
  - apply Nat.eqb_eq in Ht0. subst t. apply Nat.ltb_lt in Hend.
    exists off. repeat split; [lia | exact Hend | exact Ht | exact H].
  - destruct (IH _ H) as (o & Ho & Hrest). exists o. split; [lia | exact Hrest].
Qed.

Lemma parseSNI_sound (b : list byte) (name : jsstring) :
  parseSNI b = Some name ->
  byteAt b 0 = Some 0x16
  /\ byteAt b 5 = Some 0x01
  /\ exists o len,
       49 <= o
       /\ readUInt16BE b o = Some 0
       /\ byteAt b (o + 6) = Some 0
       /\ readUInt16BE b (o + 7) = Some len
       /\ o + 9 + len <= length b
       /\ name = toStringUtf8 b (o + 9) (o + 9 + len).
Proof.
  unfold parseSNI. intros H.
  destruct (length b <? 5); [discriminate|].
  destruct (bool_decide (byteAt b 0 = Some 0x16)) eqn:H0; [|discriminate].
  destruct (bool_decide (byteAt b 5 = Some 0x01)) eqn:H5; [|discriminate].
  cbn [negb orb] in H.
  apply bool_decide_eq_true_1 in H0, H5.
  destruct (length b <=? 43); [discriminate|].
  destruct (byteAt b 43) as [sid|]; [|discriminate].
  destruct (length b <=? 43 + (1 + sid) + 1); [discriminate|].
  destruct (readUInt16BE b (43 + (1 + sid))) as [cs|]; [|discriminate].
  destruct (length b <=? 43 + (1 + sid) + (2 + cs)); [discriminate|].
  destruct (byteAt b (43 + (1 + sid) + (2 + cs))) as [cm|]; [|discriminate].
  destruct (length b <=? 43 + (1 + sid) + (2 + cs) + (1 + cm) + 1);
    [discriminate|].
  destruct (readUInt16BE b (43 + (1 + sid) + (2 + cs) + (1 + cm)))
    as [le|]; [|discriminate].
  apply parseExtensions_sound in H as (o & Ho & _ & Htype & Hext).
  apply parseSNIExtension_sound in Hext as (len & Ht & Hlen & Hfit & ->).
  split; [exact H0|]. split; [exact H5|].
  exists o, len.
  replace (o + 6) with (o + 4 + 2) by lia.
  replace (o + 7) with (o + 4 + 3) by lia.
  replace (o + 9) with (o + 4 + 5) by lia.
  repeat split; try assumption; lia.
Qed.

Lemma parseExtensions_no_sni (pre : list (nat * list byte)) :
  forall (front rest : list byte) (fuel off : nat),
    Forall (fun ext => ext.1 <> 0 /\ ext.1 < 256 * 256
                       /\ length ext.2 < 256 * 256) pre ->
    length front = off ->
    parseExtensions fuel (front ++ encodeExtensions pre ++ rest) off
      (off + length (encodeExtensions pre))
    = None.
Proof.
  induction pre as [|[t d] pre IH]; intros front rest fuel off Hpre Hoff.
  - destruct fuel; [reflexivity|]. cbn [parseExtensions encodeExtensions flat_map length].
    replace (off + 3 <? off + 0) with false by (symmetry; apply Nat.ltb_ge; lia).
    reflexivity.
  - destruct fuel; [reflexivity|].
    inversion Hpre as [|? ? [Ht [Ht' Hd]] Hpre']; subst. cbn [fst snd] in *.
    set (b := front ++ encodeExtensions ((t, d) :: pre) ++ rest).
    assert (Hb : b = (front ++ encodeExtension (t, d))
                      ++ encodeExtensions pre ++ rest).
    { subst b. cbn [encodeExtensions flat_map]. rewrite <- !app_assoc.
      reflexivity. }
    assert (Hlen : length (encodeExtensions ((t, d) :: pre))
                   = 4 + length d + length (encodeExtensions pre)).
    { cbn [encodeExtensions flat_map]. rewrite length_app, length_encodeExtension.
      reflexivity. }
    assert (Hlb : length b = length front + (4 + length d
                    + length (encodeExtensions pre)) + length rest).
    { subst b. rewrite !length_app, Hlen. lia. }
    cbn [parseExtensions]. rewrite Hlen.
    replace (length front + 3 <? length front + (4 + length d + length (encodeExtensions pre)))
      with true by (symmetry; apply Nat.ltb_lt; lia).
    replace (length front + 3 <? length b) with true
      by (symmetry; apply Nat.ltb_lt; lia).
    cbn [andb].
    assert (H1 : readUInt16BE b (length front) = Some t).
    { subst b. cbn [encodeExtensions flat_map]. unfold encodeExtension.
      cbn [fst snd]. rewrite <- !app_assoc.
      apply readUInt16BE_here; [reflexivity | exact Ht']. }
    assert (H2 : readUInt16BE b (length front + 2) = Some (length d)).
    { subst b. rewrite (readUInt16BE_skip front _ (length front)) by reflexivity.
      cbn [encodeExtensions flat_map]. unfold encodeExtension.
      cbn [fst snd]. rewrite <- !app_assoc.
      apply readUInt16BE_here; [reflexivity | exact Hd]. }
    rewrite H1, H2.
    replace (t =? 0) with false by (symmetry; apply Nat.eqb_neq; exact Ht).
    rewrite Hb.
    replace (length front + (4 + length d + length (encodeExtensions pre)))
      with (length front + 4 + length d + length (encodeExtensions pre)) by lia.
    apply IH; [exact Hpre'|].
    rewrite length_app, length_encodeExtension. cbn [snd]. lia.
Qed.

Lemma parseSNI_no_server_name (ch : ClientHello) :
  wellFormed ch ->
  Forall (fun ext => ext.1 <> 0) (extensions ch) ->
  parseSNI (encodeClientHello ch) = None.
Proof.
  intros (Hrand & Hsid & Hcs & Hcm & Hexts & Hrec) Hnone.
  pose proof (length_helloBody ch) as Hbody.
  assert (Hle : length (encodeExtensions (extensions ch)) < 256 * 256) by lia.
  assert (HP : length (helloPrefix ch) = 43).
  { unfold helloPrefix. list_len. }
  destruct (parseSNI_layout (helloPrefix ch) (sessionId ch) (cipherSuites ch)
              (compressionMethods ch) (encodeExtensions (extensions ch))
              (length (encodeExtensions (extensions ch)))
              HP eq_refl eq_refl Hsid Hcs Hcm Hle) as [Hlen Hparse].
  rewrite <- encodeClientHello_layout in Hlen, Hparse.
  rewrite Hparse. clear Hparse.
  rewrite encodeClientHello_layout.
  set (front := helloPrefix ch ++ u8 (length (sessionId ch)) :: sessionId ch
                ++ be16 (length (cipherSuites ch)) ++ cipherSuites ch
                ++ u8 (length (compressionMethods ch)) :: compressionMethods ch
                ++ be16 (length (encodeExtensions (extensions ch)))).
  replace (helloPrefix ch ++ u8 (length (sessionId ch)) :: sessionId ch
           ++ be16 (length (cipherSuites ch)) ++ cipherSuites ch
           ++ u8 (length (compressionMethods ch)) :: compressionMethods ch
           ++ be16 (length (encodeExtensions (extensions ch)))
           ++ encodeExtensions (extensions ch))
    with (front ++ encodeExtensions (extensions ch) ++ [])
    by (subst front; rewrite app_nil_r; list_norm).
  apply parseExtensions_no_sni.
  - rewrite Forall_forall in *. intros x Hx.
    specialize (Hnone x Hx). specialize (Hexts x Hx). tauto.
  - subst front. list_len.
Qed.

(** ** More on the address filter *)

Lemma address_range (a b c d : nat) :
  a <= 255 -> b <= 255 -> c <= 255 -> d <= 255 ->
  (0 <= address a b c d < 2 ^ 32)%Z.
Proof.
  intros. unfold address.
  change (2 ^ 24)%Z with 16777216%Z. change (2 ^ 16)%Z with 65536%Z.
  change (2 ^ 8)%Z with 256%Z. change (2 ^ 32)%Z with 4294967296%Z. lia.
Qed.

Lemma address_inj (a b c d a' b' c' d' : nat) :
  a <= 255 -> b <= 255 -> c <= 255 -> d <= 255 ->
  a' <= 255 -> b' <= 255 -> c' <= 255 -> d' <= 255 ->
  address a b c d = address a' b' c' d' ->
  a = a' /\ b = b' /\ c = c' /\ d = d'.
Proof.
  intros. unfold address in *.
  change (2 ^ 24)%Z with 16777216%Z in *. change (2 ^ 16)%Z with 65536%Z in *.
  change (2 ^ 8)%Z with 256%Z in *. lia.
Qed.

Lemma toInt32_inj (x y : Z) :
  (0 <= x < 2 ^ 32)%Z -> (0 <= y < 2 ^ 32)%Z ->
  toInt32 x = toInt32 y -> x = y.
Proof.
  intros Hx Hy H.
  destruct (toInt32_cases x) as [[Hx1 Hx2] | [Hx1 Hx2]];
    destruct (toInt32_cases y) as [[Hy1 Hy2] | [Hy1 Hy2]];
    rewrite Hx2, Hy2 in H;
    rewrite (Z.mod_small x) in * by lia; rewrite (Z.mod_small y) in * by lia;
    change (2 ^ 31)%Z with 2147483648%Z in *;
    change (2 ^ 32)%Z with 4294967296%Z in *; lia.
Qed.

Lemma land_range (x m : Z) :
  (0 <= x < 2 ^ 32)%Z -> (0 <= m)%Z -> (0 <= Z.land x m < 2 ^ 32)%Z.
Proof.
  intros Hx Hm.
  assert (H0 : (0 <= Z.land x m)%Z) by (apply Z.land_nonneg; lia).
  split; [exact H0|].
  destruct (Z.eq_dec (Z.land x m) 0%Z) as [-> | Hne]; [lia|].
  apply Z.log2_lt_pow2; [lia|].
  destruct (Z_lt_le_dec (Z.log2 (Z.land x m)) 32%Z) as [Hlt | Hge]; [exact Hlt|].
  exfalso.
  assert (Hbit : Z.testbit (Z.land x m) (Z.log2 (Z.land x m)) = true)
    by (apply Z.bit_log2; lia).
  rewrite Z.land_spec in Hbit. apply andb_true_iff in Hbit as [Hbit _].
  destruct (Z.eq_dec x 0%Z) as [-> | Hx0].
  - rewrite Z.bits_0 in Hbit. discriminate.
  - rewrite Z.bits_above_log2 in Hbit; [discriminate | lia |].
    assert (Z.log2 x < 32)%Z by (apply Z.log2_lt_pow2; lia). lia.
Qed.

Lemma maskOf_nonneg (n : nat) : n <= 32 -> (0 <= maskOf n)%Z.
Proof.
  intros Hn. unfold maskOf. destruct (n =? 0); [lia|].
  assert (2 ^ (32 - Z.of_nat n) <= 2 ^ 32)%Z
    by (apply Z.pow_le_mono_r; lia).
  lia.
Qed.

Lemma maskOf_pos (n : nat) : 1 <= n <= 32 -> (0 < maskOf n)%Z.
Proof.
  intros Hn. unfold maskOf.
  replace (n =? 0) with false by (symmetry; apply Nat.eqb_neq; lia).
  assert (2 ^ (32 - Z.of_nat n) < 2 ^ 32)%Z
    by (apply Z.pow_lt_mono_r; lia).
  lia.
Qed.

(** The one rule read from [a.b.c.d/n], applied to a dotted quad. *)
Lemma isAllowed_cidr_rule (a b c d n a' b' c' d' : nat) (original : jsstring) :
  a <= 255 -> b <= 255 -> c <= 255 -> d <= 255 -> n <= 32 ->
  a' <= 255 -> b' <= 255 -> c' <= 255 -> d' <= 255 ->
  isAllowed
    [CidrRule {| network := toInt32 (Z.land (address a b c d) (maskOf n));
                 mask := maskOf n |} original]
    (dotted a' b' c' d')
  = bool_decide (Z.land (address a' b' c' d') (maskOf n)
                 = Z.land (address a b c d) (maskOf n)).
Proof.
  intros Ha Hb Hc Hd Hn Ha' Hb' Hc' Hd'.
  pose proof (address_range a b c d Ha Hb Hc Hd) as Hr.
  pose proof (address_range a' b' c' d' Ha' Hb' Hc' Hd') as Hr'.
  pose proof (maskOf_nonneg n Hn) as Hm.
  unfold isAllowed. cbn [length Nat.eqb existsb isUniversal network mask orb].
  destruct (Nat.eq_dec n 0) as [-> | Hn0].
  - change (maskOf 0) with 0%Z. rewrite !Z.land_0_r.
    reflexivity.
  - pose proof (maskOf_pos n ltac:(lia)) as Hpos.
    replace (maskOf n =? 0)%Z with false by (symmetry; apply Z.eqb_neq; lia).
    rewrite andb_false_r.
    rewrite (ipToInt_dotted a' b' c' d' Ha' Hb' Hc' Hd').
    cbn [existsb ruleMatches orb]. unfold matchesCIDR. cbn [network mask].
    unfold and32. rewrite toInt32_idem, <- toInt32_land.
    rewrite orb_false_r.
    destruct (decide (Z.land (address a' b' c' d') (maskOf n)
                      = Z.land (address a b c d) (maskOf n))) as [Heq | Hne].
    + rewrite bool_decide_eq_true_2 by exact Heq. rewrite Heq.
      apply Z.eqb_refl.
    + rewrite bool_decide_eq_false_2 by exact Hne. apply Z.eqb_neq.
      intros Heq. apply Hne.
      apply toInt32_inj; [apply land_range; lia | apply land_range; lia | exact Heq].
Qed.

Lemma land_mask32 (x : Z) : (0 <= x < 2 ^ 32)%Z -> Z.land x (maskOf 32) = x.
Proof.
  intros Hx. change (maskOf 32) with (Z.ones 32).
  rewrite Z.land_ones by lia. apply Z.mod_small. exact Hx.
Qed.

Lemma includes_dot_dotted_false_slash (a b c d : nat) :
  a <= 255 -> b <= 255 -> c <= 255 -> d <= 255 ->
  includes 0x2F (dotted a b c d) = false.
Proof.
  intros Ha Hb Hc Hd.
  destruct (decimal_facts a Ha) as (_ & _ & _ & _ & _ & Sa & _).
  destruct (decimal_facts b Hb) as (_ & _ & _ & _ & _ & Sb & _).
  destruct (decimal_facts c Hc) as (_ & _ & _ & _ & _ & Sc & _).
  destruct (decimal_facts d Hd) as (_ & _ & _ & _ & _ & Sd & _).
  apply includes_dotted; [discriminate | assumption..].
Qed.

Lemma parseEntry_dotted (a b c d : nat) :
  a <= 255 -> b <= 255 -> c <= 255 -> d <= 255 ->
  parseEntry (dotted a b c d)
  = Some (IpRule (toInt32 (address a b c d)) (dotted a b c d)).
Proof.
  intros Ha Hb Hc Hd. unfold parseEntry.
  rewrite includes_dot_dotted_false_slash, ipToInt_dotted by assumption.
  reflexivity.
Qed.

Lemma getRules_setAllowedIPs_list (entries : list jsstring) :
  getRules (flat_map (fun entry => match parseEntry entry with
                                   | Some r => [r]
                                   | None => []
                                   end) entries)
  = List.filter (fun entry => bool_decide (is_Some (parseEntry entry))) entries.
Proof.
  induction entries as [|e entries IH]; [reflexivity|].
  cbn [flat_map List.filter]. unfold getRules in *. rewrite map_app, IH.
  unfold parseEntry.
  destruct (includes 0x2F e).
  - destruct (parseCIDR e); cbn [map app];
      [rewrite bool_decide_eq_true_2 by (eexists; reflexivity)
      | rewrite bool_decide_eq_false_2 by (intros [? ?]; discriminate)];
      reflexivity.
  - destruct (ipToInt e); cbn [map app];
      [rewrite bool_decide_eq_true_2 by (eexists; reflexivity)
      | rewrite bool_decide_eq_false_2 by (intros [? ?]; discriminate)];
      reflexivity.
Qed.

Lemma isAllowed_more_rules (rules more : list Rule) (ip : jsstring) :
  rules <> [] ->
  isAllowed rules ip = true ->
  isAllowed (rules ++ more) ip = true /\ isAllowed (more ++ rules) ip = true.
Proof.
  intros Hne H. unfold isAllowed in *.
  destruct rules as [|r rules]; [contradiction|].
  cbn [length Nat.eqb] in H.
  assert (Hlen1 : (length ((r :: rules) ++ more) =? 0) = false)
    by (apply Nat.eqb_neq; rewrite length_app; cbn [length]; lia).
  assert (Hlen2 : (length (more ++ r :: rules) =? 0) = false)
    by (apply Nat.eqb_neq; rewrite length_app; cbn [length]; lia).
  rewrite Hlen1, Hlen2, !existsb_app.
  destruct (existsb isUniversal (r :: rules)).
  - rewrite orb_true_r. split; reflexivity.
  - destruct (ipToInt ip) as [ipInt|]; [|discriminate].
    rewrite !existsb_app, H, orb_true_r.
    split; [|destruct (existsb isUniversal more); reflexivity].
    cbn [orb]. destruct (existsb isUniversal more); reflexivity.
Qed.

(** ** More on the rate limiter *)

Lemma checkRateLimit_countsWithin (rateLimitPerIP now : Z) (ip : jsstring)
    (m : gmap jsstring RateEntry) :
  (1 <= rateLimitPerIP)%Z ->
  countsWithin rateLimitPerIP m ->
  countsWithin rateLimitPerIP (checkRateLimit rateLimitPerIP now ip m).2.
Proof.
  intros Hlimit Hm ip' e'. unfold checkRateLimit.
  destruct (m !! ip) as [existing|] eqn:He.
  - destruct (resetTime existing <? now)%Z; cbn [snd].
    + rewrite lookup_insert. case_decide as Hip.
      * intros [= <-]. cbn. lia.
      * apply Hm.
    + destruct (rateLimitPerIP <=? count existing)%Z eqn:Hfull; cbn [snd].
      * apply Hm.
      * rewrite lookup_insert. case_decide as Hip.
        -- intros [= <-]. cbn. apply Z.leb_gt in Hfull.
           specialize (Hm ip existing He). lia.
        -- apply Hm.
  - cbn [snd]. rewrite lookup_insert. case_decide as Hip.
    + intros [= <-]. cbn. lia.
    + apply Hm.
Qed.

Lemma sweepRateLimit_countsWithin (rateLimitPerIP now : Z)
    (m : gmap jsstring RateEntry) :
  countsWithin rateLimitPerIP m ->
  countsWithin rateLimitPerIP (sweepRateLimit now m).
Proof.
  intros Hm ip e He. unfold sweepRateLimit in He.
  apply map_lookup_filter_Some in He as [He _]. exact (Hm ip e He).
Qed.

Lemma runRateLimit_countsWithin (rateLimitPerIP : Z) (evs : list RateEvent) :
  forall m : gmap jsstring RateEntry,
    (1 <= rateLimitPerIP)%Z ->
    countsWithin rateLimitPerIP m ->
    countsWithin rateLimitPerIP (runRateLimit rateLimitPerIP evs m).2.
Proof.
  induction evs as [|[now ip | now] evs IH]; intros m Hlimit Hm.
  - exact Hm.
  - cbn [runRateLimit].
    pose proof (checkRateLimit_countsWithin rateLimitPerIP now ip m Hlimit Hm)
      as Hstep.
    destruct (checkRateLimit rateLimitPerIP now ip m) as [admitted m1].
    cbn [snd] in Hstep. specialize (IH m1 Hlimit Hstep).
    destruct (runRateLimit rateLimitPerIP evs m1) as [answers m2].
    exact IH.
  - cbn [runRateLimit]. apply IH; [exact Hlimit|].
    apply sweepRateLimit_countsWithin. exact Hm.
Qed.

(** When and only when a check is refused. *)
Lemma checkRateLimit_refused (rateLimitPerIP now : Z) (ip : jsstring)
    (m : gmap jsstring RateEntry) :
  (checkRateLimit rateLimitPerIP now ip m).1 = false
  <-> exists e, m !! ip = Some e /\ (now <= resetTime e)%Z
                /\ (rateLimitPerIP <= count e)%Z.
Proof.
  unfold checkRateLimit. destruct (m !! ip) as [existing|] eqn:He.
  - destruct (resetTime existing <? now)%Z eqn:Hexp; cbn [fst].
    + apply Z.ltb_lt in Hexp. split; [discriminate|].
      intros (e & [= <-] & Hnow & _). lia.
    + apply Z.ltb_ge in Hexp.
      destruct (rateLimitPerIP <=? count existing)%Z eqn:Hfull; cbn [fst].
      * apply Z.leb_le in Hfull. split; [|reflexivity].
        intros _. exists existing. auto.
      * apply Z.leb_gt in Hfull. split; [discriminate|].
        intros (e & [= <-] & _ & Hc). lia.
  - cbn [fst]. split; [discriminate|]. intros (e & Hsome & _). discriminate.
Qed.

Lemma checkRateLimit_refused_unchanged (rateLimitPerIP now : Z)
    (ip : jsstring) (m : gmap jsstring RateEntry) :
  (checkRateLimit rateLimitPerIP now ip m).1 = false ->
  (checkRateLimit rateLimitPerIP now ip m).2 = m.
Proof.
  unfold checkRateLimit. destruct (m !! ip) as [existing|].
  - destruct (resetTime existing <? now)%Z; [discriminate|].
    destruct (rateLimitPerIP <=? count existing)%Z; [reflexivity | discriminate].
  - discriminate.
Qed.

(** A sweep at or before the time of a check changes neither the answer
    nor the entry the check leaves behind. *)
Lemma checkRateLimit_after_sweep (rateLimitPerIP now swept : Z)
    (ip : jsstring) (m : gmap jsstring RateEntry) :
  (swept <= now)%Z ->
  (checkRateLimit rateLimitPerIP now ip (sweepRateLimit swept m)).1
  = (checkRateLimit rateLimitPerIP now ip m).1
  /\ (checkRateLimit rateLimitPerIP now ip (sweepRateLimit swept m)).2 !! ip
     = (checkRateLimit rateLimitPerIP now ip m).2 !! ip.
Proof.
  intros Htime.
  destruct (m !! ip) as [e|] eqn:He.
  - destruct (decide (resetTime e < swept)%Z) as [Hold | Hkeep].
    + assert (Hs : sweepRateLimit swept m !! ip = None).
      { unfold sweepRateLimit. apply map_lookup_filter_None_2. right.
        intros e' He'. rewrite He in He'. injection He' as <-.
        cbn [snd]. intros Hnot. apply Hnot. exact Hold. }
      unfold checkRateLimit. rewrite Hs, He.
      replace (resetTime e <? now)%Z with true
        by (symmetry; apply Z.ltb_lt; lia).
      cbn [fst snd]. rewrite !lookup_insert_eq. split; reflexivity.
    + assert (Hs : sweepRateLimit swept m !! ip = Some e).
      { unfold sweepRateLimit. apply map_lookup_filter_Some_2; [exact He|].
        cbn [snd]. exact Hkeep. }
      unfold checkRateLimit. rewrite Hs, He.
      destruct (resetTime e <? now)%Z; cbn [fst snd].
      * rewrite !lookup_insert_eq. split; reflexivity.
      * destruct (rateLimitPerIP <=? count e)%Z; cbn [fst snd].
        -- rewrite Hs, He. split; reflexivity.
        -- rewrite !lookup_insert_eq. split; reflexivity.
  - assert (Hs : sweepRateLimit swept m !! ip = None).
    { unfold sweepRateLimit. apply map_lookup_filter_None_2. left. exact He. }
    unfold checkRateLimit. rewrite Hs, He. cbn [fst snd].
    rewrite !lookup_insert_eq. split; reflexivity.
Qed.

(** From a fresh window, consecutive checks of one address inside the
    window are admitted until the limit is reached and refused after. *)
Lemma runRateLimit_burst (rateLimitPerIP : Z) (ip : jsstring)
    (times : list Z) :
  forall (m : gmap jsstring RateEntry) (e : RateEntry),
    m !! ip = Some e ->
    (count e <= rateLimitPerIP)%Z ->
    Forall (fun now => (now <= resetTime e)%Z) times ->
    (runRateLimit rateLimitPerIP (map (fun now => RateCheck now ip) times) m).1
    = map (fun i => (ip, bool_decide (count e + Z.of_nat i < rateLimitPerIP)%Z))
          (seq 0 (length times)).
Proof.
  induction times as [|now times IH]; intros m e He Hcount Htimes.
  - reflexivity.
  - inversion Htimes as [|? ? Hnow Htimes']; subst.
    cbn [map runRateLimit length seq].
    unfold checkRateLimit. rewrite He.
    replace (resetTime e <? now)%Z with false
      by (symmetry; apply Z.ltb_ge; lia).
    rewrite Z.add_0_r.
    destruct (rateLimitPerIP <=? count e)%Z eqn:Hfull.
    + apply Z.leb_le in Hfull.
      specialize (IH m e He Hcount Htimes').
      destruct (runRateLimit rateLimitPerIP _ m) as [answers m'].
      cbn [fst] in *. rewrite IH.
      rewrite bool_decide_eq_false_2 by lia. f_equal.
      rewrite <- seq_shift, map_map. apply map_ext_in. intros i _.
      f_equal. rewrite !bool_decide_eq_false_2 by lia. reflexivity.
    + apply Z.leb_gt in Hfull.
      specialize (IH (<[ip := {| count := count e + 1;
                                 resetTime := resetTime e |}]> m)
                     {| count := count e + 1; resetTime := resetTime e |}
                     (lookup_insert_eq _ _ _)).
      cbn [count resetTime] in IH. specialize (IH ltac:(lia) Htimes').
      destruct (runRateLimit rateLimitPerIP _ _) as [answers m'].
      cbn [fst] in *. rewrite IH.
      rewrite bool_decide_eq_true_2 by lia. f_equal.
      rewrite <- seq_shift, map_map. apply map_ext_in. intros i _.
      f_equal. apply bool_decide_ext. lia.
Qed.

(** ** The configuration *)

Lemma validateConfig_accepts (c : Config.t) :
  validateConfig c = []
  <-> nanOrWithin (Config.port c) 1 65535
      /\ nanOrWithin (Config.healthPort c) 1 65535
      /\ (forall p, Config.port c = Some p -> Config.healthPort c <> Some p)
      /\ nanOrAtLeast (Config.proxyConnectTimeout c) 1000
      /\ nanOrAtLeast (Config.proxyTimeout c) 1000
      /\ nanOrAtLeast (Config.rateLimitPerIP c) 1.
Proof.
  unfold validateConfig, nanOrWithin, nanOrAtLeast, numLt, numGt, numEq.
  destruct c as [p hp ips ct pt prt rl]. cbn.
  split.
  - intros H.
    repeat match type of H with
           | _ ++ _ = [] => apply app_eq_nil in H as [? H]
           end.
    repeat match goal with
           | H : (if ?b then _ else _) = [] |- _ =>
             destruct b eqn:?; [discriminate H | clear H]
           end.
    destruct p as [p|], hp as [hp|], ct as [ct|], pt as [pt|], rl as [rl|];
      repeat match goal with
             | H : (_ || _) = false |- _ => apply orb_false_iff in H as [? ?]
             | H : (_ <? _)%Z = false |- _ => apply Z.ltb_ge in H
             | H : (_ =? _)%Z = false |- _ => apply Z.eqb_neq in H
             end;
      repeat split; try lia; try (intros ? [= <-] [= ?]; lia);
      try (intros ? ?; discriminate).
  - intros (Hp & Hhp & Hne & Hct & Hpt & Hrl).
    destruct p as [p|], hp as [hp|], ct as [ct|], pt as [pt|], rl as [rl|];
      repeat match goal with
             | |- context [(?a <? ?b)%Z] =>
               let E := fresh in
               destruct (a <? b)%Z eqn:E;
               [apply Z.ltb_lt in E; try lia | clear E]
             | |- context [(?a =? ?b)%Z] =>
               let E := fresh in
               destruct (a =? b)%Z eqn:E;
               [apply Z.eqb_eq in E; subst;
                exfalso; exact (Hne _ eq_refl eq_refl) | clear E]
             end; reflexivity.
Qed.

(** With no entry that parses, the filter has no rule and lets every
    address in. *)
Lemma isAllowed_no_valid_entry (allowed : AllowedIPs) (ip : jsstring) :
  Forall (fun entry => parseEntry entry = None) (ipList allowed) ->
  setAllowedIPs allowed = [] /\ isAllowed (setAllowedIPs allowed) ip = true.
Proof.
  intros H.
  assert (Hrules : setAllowedIPs allowed = []).
  { unfold setAllowedIPs. induction H as [|e l He _ IH]; [reflexivity|].
    cbn [flat_map]. rewrite He, IH. reflexivity. }
  rewrite Hrules. split; reflexivity.
Qed.

(** ** More on the route table *)

Lemma ownProperty_In {V : Type} (obj : list (jsstring * V)) (key : jsstring)
    (v : V) :
  ownProperty obj key = Some v -> In (key, v) obj.
Proof.
  induction obj as [|[k w] obj IH]; [discriminate|].
  cbn [ownProperty]. case_bool_decide as Hk.
  - intros [= <-]. subst k. left. reflexivity.
  - intros H. right. exact (IH H).
Qed.

Lemma UNIFI_DOMAINS_targets (name : jsstring) (u : Upstream) :
  In (name, u) UNIFI_DOMAINS -> host u = name /\ port u = 443%Z.
Proof.
  intros Hin. cbn in Hin.
  repeat (destruct Hin as [Hin | Hin];
          [injection Hin as <- <-; split; reflexivity|]).
  contradiction.
Qed.

Lemma getUpstreamForSNI_Target (sni : jsstring) (u : Upstream) :
  getUpstreamForSNI sni = Target u ->
  isAllowedSNI sni = true /\ host u = sni /\ port u = 443%Z.
Proof.
  unfold getUpstreamForSNI, isAllowedSNI, readProperty.
  destruct (truthy sni); cbn [negb andb]; [|discriminate].
  destruct (ownProperty UNIFI_DOMAINS sni) as [v|] eqn:Hown.
  - intros [= <-]. split.
    + apply bool_decide_eq_true_2. eexists. reflexivity.
    + apply UNIFI_DOMAINS_targets. apply ownProperty_In. exact Hown.
  - destruct (bool_decide (sni ∈ objectPrototypeNames)); discriminate.
Qed.

Lemma getUpstreamForSNI_not_Null (sni : jsstring) :
  getUpstreamForSNI sni <> Null
  <-> isAllowedSNI sni = true \/ sni ∈ objectPrototypeNames.
Proof.
  split.
  - unfold getUpstreamForSNI, isAllowedSNI, readProperty.
    destruct (truthy sni); cbn [negb andb]; [|contradiction].
    destruct (ownProperty UNIFI_DOMAINS sni) as [v|].
    + intros _. left. apply bool_decide_eq_true_2. eexists. reflexivity.
    + case_bool_decide as Hin; [intros _; right; exact Hin | contradiction].
  - intros [Hallowed | Hproto].
    + unfold isAllowedSNI in Hallowed.
      apply andb_true_iff in Hallowed as [Ht Hown].
      apply bool_decide_eq_true_1 in Hown. destruct Hown as [u Hown].
      unfold getUpstreamForSNI, readProperty. rewrite Ht, Hown. discriminate.
    + rewrite (getUpstreamForSNI_inherited sni Hproto). discriminate.
Qed.

(** ** More on the stats tracker *)

Lemma increment_lookup (obj : gmap jsstring CountValue) (key : jsstring) :
  key ∉ objectPrototypeNames ->
  increment obj key !! key
  = Some (match obj !! key with
          | Some (Count n) => Count (n + 1)
          | Some Text => Text
          | None => Count 1
          end)
  /\ forall other, other <> key -> increment obj key !! other = obj !! other.
Proof.
  intros Hproto. unfold increment, readProperty.
  assert (Hne : key <> js "__proto__").
  { intros ->. apply Hproto. apply list_elem_of_In.
    unfold objectPrototypeNames. cbn [map In]. tauto. }
  rewrite (bool_decide_eq_false_2 _ Hne).
  rewrite (bool_decide_eq_false_2 _ Hproto).
  split.
  - rewrite lookup_insert_eq. destruct (obj !! key) as [[n|]|]; reflexivity.
  - intros other Hother. apply lookup_insert_ne. congruence.
Qed.

Lemma applyCalls_domains (sni : jsstring) (calls : list StatsCall) :
  truthy sni = true ->
  sni ∉ objectPrototypeNames ->
  forall (s : StatsTracker) (k : nat),
    domains s !! sni = countOf k ->
    domains (applyCalls calls s) !! sni
    = countOf (k + connectionsFor sni calls).
Proof.
  intros Ht Hproto. induction calls as [|call calls IH]; intros s k Hs.
  - cbn. rewrite Nat.add_0_r. exact Hs.
  - cbn [applyCalls fold_left]. fold (applyCalls calls (applyCall s call)).
    destruct call as [ip s' | |]; cbn [applyCall].
    + unfold connectionsFor. cbn [List.filter].
      case_bool_decide as Hs'.
      * subst s'. cbn [length].
        rewrite (IH (recordConnection ip sni s) (S k)).
        -- f_equal. unfold connectionsFor. lia.
        -- cbn [recordConnection domains]. rewrite Ht.
           destruct (increment_lookup (domains s) sni Hproto) as [-> _].
           rewrite Hs. destruct k; cbn [countOf]; f_equal; f_equal; lia.
      * rewrite (IH (recordConnection ip s' s) k); [reflexivity|].
        cbn [recordConnection domains]. destruct (truthy s'); [|exact Hs].
        unfold increment. case_bool_decide; [exact Hs|].
        rewrite lookup_insert_ne by exact Hs'. exact Hs.
    + apply (IH (recordSuccess s) k). exact Hs.
    + apply (IH (recordFailure s) k). exact Hs.
Qed.

(** ** More on the connection handler *)

(** A name of the route table is recorded and dialled. *)
Lemma onClientData_accepts (data old : list byte) (srv : Server)
    (c : Connection) (name : jsstring) (u : Upstream) :
  dataBuffer c = Some old ->
  hasEnoughDataForSNI (old ++ data) = true ->
  parseSNI (old ++ data) = Some name ->
  getUpstreamForSNI name = Target u ->
  onClientData data srv c
  = (setStats (recordConnection (clientIP c) name (stats srv)) srv,
     connectToUpstream (Target u)
       (removeDataListener
          (setSniHostname (Some name)
             (setDataBuffer (Some (old ++ data)) c)))).
Proof.
  intros Hbuf Hprobe Hparse Hroute.
  assert (Ht : truthy name = true).
  { unfold getUpstreamForSNI in Hroute.
    destruct (truthy name); [reflexivity | discriminate]. }
  unfold onClientData. rewrite Hbuf. cbv zeta.
  rewrite Hprobe, Hparse, Ht, Hroute. reflexivity.
Qed.

Lemma concat_take_length (chunks : list (list byte)) (k : nat) :
  length (concat (take k chunks)) <= length (concat chunks).
Proof.
  rewrite <- (take_drop k chunks) at 2. rewrite concat_app, length_app. lia.
Qed.

Lemma deliverAll_hello (ch : ClientHello) (pre post : list (nat * list byte))
    (name : list byte) (u : Upstream) (init : list (list byte))
    (last : list byte) (srv : Server) (ip : jsstring) :
  wellFormed ch ->
  extensions ch = pre ++ (0, serverNameData name) :: post ->
  Forall (fun ext => ext.1 <> 0) pre ->
  getUpstreamForSNI (utf8Decode None (map Byte.to_N name)) = Target u ->
  concat init ++ last = encodeClientHello ch ->
  last <> [] ->
  deliverAll (map ClientData (init ++ [last])) srv (listeningConnection ip)
  = (setStats (recordConnection ip (utf8Decode None (map Byte.to_N name))
                 (stats srv)) srv,
     dialledConnection ip (utf8Decode None (map Byte.to_N name)) u
       (encodeClientHello ch)).
Proof.
  intros Hwf Hext Hpre Hroute Hsplit Hlast.
  rewrite map_app, deliverAll_app.
  rewrite (deliverAll_waits init srv (listeningConnection ip) []);
    try reflexivity.
  - cbn [fst snd app map deliverAll deliver setDataBuffer dataListener
         clientDestroyed listeningConnection negb andb].
    change (onClientData last srv ?c)
      with (onClientData last srv
              (setDataBuffer (Some (concat init)) (listeningConnection ip))).
    rewrite (onClientData_accepts last (concat init) srv _
               (utf8Decode None (map Byte.to_N name)) u).
    + rewrite Hsplit. reflexivity.
    + reflexivity.
    + rewrite Hsplit. apply hasEnoughDataForSNI_encodeClientHello. exact Hwf.
    + rewrite Hsplit. apply (parseSNI_encodeClientHello ch pre post); assumption.
    + exact Hroute.
  - intros k Hk. cbn [app].
    set (p := concat (take k init)).
    assert (Hp : encodeClientHello ch = p ++ (concat (drop k init) ++ last)).
    { rewrite <- Hsplit. subst p.
      rewrite <- (take_drop k init) at 1. rewrite concat_app, app_assoc.
      reflexivity. }
    assert (Hlen : length p < length (encodeClientHello ch)).
    { rewrite <- Hsplit, length_app.
      pose proof (concat_take_length init k). fold p in H.
      destruct last; [contradiction | cbn [length]; lia]. }
    replace p with (take (length p) (encodeClientHello ch))
      by (rewrite Hp; apply take_app_length).
    rewrite hasEnoughDataForSNI_prefix by (exact Hwf || lia).
    apply bool_decide_eq_false_2. lia.
Qed.

(** A rejected connection has no listener and no timer: no event changes
    anything. *)
Lemma deliver_rejected (ev : Event) (srv : Server) (ip : jsstring) :
  deliver ev srv (destroyClient (newConnection ip))
  = (srv, destroyClient (newConnection ip)).
Proof. destruct ev; reflexivity. Qed.

Lemma deliverAll_rejected (evs : list Event) (srv : Server) (ip : jsstring) :
  deliverAll evs srv (destroyClient (newConnection ip))
  = (srv, destroyClient (newConnection ip)).
Proof.
  induction evs as [|ev evs IH]; [reflexivity|].
  cbn [deliverAll]. rewrite deliver_rejected. exact IH.
Qed.

Lemma cleanup_closed (c : Connection) : closed (cleanup c).
Proof.
  unfold closed, cleanup, upstreamLive. cbn.
  destruct (upstreamSocket c); repeat split; reflexivity.
Qed.

(** Without an upstream socket a closed connection has no listener left
    that does anything. *)
Lemma deliver_closed_no_upstream (ev : Event) (srv : Server)
    (c : Connection) :
  closed c ->
  upstreamSocket c = None ->
  (deliver ev srv c).1 = srv
  /\ closed (deliver ev srv c).2
  /\ upstreamSocket (deliver ev srv c).2 = None.
Proof.
  intros (Hd & Ht & _) Hn.
  destruct c as [ip us sni buffer connected timer listener cd w ex].
  cbn in Hd, Ht, Hn. subst cd timer us.
  destruct ev; cbn; rewrite ?andb_false_r; cbn; repeat split; reflexivity.
Qed.

Lemma deliverAll_closed_no_upstream (evs : list Event) :
  forall (srv : Server) (c : Connection),
    closed c ->
    upstreamSocket c = None ->
    (deliverAll evs srv c).1 = srv /\ closed (deliverAll evs srv c).2.
Proof.
  induction evs as [|ev evs IH]; intros srv c Hc Hn.
  - split; [reflexivity | exact Hc].
  - cbn [deliverAll].
    destruct (deliver_closed_no_upstream ev srv c Hc Hn) as (Hsrv & Hc' & Hn').
    destruct (deliver ev srv c) as [srv' c']. cbn [fst snd] in *. subst srv'.
    apply IH; assumption.
Qed.

(** With an upstream socket, the ['timeout'] and ['error'] listeners still
    record a failure on a closed connection; no other listener changes
    anything. *)
Lemma deliver_closed (ev : Event) (srv : Server) (c : Connection)
    (u : UpstreamSocket) :
  closed c ->
  upstreamSocket c = Some u ->
  closed (deliver ev srv c).2
  /\ upstreamSocket (deliver ev srv c).2 = Some u
  /\ (deliver ev srv c).1
     = if isUpstreamFailure ev then setStats (recordFailure (stats srv)) srv
       else srv.
Proof.
  intros (Hd & Ht & Hu) Hs.
  destruct c as [ip us sni buffer connected timer listener cd w ex].
  unfold upstreamLive in Hu. cbn in Hd, Ht, Hu, Hs. subst cd timer us.
  destruct u as [h p destroyed]. cbn in Hu.
  destruct destroyed; [|discriminate Hu].
  destruct ev; cbn; rewrite ?andb_false_r; cbn; repeat split; reflexivity.
Qed.

Lemma deliverAll_closed (evs : list Event) :
  forall (srv : Server) (c : Connection) (u : UpstreamSocket),
    closed c ->
    upstreamSocket c = Some u ->
    closed (deliverAll evs srv c).2
    /\ rateLimitMap (deliverAll evs srv c).1 = rateLimitMap srv
    /\ stats (deliverAll evs srv c).1
       = Nat.iter (upstreamFailures evs) recordFailure (stats srv).
Proof.
  induction evs as [|ev evs IH]; intros srv c u Hc Hs.
  - split; [exact Hc|]. split; reflexivity.
  - cbn [deliverAll].
    destruct (deliver_closed ev srv c u Hc Hs) as (Hc' & Hs' & Hsrv).
    destruct (deliver ev srv c) as [srv' c']. cbn [fst snd] in *.
    destruct (IH srv' c' u Hc' Hs') as (Hc2 & Hm & Hst).
    split; [exact Hc2|]. rewrite Hm, Hst, Hsrv.
    unfold upstreamFailures. cbn [List.filter].
    destruct (isUpstreamFailure ev); cbn [length setStats stats rateLimitMap].
    + split; [reflexivity|]. symmetry. apply Nat.iter_succ_r.
    + split; reflexivity.
Qed.

Lemma onClientData_dialOnlyAfterRoute (data : list byte) (srv : Server)
    (c : Connection) :
  upstreamSocket c = None ->
  dialOnlyAfterRoute c ->
  dialOnlyAfterRoute (onClientData data srv c).2.
Proof.
  intros Hnone [_ Hw]. unfold onClientData.
  destruct (dataBuffer c) as [old|]; cbv zeta.
  - destruct (hasEnoughDataForSNI (old ++ data)); cbn [negb].
    + destruct (parseSNI (old ++ data)) as [name|].
      * destruct (truthy name); cbn [negb].
        -- destruct (getUpstreamForSNI name) eqn:Hroute; cbn [snd].
           ++ split; [cbn; rewrite Hnone; contradiction | exact Hw].
           ++ split; [|exact Hw]. intros _. split; [reflexivity|].
              exists name. split; [reflexivity|]. rewrite Hroute. discriminate.
           ++ split; [|exact Hw]. intros _. split; [reflexivity|].
              exists name. split; [reflexivity|]. rewrite Hroute. discriminate.
        -- split; [cbn; rewrite Hnone; contradiction | exact Hw].
      * split; [cbn; rewrite Hnone; contradiction | exact Hw].
    + split; [cbn; rewrite Hnone; contradiction | exact Hw].
  - cbn [snd]. split; [rewrite Hnone; contradiction | exact Hw].
Qed.

Lemma deliver_dialOnlyAfterRoute (ev : Event) (srv : Server) (c : Connection) :
  dialOnlyAfterRoute c -> dialOnlyAfterRoute (deliver ev srv c).2.
Proof.
  intros Hinv. pose proof Hinv as [Hdial Hw].
  assert (Hcleanup : dialOnlyAfterRoute (cleanup c)).
  { split; [|exact Hw]. cbn. intros Hup. apply Hdial.
    destruct (upstreamSocket c); [discriminate | contradiction]. }
  destruct ev; cbn [deliver].
  - destruct (dataListener c) eqn:Hl; cbn [andb]; [|exact Hinv].
    destruct (clientDestroyed c); cbn [negb snd]; [exact Hinv|].
    apply onClientData_dialOnlyAfterRoute; [|exact Hinv].
    destruct (upstreamSocket c) eqn:Hup; [|reflexivity].
    destruct (Hdial ltac:(discriminate)) as [Hl' _]. congruence.
  - destruct (prereadTimer c); [|exact Hinv].
    unfold onPrereadTimeout.
    destruct (isUpstreamConnected (clearPrereadTimer c)); cbn [negb snd];
      split; [exact Hdial | exact Hw | exact Hdial | exact Hw].
  - destruct (upstreamLive c && negb (isUpstreamConnected c)); [|exact Hinv].
    split; [exact Hdial | cbn; discriminate].
  - destruct (bool_decide (is_Some (upstreamSocket c)));
      [exact Hcleanup | exact Hinv].
  - destruct (bool_decide (is_Some (upstreamSocket c)));
      [exact Hcleanup | exact Hinv].
  - destruct (bool_decide (is_Some (upstreamSocket c)));
      [exact Hcleanup | exact Hinv].
  - destruct (bool_decide (is_Some (upstreamSocket c)));
      [exact Hcleanup | exact Hinv].
  - exact Hcleanup.
  - exact Hcleanup.
  - exact Hcleanup.
  - exact Hcleanup.
Qed.

Lemma deliverAll_dialOnlyAfterRoute (evs : list Event) :
  forall (srv : Server) (c : Connection),
    dialOnlyAfterRoute c -> dialOnlyAfterRoute (deliverAll evs srv c).2.
Proof.
  induction evs as [|ev evs IH]; intros srv c Hinv; [exact Hinv|].
  cbn [deliverAll].
  pose proof (deliver_dialOnlyAfterRoute ev srv c Hinv) as Hstep.
  destruct (deliver ev srv c) as [srv' c']. apply IH. exact Hstep.
Qed.

(** ** Further properties of the parser *)

Lemma sampleHello_wellFormed (name : list byte) :
  length name < 1000 -> wellFormed (sampleHello name).
Proof.
  intros Hn. unfold wellFormed. rewrite length_helloBody.
  assert (Hign : length (bytes "ignored.example") = 15) by reflexivity.
  cbn [sampleHello random sessionId cipherSuites compressionMethods
       extensions encodeExtensions flat_map].
  rewrite !length_app, !length_encodeExtension. cbn [snd fst].
  rewrite !length_serverNameData, !repeat_length, Hign. cbn [length].
  repeat split; try lia.
  repeat (apply List.Forall_cons;
          [cbn [fst snd]; rewrite ?length_serverNameData, ?Hign;
           cbn [length]; split; lia|]).
  apply List.Forall_nil.
Qed.

(** X1.  On a well-formed ClientHello, [hasEnoughDataForSNI] is true and
    [parseSNI] returns the host_name of the first server_name extension:
    for a name of ASCII bytes, exactly those characters, without the
    length prefix and whatever extensions come before or after. *)
Theorem X1_parseSNI_returns_the_first_host_name (ch : ClientHello)
    (pre post : list (nat * list byte)) (name : list byte) :
  wellFormed ch ->
  extensions ch = pre ++ (0, serverNameData name) :: post ->
  Forall (fun ext => ext.1 <> 0) pre ->
  Forall (fun b => (Byte.to_N b <= 0x7F)%N) name ->
  hasEnoughDataForSNI (encodeClientHello ch) = true
  /\ parseSNI (encodeClientHello ch) = Some (map Byte.to_N name).
Proof.
  intros Hwf Hext Hpre Hascii. split.
  - apply hasEnoughDataForSNI_encodeClientHello. exact Hwf.
  - rewrite (parseSNI_encodeClientHello ch pre post name Hwf Hext Hpre).
    f_equal. apply utf8Decode_ascii.
    rewrite Forall_map. exact Hascii.
Qed.

Lemma X1_parseSNI_witness :
  hasEnoughDataForSNI
    (encodeClientHello (sampleHello (bytes "fw-update.ui.com"))) = true
  /\ parseSNI (encodeClientHello (sampleHello (bytes "fw-update.ui.com")))
     = Some (map Byte.to_N (bytes "fw-update.ui.com")).
Proof.
  apply (X1_parseSNI_returns_the_first_host_name
           (sampleHello (bytes "fw-update.ui.com"))
           [(10, [x00; x02; x00; x1d])]
           [(0, serverNameData (bytes "ignored.example"))]).
  - apply sampleHello_wellFormed. vm_compute. lia.
  - reflexivity.
  - apply List.Forall_cons; [cbn; lia | apply List.Forall_nil].
  - apply Forall_forall. intros b Hb. apply N.leb_le.
    revert b Hb. apply Forall_forall. vm_compute.
    repeat (apply List.Forall_cons; [reflexivity|]). apply List.Forall_nil.
Defined.

(** X2.  For a buffer that starts a handshake record (first byte 0x16)
    whose length field holds [recordLength], the probe on the first [k]
    bytes is true exactly when [k] reaches [recordLength + 5]: false on
    every shorter prefix, true from the complete record on. *)
Theorem X2_probe_true_from_record_end (buffer : list byte)
    (recordLength k : nat) :
  byteAt buffer 0 = Some 0x16 ->
  readUInt16BE buffer 3 = Some recordLength ->
  k <= length buffer ->
  hasEnoughDataForSNI (take k buffer) = (recordLength + 5 <=? k).
Proof. exact (hasEnoughDataForSNI_take buffer recordLength k). Qed.

Lemma X2_probe_witness :
  hasEnoughDataForSNI (take 71 exampleComHello) = (67 + 5 <=? 71).
Proof.
  apply (X2_probe_true_from_record_end exampleComHello 67 71).
  - reflexivity.
  - reflexivity.
  - vm_compute. lia.
Defined.

(** X3.  Whenever [parseSNI] returns a name, the buffer is a handshake
    record holding a ClientHello, and the name is the decoding of a slice
    that lies inside the buffer, at least 58 bytes from its start, right
    after an extension header of type 0, a list length, a host_name type
    byte and the length of the slice. *)
Theorem X3_parseSNI_name_comes_from_the_buffer (buffer : list byte)
    (name : jsstring) :
  parseSNI buffer = Some name ->
  byteAt buffer 0 = Some 0x16
  /\ byteAt buffer 5 = Some 0x01
  /\ exists o len,
       49 <= o
       /\ readUInt16BE buffer o = Some 0
       /\ byteAt buffer (o + 6) = Some 0
       /\ readUInt16BE buffer (o + 7) = Some len
       /\ o + 9 + len <= length buffer
       /\ name = toStringUtf8 buffer (o + 9) (o + 9 + len).
Proof. exact (parseSNI_sound buffer name). Qed.

Lemma X3_parseSNI_name_witness :
  byteAt exampleComHello 0 = Some 0x16
  /\ byteAt exampleComHello 5 = Some 0x01
  /\ exists o len,
       49 <= o
       /\ readUInt16BE exampleComHello o = Some 0
       /\ byteAt exampleComHello (o + 6) = Some 0
       /\ readUInt16BE exampleComHello (o + 7) = Some len
       /\ o + 9 + len <= length exampleComHello
       /\ js "example.com" = toStringUtf8 exampleComHello (o + 9) (o + 9 + len).
Proof.
  apply (X3_parseSNI_name_comes_from_the_buffer exampleComHello
           (js "example.com")).
  vm_compute. reflexivity.
Defined.

(** X4.  On a well-formed ClientHello without a server_name extension
    [parseSNI] returns [null], whatever other extensions it has. *)
Theorem X4_parseSNI_without_server_name (ch : ClientHello) :
  wellFormed ch ->
  Forall (fun ext => ext.1 <> 0) (extensions ch) ->
  parseSNI (encodeClientHello ch) = None.
Proof. exact (parseSNI_no_server_name ch). Qed.

Lemma X4_parseSNI_without_server_name_witness :
  parseSNI (encodeClientHello
              {| random := repeat x2a 32; sessionId := [];
                 cipherSuites := [x13; x01]; compressionMethods := [x00];
                 extensions := [(10, [x00; x02; x00; x1d]); (43, [x02; x03; x04])] |})
  = None.
Proof.
  apply X4_parseSNI_without_server_name.
  - unfold wellFormed. rewrite length_helloBody.
    cbn [random sessionId cipherSuites compressionMethods extensions
         encodeExtensions flat_map].
    rewrite !length_app, !length_encodeExtension, repeat_length.
    cbn [fst snd length].
    repeat split; try lia.
    repeat (apply List.Forall_cons; [cbn [fst snd length]; split; lia|]).
    apply List.Forall_nil.
  - repeat (apply List.Forall_cons; [cbn [fst]; lia|]). apply List.Forall_nil.
Defined.

(** X5.  A host_name of one byte or more, whatever its bytes, is returned
    as a string that is not empty, hence truthy: on a well-formed
    ClientHello the handler's test [!sniHostname] fails only for a name of
    length 0. *)
Theorem X5_nonempty_host_name_is_truthy (ch : ClientHello)
    (pre post : list (nat * list byte)) (name : list byte) :
  wellFormed ch ->
  extensions ch = pre ++ (0, serverNameData name) :: post ->
  Forall (fun ext => ext.1 <> 0) pre ->
  name <> [] ->
  exists sni, parseSNI (encodeClientHello ch) = Some sni /\ truthy sni = true.
Proof.
  intros Hwf Hext Hpre Hname.
  exists (utf8Decode None (map Byte.to_N name)). split.
  - apply (parseSNI_encodeClientHello ch pre post name Hwf Hext Hpre).
  - assert (Hne : utf8Decode None (map Byte.to_N name) <> []).
    { apply utf8Decode_nonempty. right. destruct name; [contradiction|].
      discriminate. }
    destruct (utf8Decode None (map Byte.to_N name)); [contradiction|].
    reflexivity.
Qed.

Lemma X5_nonempty_host_name_witness :
  exists sni,
    parseSNI (encodeClientHello (helloFor [xff; xc3])) = Some sni
    /\ truthy sni = true.
Proof.
  apply (X5_nonempty_host_name_is_truthy (helloFor [xff; xc3]) [] []
           [xff; xc3]).
  - apply helloFor_wellFormed. cbn. lia.
  - reflexivity.
  - apply List.Forall_nil.
  - discriminate.
Defined.

(** ** Further properties of the address filter *)

(** X6.  On a dotted quad of octets up to 255, [ipToInt] returns the
    address as a signed 32-bit number, and two such quads get the same
    number only when their octets are the same. *)
Theorem X6_ipToInt_on_dotted_quads (a b c d a' b' c' d' : nat) :
  a <= 255 -> b <= 255 -> c <= 255 -> d <= 255 ->
  a' <= 255 -> b' <= 255 -> c' <= 255 -> d' <= 255 ->
  ipToInt (dotted a b c d) = Some (toInt32 (address a b c d))
  /\ (ipToInt (dotted a b c d) = ipToInt (dotted a' b' c' d') ->
      a = a' /\ b = b' /\ c = c' /\ d = d').
Proof.
  intros Ha Hb Hc Hd Ha' Hb' Hc' Hd'.
  rewrite !ipToInt_dotted by assumption.
  split; [reflexivity|]. intros [= Heq].
  apply address_inj; try assumption.
  apply toInt32_inj; [apply address_range; assumption.. | exact Heq].
Qed.

Lemma X6_ipToInt_witness :
  ipToInt (dotted 192 168 1 1) = Some (toInt32 (address 192 168 1 1))
  /\ (ipToInt (dotted 192 168 1 1) = ipToInt (dotted 64 168 1 1) ->
      192 = 64 /\ 168 = 168 /\ 1 = 1 /\ 1 = 1).
Proof. apply X6_ipToInt_on_dotted_quads; lia. Defined.

(** X7.  [ipToInt] throws on every string that does not have exactly three
    dots. *)
Theorem X7_ipToInt_needs_three_dots (ip : jsstring) :
  length (List.filter (N.eqb 0x2E) ip) <> 3 -> ipToInt ip = None.
Proof. exact (ipToInt_needs_three_dots ip). Qed.

Lemma X7_ipToInt_needs_three_dots_witness :
  ipToInt (js "2001:db8::1") = None.
Proof.
  apply X7_ipToInt_needs_three_dots. vm_compute. discriminate.
Defined.

(** X8.  A rule set holding the one entry [a.b.c.d/n] accepts the address
    [a'.b'.c'.d'] exactly when both addresses are equal under the mask of
    [n] leading bits. *)
Theorem X8_cidr_rule_compares_masked_addresses (a b c d n a' b' c' d' : nat) :
  a <= 255 -> b <= 255 -> c <= 255 -> d <= 255 -> n <= 32 ->
  a' <= 255 -> b' <= 255 -> c' <= 255 -> d' <= 255 ->
  isAllowed (setAllowedIPs (IPArray [cidrText a b c d n])) (dotted a' b' c' d')
  = bool_decide (Z.land (address a' b' c' d') (maskOf n)
                 = Z.land (address a b c d) (maskOf n)).
Proof.
  intros Ha Hb Hc Hd Hn Ha' Hb' Hc' Hd'.
  unfold setAllowedIPs. cbn [ipList flat_map].
  rewrite parseEntry_cidrText by assumption. cbn [app].
  apply isAllowed_cidr_rule; assumption.
Qed.

Lemma X8_cidr_rule_witness :
  isAllowed (setAllowedIPs (IPArray [cidrText 10 20 0 0 12]))
            (dotted 10 31 255 7)
  = bool_decide (Z.land (address 10 31 255 7) (maskOf 12)
                 = Z.land (address 10 20 0 0) (maskOf 12)).
Proof. apply X8_cidr_rule_compares_masked_addresses; lia. Defined.

(** X9.  A rule set that holds an entry [a.b.c.d/0], at any place, accepts
    every peer address string, also one that is no IPv4 address. *)
Theorem X9_prefix_zero_accepts_everything (a b c d : nat)
    (before after : list jsstring) (ip : jsstring) :
  a <= 255 -> b <= 255 -> c <= 255 -> d <= 255 ->
  isAllowed (setAllowedIPs (IPArray (before ++ cidrText a b c d 0 :: after)))
            ip
  = true.
Proof.
  intros Ha Hb Hc Hd. unfold setAllowedIPs. cbn [ipList].
  rewrite flat_map_app. cbn [flat_map].
  rewrite parseEntry_cidrText by (assumption || lia).
  change (maskOf 0) with 0%Z. rewrite Z.land_0_r.
  unfold isAllowed. rewrite length_app. cbn [app length].
  replace (_ + S _ =? 0) with false by (symmetry; apply Nat.eqb_neq; lia).
  rewrite existsb_app. cbn [existsb isUniversal network mask].
  change ((toInt32 0 =? 0)%Z && (0 =? 0)%Z) with true.
  cbn [orb]. rewrite orb_true_r. reflexivity.
Qed.

Lemma X9_prefix_zero_witness :
  isAllowed (setAllowedIPs (IPArray ([js "10.0.0.1"]
                                     ++ cidrText 203 0 113 9 0 :: [])))
            (js "::ffff:198.51.100.7")
  = true.
Proof. apply X9_prefix_zero_accepts_everything; lia. Defined.

(** X10.  The entry [a.b.c.d/32] and the entry [a.b.c.d], each as the only
    rule, accept a dotted quad exactly when it has the same four octets. *)
Theorem X10_single_address_rules (a b c d a' b' c' d' : nat) :
  a <= 255 -> b <= 255 -> c <= 255 -> d <= 255 ->
  a' <= 255 -> b' <= 255 -> c' <= 255 -> d' <= 255 ->
  (isAllowed (setAllowedIPs (IPArray [cidrText a b c d 32]))
             (dotted a' b' c' d') = true
   <-> a' = a /\ b' = b /\ c' = c /\ d' = d)
  /\ (isAllowed (setAllowedIPs (IPArray [dotted a b c d]))
                (dotted a' b' c' d') = true
      <-> a' = a /\ b' = b /\ c' = c /\ d' = d).
Proof.
  intros Ha Hb Hc Hd Ha' Hb' Hc' Hd'.
  pose proof (address_range a b c d Ha Hb Hc Hd) as Hr.
  pose proof (address_range a' b' c' d' Ha' Hb' Hc' Hd') as Hr'.
  split.
  - unfold setAllowedIPs. cbn [ipList flat_map].
    rewrite parseEntry_cidrText by (assumption || lia). cbn [app].
    rewrite isAllowed_cidr_rule by (assumption || lia).
    rewrite !land_mask32 by assumption.
    rewrite bool_decide_eq_true. split.
    + intros Heq. apply address_inj; assumption.
    + intros (-> & -> & -> & ->). reflexivity.
  - unfold setAllowedIPs. cbn [ipList flat_map].
    rewrite parseEntry_dotted by assumption. cbn [app].
    unfold isAllowed. cbn [length Nat.eqb existsb isUniversal orb].
    rewrite ipToInt_dotted by assumption.
    cbn [existsb ruleMatches]. rewrite orb_false_r, Z.eqb_eq. split.
    + intros Heq. apply address_inj; try assumption.
      apply toInt32_inj; assumption.
    + intros (-> & -> & -> & ->). reflexivity.
Qed.

Lemma X10_single_address_witness :
  (isAllowed (setAllowedIPs (IPArray [cidrText 203 0 113 5 32]))
             (dotted 203 0 113 5) = true
   <-> 203 = 203 /\ 0 = 0 /\ 113 = 113 /\ 5 = 5)
  /\ (isAllowed (setAllowedIPs (IPArray [dotted 203 0 113 5]))
                (dotted 203 0 113 5) = true
      <-> 203 = 203 /\ 0 = 0 /\ 113 = 113 /\ 5 = 5).
Proof. apply X10_single_address_rules; lia. Defined.

(** X11.  [getRules] returns, in order and in their original text, exactly
    the entries that parse; an entry that does not parse is left out and
    changes nothing else. *)
Theorem X11_getRules_lists_the_entries_that_parse (allowed : AllowedIPs) :
  getRules (setAllowedIPs allowed)
  = List.filter (fun entry => bool_decide (is_Some (parseEntry entry)))
                (ipList allowed)
  /\ getRuleCount (setAllowedIPs allowed) <= length (ipList allowed).
Proof.
  assert (H : getRules (setAllowedIPs allowed)
              = List.filter
                  (fun entry => bool_decide (is_Some (parseEntry entry)))
                  (ipList allowed))
    by apply getRules_setAllowedIPs_list.
  split; [exact H|].
  unfold getRuleCount.
  replace (length (setAllowedIPs allowed))
    with (length (getRules (setAllowedIPs allowed)))
    by (unfold getRules; apply length_map).
  rewrite H. apply filter_length_le.
Qed.

(** X12.  Once a rule set is not empty, adding rules before or after it
    never turns an accepted address into a refused one. *)
Theorem X12_more_rules_accept_more (rules more : list Rule) (ip : jsstring) :
  rules <> [] ->
  isAllowed rules ip = true ->
  isAllowed (rules ++ more) ip = true /\ isAllowed (more ++ rules) ip = true.
Proof. exact (isAllowed_more_rules rules more ip). Qed.

Lemma X12_more_rules_witness :
  isAllowed (setAllowedIPs (IPArray [js "10.0.0.0/8"])
             ++ setAllowedIPs (IPArray [js "192.168.1.1"])) (js "10.1.2.3")
  = true
  /\ isAllowed (setAllowedIPs (IPArray [js "192.168.1.1"])
                ++ setAllowedIPs (IPArray [js "10.0.0.0/8"])) (js "10.1.2.3")
     = true.
Proof.
  apply X12_more_rules_accept_more.
  - vm_compute. discriminate.
  - vm_compute. reflexivity.
Defined.

(** X13.  When no entry of the allow-list parses, the filter has no rule
    and accepts every peer address. *)
Theorem X13_no_valid_entry_accepts_everything (allowed : AllowedIPs)
    (ip : jsstring) :
  Forall (fun entry => parseEntry entry = None) (ipList allowed) ->
  setAllowedIPs allowed = [] /\ isAllowed (setAllowedIPs allowed) ip = true.
Proof. exact (isAllowed_no_valid_entry allowed ip). Qed.

Lemma X13_no_valid_entry_witness :
  setAllowedIPs (IPString (js "10.0.0.0/33, 300.1.1.1")) = []
  /\ isAllowed (setAllowedIPs (IPString (js "10.0.0.0/33, 300.1.1.1")))
               (js "203.0.113.5") = true.
Proof.
  apply X13_no_valid_entry_accepts_everything.
  change (ipList (IPString (js "10.0.0.0/33, 300.1.1.1")))
    with [js "10.0.0.0/33"; js "300.1.1.1"].
  repeat (apply List.Forall_cons; [vm_compute; reflexivity|]).
  apply List.Forall_nil.
Defined.

(** ** Further properties of the configuration *)

(** X14.  When [getUpstreamForSNI] returns a target of its own table, the
    name passes [isAllowedSNI], the target's host is the name itself and
    its port is 443. *)
Theorem X14_route_target_is_the_name_itself (sni : jsstring) (u : Upstream) :
  getUpstreamForSNI sni = Target u ->
  isAllowedSNI sni = true /\ host u = sni /\ port u = 443%Z.
Proof. exact (getUpstreamForSNI_Target sni u). Qed.

Lemma X14_route_target_witness :
  isAllowedSNI (js "apt.artifacts.ui.com") = true
  /\ host {| host := js "apt.artifacts.ui.com"; port := 443 |}
     = js "apt.artifacts.ui.com"
  /\ port {| host := js "apt.artifacts.ui.com"; port := 443 |} = 443%Z.
Proof.
  apply (X14_route_target_is_the_name_itself (js "apt.artifacts.ui.com")).
  vm_compute. reflexivity.
Defined.

(** X15.  [getUpstreamForSNI] returns something other than [null] exactly
    for the names that [isAllowedSNI] accepts and for the names of the
    members that the table inherits from [Object.prototype]. *)
Theorem X15_names_that_are_routed (sni : jsstring) :
  getUpstreamForSNI sni <> Null
  <-> isAllowedSNI sni = true \/ sni ∈ objectPrototypeNames.
Proof. exact (getUpstreamForSNI_not_Null sni). Qed.

(** X16.  [validateConfig] collects no error, and so does not throw,
    exactly when every checked number is NaN or in its range and the two
    ports are not the same number: a value that [parseInt] could not read
    passes every check, and [prereadTimeout] and [allowedIPs] are not
    checked at all. *)
Theorem X16_validateConfig_accepts (c : Config.t) :
  validateConfig c = []
  <-> nanOrWithin (Config.port c) 1 65535
      /\ nanOrWithin (Config.healthPort c) 1 65535
      /\ (forall p, Config.port c = Some p -> Config.healthPort c <> Some p)
      /\ nanOrAtLeast (Config.proxyConnectTimeout c) 1000
      /\ nanOrAtLeast (Config.proxyTimeout c) 1000
      /\ nanOrAtLeast (Config.rateLimitPerIP c) 1.
Proof. exact (validateConfig_accepts c). Qed.

(** ** Further properties of the statistics *)

(** X17.  After any sequence of recording calls on a new tracker, the
    entry of [domains] for a non-empty name that is not a member of
    [Object.prototype] is the number of [recordConnection] calls made with
    that name; the entry is missing when there was none. *)
Theorem X17_domains_counts_connections (sni : jsstring)
    (calls : list StatsCall) :
  truthy sni = true ->
  sni ∉ objectPrototypeNames ->
  domains (applyCalls calls newStatsTracker) !! sni
  = countOf (connectionsFor sni calls).
Proof.
  intros Ht Hn.
  apply (applyCalls_domains sni calls Ht Hn newStatsTracker 0).
  reflexivity.
Qed.

Lemma X17_domains_witness :
  domains (applyCalls [CallConnection (js "10.0.0.1") (js "fw-update.ui.com");
                       CallFailure;
                       CallConnection (js "10.0.0.2") (js "fw-update.ubnt.com");
                       CallConnection (js "10.0.0.2") (js "fw-update.ui.com");
                       CallSuccess]
             newStatsTracker) !! js "fw-update.ui.com"
  = countOf (connectionsFor (js "fw-update.ui.com")
               [CallConnection (js "10.0.0.1") (js "fw-update.ui.com");
                CallFailure;
                CallConnection (js "10.0.0.2") (js "fw-update.ubnt.com");
                CallConnection (js "10.0.0.2") (js "fw-update.ui.com");
                CallSuccess]).
Proof.
  apply X17_domains_counts_connections.
  - reflexivity.
  - apply (bool_decide_unpack _). vm_compute. exact I.
Defined.

(** ** Further properties of the rate limiter *)

(** X18.  With a limit of at least 1, whatever checks and sweeps have run
    since the start, every entry of the rate-limit map has a count between
    1 and the limit. *)
Theorem X18_rate_counts_stay_within_the_limit (rateLimitPerIP : Z)
    (evs : list RateEvent) :
  (1 <= rateLimitPerIP)%Z ->
  forall ip e,
    (runRateLimit rateLimitPerIP evs ∅).2 !! ip = Some e ->
    (1 <= count e <= rateLimitPerIP)%Z.
Proof.
  intros Hlimit.
  apply (runRateLimit_countsWithin rateLimitPerIP evs ∅ Hlimit).
  intros ip e H. rewrite lookup_empty in H. discriminate H.
Qed.

Lemma X18_rate_counts_witness :
  (runRateLimit 2 [RateCheck 0 (js "10.0.0.1"); RateCheck 5 (js "10.0.0.1");
                   RateCheck 9 (js "10.0.0.1"); RateSweep 60000;
                   RateCheck 60000 (js "10.0.0.1")] ∅).2 !! js "10.0.0.1"
  = Some {| count := 2; resetTime := 60000 |}
  /\ (1 <= count {| count := 2; resetTime := 60000 |} <= 2)%Z.
Proof.
  assert (H : (runRateLimit 2 [RateCheck 0 (js "10.0.0.1");
                               RateCheck 5 (js "10.0.0.1");
                               RateCheck 9 (js "10.0.0.1"); RateSweep 60000;
                               RateCheck 60000 (js "10.0.0.1")] ∅).2
              !! js "10.0.0.1"
              = Some {| count := 2; resetTime := 60000 |})
    by (vm_compute; reflexivity).
  split; [exact H|].
  apply (X18_rate_counts_stay_within_the_limit 2 _ ltac:(lia) _ _ H).
Defined.

(** X19.  [checkRateLimit] refuses exactly when the address has an entry
    whose window has not expired and whose count has reached the limit;
    a refusal leaves the map as it was, so refused attempts do not extend
    the window. *)
Theorem X19_refusal_condition (rateLimitPerIP now : Z) (ip : jsstring)
    (m : gmap jsstring RateEntry) :
  (checkRateLimit rateLimitPerIP now ip m).1 = false
  <-> (exists e, m !! ip = Some e /\ (now <= resetTime e)%Z
                 /\ (rateLimitPerIP <= count e)%Z)
      /\ (checkRateLimit rateLimitPerIP now ip m).2 = m.
Proof.
  split.
  - intros H. split.
    + apply checkRateLimit_refused. exact H.
    + apply checkRateLimit_refused_unchanged. exact H.
  - intros [H _]. apply checkRateLimit_refused. exact H.
Qed.

(** X20.  A sweep that ran no later than a check does not change the
    answer of the check nor the entry that the check leaves for the
    address: the sweep only frees memory. *)
Theorem X20_sweep_does_not_change_answers (rateLimitPerIP now swept : Z)
    (ip : jsstring) (m : gmap jsstring RateEntry) :
  (swept <= now)%Z ->
  (checkRateLimit rateLimitPerIP now ip (sweepRateLimit swept m)).1
  = (checkRateLimit rateLimitPerIP now ip m).1
  /\ (checkRateLimit rateLimitPerIP now ip (sweepRateLimit swept m)).2 !! ip
     = (checkRateLimit rateLimitPerIP now ip m).2 !! ip.
Proof. exact (checkRateLimit_after_sweep rateLimitPerIP now swept ip m). Qed.

Lemma X20_sweep_witness :
  let m : gmap jsstring RateEntry :=
    <[js "10.0.0.1" := {| count := 3; resetTime := 50 |}]> ∅ in
  (checkRateLimit 3 80 (js "10.0.0.1") (sweepRateLimit 60 m)).1
  = (checkRateLimit 3 80 (js "10.0.0.1") m).1
  /\ (checkRateLimit 3 80 (js "10.0.0.1") (sweepRateLimit 60 m)).2
       !! js "10.0.0.1"
     = (checkRateLimit 3 80 (js "10.0.0.1") m).2 !! js "10.0.0.1".
Proof.
  intros m. apply X20_sweep_does_not_change_answers. lia.
Defined.

(** X21.  With a limit of at least 1, when a check opens a window for an
    address (no entry, or an expired one) and is followed by checks of the
    same address within the 60 seconds of the window, the answers are
    [true] for the first [rateLimitPerIP] checks and [false] for all the
    others. *)
Theorem X21_burst_admits_exactly_the_limit (rateLimitPerIP t0 : Z)
    (ip : jsstring) (m : gmap jsstring RateEntry) (times : list Z) :
  (1 <= rateLimitPerIP)%Z ->
  m !! ip = None \/ (exists e, m !! ip = Some e /\ (resetTime e < t0)%Z) ->
  Forall (fun now => (now <= t0 + 60000)%Z) times ->
  (runRateLimit rateLimitPerIP
     (map (fun now => RateCheck now ip) (t0 :: times)) m).1
  = map (fun i => (ip, bool_decide (Z.of_nat i < rateLimitPerIP)%Z))
        (seq 0 (S (length times))).
Proof.
  intros Hlimit Hopen Htimes.
  cbn [map runRateLimit seq].
  rewrite (checkRateLimit_opens rateLimitPerIP t0 ip m Hopen).
  pose proof (runRateLimit_burst rateLimitPerIP ip times
                (<[ip := {| count := 1; resetTime := t0 + 60000 |}]> m)
                {| count := 1; resetTime := t0 + 60000 |}
                (lookup_insert_eq _ _ _)) as Hburst.
  cbn [count resetTime] in Hburst. specialize (Hburst Hlimit Htimes).
  destruct (runRateLimit rateLimitPerIP _ _) as [answers m'].
  cbn [fst] in *. subst answers. f_equal.
  - f_equal. symmetry. apply bool_decide_eq_true_2. lia.
  - rewrite <- seq_shift, map_map. apply map_ext. intros i.
    f_equal. apply bool_decide_ext. lia.
Qed.

Lemma X21_burst_witness :
  (runRateLimit 2 (map (fun now => RateCheck now (js "10.0.0.1"))
                     (100%Z :: [200; 300; 60100]%Z)) ∅).1
  = map (fun i => (js "10.0.0.1", bool_decide (Z.of_nat i < 2)%Z))
        (seq 0 (S (length [200; 300; 60100]%Z))).
Proof.
  apply X21_burst_admits_exactly_the_limit.
  - lia.
  - left. reflexivity.
  - repeat (apply List.Forall_cons; [lia|]). apply List.Forall_nil.
Defined.

(** ** Further properties of the connection handler *)

(** X22.  An admitted client whose well-formed ClientHello names a
    configured domain, in however many chunks the record arrives: the
    buffer is parsed once the last chunk is in, the connection is recorded
    for the name, and the dial goes to that name on port 443.  Nothing is
    written upstream before ['secureConnect']; at ['secureConnect'] the
    whole record is written, with nothing lost or added, the buffer is
    released, the preread timer is cleared and a success is recorded. *)
Theorem X22_complete_hello_is_forwarded (rules : list Rule)
    (rateLimitPerIP now : Z) (ip : jsstring) (srv : Server)
    (ch : ClientHello) (pre post : list (nat * list byte))
    (name : list byte) (u : Upstream) (init : list (list byte))
    (last : list byte) :
  isAllowed rules ip = true ->
  (checkRateLimit rateLimitPerIP now ip (rateLimitMap srv)).1 = true ->
  wellFormed ch ->
  extensions ch = pre ++ (0, serverNameData name) :: post ->
  Forall (fun ext => ext.1 <> 0) pre ->
  getUpstreamForSNI (utf8Decode None (map Byte.to_N name)) = Target u ->
  concat init ++ last = encodeClientHello ch ->
  last <> [] ->
  let sni := utf8Decode None (map Byte.to_N name) in
  let '(srv0, c0) := handleConnection rules rateLimitPerIP now ip srv in
  let '(srv1, c1) := deliverAll (map ClientData (init ++ [last])) srv0 c0 in
  let '(srv2, c2) := deliver SecureConnect srv1 c1 in
  stats srv1 = recordConnection ip sni (stats srv)
  /\ upstreamSocket c1
     = Some {| dialHost := Some sni; dialPort := Some 443%Z;
               upstreamDestroyed := false |}
  /\ written c1 = []
  /\ written c2 = encodeClientHello ch
  /\ dataBuffer c2 = None
  /\ prereadTimer c2 = false
  /\ clientDestroyed c2 = false
  /\ stats srv2 = recordSuccess (recordConnection ip sni (stats srv)).
Proof.
  intros Hip Hrate Hwf Hext Hpre Hroute Hcat Hlast sni.
  rewrite (handleConnection_admitted _ _ _ _ _ Hip Hrate).
  rewrite (deliverAll_hello ch pre post name u init last _ ip
             Hwf Hext Hpre Hroute Hcat Hlast).
  fold sni.
  destruct (getUpstreamForSNI_Target _ _ Hroute) as (_ & Hhost & Hport).
  fold sni in Hhost.
  cbn. rewrite Hhost, Hport. repeat split; reflexivity.
Qed.

Lemma X22_complete_hello_witness :
  let hello := encodeClientHello (sampleHello (bytes "fw-update.ui.com")) in
  let sni := utf8Decode None (map Byte.to_N (bytes "fw-update.ui.com")) in
  let '(srv0, c0) :=
    handleConnection defaultRules 100 0 (js "203.0.113.5") newServer in
  let '(srv1, c1) :=
    deliverAll (map ClientData
                  ([take 3 hello; take 50 (drop 3 hello)] ++ [drop 53 hello]))
               srv0 c0 in
  let '(srv2, c2) := deliver SecureConnect srv1 c1 in
  stats srv1 = recordConnection (js "203.0.113.5") sni (stats newServer)
  /\ upstreamSocket c1
     = Some {| dialHost := Some sni; dialPort := Some 443%Z;
               upstreamDestroyed := false |}
  /\ written c1 = []
  /\ written c2 = hello
  /\ dataBuffer c2 = None
  /\ prereadTimer c2 = false
  /\ clientDestroyed c2 = false
  /\ stats srv2
     = recordSuccess (recordConnection (js "203.0.113.5") sni
                        (stats newServer)).
Proof.
  intros hello.
  apply (X22_complete_hello_is_forwarded defaultRules 100 0
           (js "203.0.113.5") newServer
           (sampleHello (bytes "fw-update.ui.com"))
           [(10, [x00; x02; x00; x1d])]
           [(0, serverNameData (bytes "ignored.example"))]
           (bytes "fw-update.ui.com")
           {| host := js "fw-update.ui.com"; port := 443 |}
           [take 3 hello; take 50 (drop 3 hello)] (drop 53 hello)).
  - vm_compute. reflexivity.
  - vm_compute. reflexivity.
  - apply sampleHello_wellFormed. vm_compute. lia.
  - reflexivity.
  - apply List.Forall_cons; [cbn; lia | apply List.Forall_nil].
  - vm_compute. reflexivity.
  - vm_compute. reflexivity.
  - vm_compute. discriminate.
Defined.

(** X23.  A connection that reached ['secureConnect'] and whose upstream
    socket then emits ['timeout'] (the idle timeout) or ['error'] is
    counted twice: as a success and as a failure.  Both sockets are
    destroyed by the second event. *)
Theorem X23_failure_after_success_counts_both (ev : Event) (srv : Server)
    (c : Connection) :
  upstreamLive c = true ->
  isUpstreamConnected c = false ->
  ev = UpstreamTimeout \/ ev = UpstreamError ->
  let '(srv1, c1) := deliver SecureConnect srv c in
  let '(srv2, c2) := deliver ev srv1 c1 in
  stats srv2 = recordFailure (recordSuccess (stats srv))
  /\ successful (stats srv2) = (successful (stats srv) + 1)%Z
  /\ failed (stats srv2) = (failed (stats srv) + 1)%Z
  /\ total (stats srv2) = total (stats srv)
  /\ clientDestroyed c2 = true
  /\ upstreamLive c2 = false.
Proof.
  intros Hlive Hconn Hev.
  destruct c as [ip [[h p [|]]|] sni buffer connected timer listener cd w];
    unfold upstreamLive in Hlive; cbn in Hlive, Hconn;
    try discriminate Hlive.
  subst connected.
  destruct Hev as [-> | ->]; cbn; repeat split; reflexivity.
Qed.

Lemma X23_failure_after_success_witness :
  let c := dialledConnection (js "203.0.113.5") (js "fw-update.ui.com")
             {| host := js "fw-update.ui.com"; port := 443 |}
             (encodeClientHello (helloFor (bytes "fw-update.ui.com"))) in
  let '(srv1, c1) := deliver SecureConnect newServer c in
  let '(srv2, c2) := deliver UpstreamTimeout srv1 c1 in
  stats srv2 = recordFailure (recordSuccess (stats newServer))
  /\ successful (stats srv2) = (successful (stats newServer) + 1)%Z
  /\ failed (stats srv2) = (failed (stats newServer) + 1)%Z
  /\ total (stats srv2) = total (stats newServer)
  /\ clientDestroyed c2 = true
  /\ upstreamLive c2 = false.
Proof.
  intros c.
  apply (X23_failure_after_success_counts_both UpstreamTimeout newServer c).
  - reflexivity.
  - reflexivity.
  - left. reflexivity.
Defined.

(** X24.  A connection that is closed (client socket destroyed, preread
    timer cleared, no live upstream socket) stays closed whatever events
    follow, and the rate-limit map is not touched.  The ['timeout'] and
    ['error'] listeners of the upstream socket have no check of their own:
    each such event that still arrives, as an ['error'] does after an
    ['end'] has run [cleanup], records one more failure.  Nothing else
    changes the statistics, and without an upstream socket nothing changes
    them at all. *)
Theorem X24_closed_connection_counts_late_failures (evs : list Event)
    (srv : Server) (c : Connection) :
  closed c ->
  closed (deliverAll evs srv c).2
  /\ rateLimitMap (deliverAll evs srv c).1 = rateLimitMap srv
  /\ stats (deliverAll evs srv c).1
     = Nat.iter (match upstreamSocket c with
                 | Some _ => upstreamFailures evs
                 | None => 0
                 end) recordFailure (stats srv).
Proof.
  intros Hc. destruct (upstreamSocket c) as [u|] eqn:Hs.
  - exact (deliverAll_closed evs srv c u Hc Hs).
  - destruct (deliverAll_closed_no_upstream evs srv c Hc Hs) as [Hsrv Hc'].
    rewrite Hsrv. split; [exact Hc'|]. split; reflexivity.
Qed.

Lemma X24_closed_connection_witness :
  let c := (deliver UpstreamEnd newServer
              (dialledConnection (js "203.0.113.5") (js "fw-update.ui.com")
                 {| host := js "fw-update.ui.com"; port := 443 |}
                 (encodeClientHello (helloFor (bytes "fw-update.ui.com"))))).2
  in
  let evs := [UpstreamError; UpstreamClose; ClientClose] in
  closed (deliverAll evs newServer c).2
  /\ rateLimitMap (deliverAll evs newServer c).1 = rateLimitMap newServer
  /\ stats (deliverAll evs newServer c).1
     = Nat.iter (match upstreamSocket c with
                 | Some _ => upstreamFailures evs
                 | None => 0
                 end) recordFailure (stats newServer).
Proof.
  intros c evs.
  apply (X24_closed_connection_counts_late_failures evs newServer c).
  repeat split; reflexivity.
Defined.

(** X25.  A client that goes away (['error'], ['timeout'], ['end'] or
    ['close'] on its socket) while its ClientHello is still incomplete is
    never counted: whatever follows, the statistics are as they were when
    the connection was admitted, without a connection and without a
    failure. *)
Theorem X25_client_leaving_early_is_not_counted (chunks : list (list byte))
    (ev : Event) (rest : list Event) (srv : Server) (ip : jsstring) :
  (forall k, 0 < k <= length chunks ->
             hasEnoughDataForSNI (concat (take k chunks)) = false) ->
  ev = ClientError \/ ev = ClientTimeout \/ ev = ClientEnd \/ ev = ClientClose ->
  (deliverAll (map ClientData chunks ++ ev :: rest) srv
     (listeningConnection ip)).1 = srv
  /\ closed (deliverAll (map ClientData chunks ++ ev :: rest) srv
               (listeningConnection ip)).2.
Proof.
  intros Hwait Hev.
  rewrite deliverAll_app.
  rewrite (deliverAll_waits chunks srv (listeningConnection ip) []
             eq_refl eq_refl eq_refl Hwait).
  cbn [fst snd deliverAll].
  assert (Hd : deliver ev srv
                 (setDataBuffer (Some ([] ++ concat chunks))
                    (listeningConnection ip))
               = (srv, cleanup (setDataBuffer (Some ([] ++ concat chunks))
                                  (listeningConnection ip)))).
  { destruct Hev as [-> | [-> | [-> | ->]]]; reflexivity. }
  rewrite Hd. apply deliverAll_closed_no_upstream;
    [apply cleanup_closed | reflexivity].
Qed.

Lemma X25_client_leaving_early_witness :
  (deliverAll (map ClientData [[x16; x03; x01]; [x02; x00; x01]]
               ++ ClientEnd :: [ClientClose; PrereadTimeout])
     newServer (listeningConnection (js "203.0.113.5"))).1 = newServer
  /\ closed (deliverAll (map ClientData [[x16; x03; x01]; [x02; x00; x01]]
                         ++ ClientEnd :: [ClientClose; PrereadTimeout])
               newServer (listeningConnection (js "203.0.113.5"))).2.
Proof.
  apply X25_client_leaving_early_is_not_counted.
  - intros k Hk. cbn [length] in Hk.
    destruct k as [|[|[|k]]]; [lia | reflexivity | reflexivity | lia].
  - right. right. left. reflexivity.
Defined.

(** X26.  Whatever events reach an admitted connection, an upstream socket
    exists only after the data listener was removed and a name was parsed
    for which [getUpstreamForSNI] returned something other than [null], and
    nothing is written upstream before ['secureConnect']. *)
Theorem X26_dial_only_after_a_routed_name (evs : list Event) (srv : Server)
    (ip : jsstring) :
  let c := (deliverAll evs srv (listeningConnection ip)).2 in
  (upstreamSocket c <> None ->
   dataListener c = false
   /\ exists name, sniHostname c = Some name
                   /\ getUpstreamForSNI name <> Null)
  /\ (isUpstreamConnected c = false -> written c = []).
Proof.
  apply (deliverAll_dialOnlyAfterRoute evs srv (listeningConnection ip)).
  split.
  - intros H. contradiction H. reflexivity.
  - reflexivity.
Qed.

(** X27.  A connection refused by the allow-list or by the rate limiter
    leaves the rate-limit map as it was (an address outside the allow-list
    never gets an entry), sets no preread timer, installs no listener and
    dials nothing; no later event changes anything. *)
Theorem X27_refused_connection_leaves_no_trace (rules : list Rule)
    (rateLimitPerIP now : Z) (ip : jsstring) (srv : Server)
    (evs : list Event) :
  isAllowed rules ip = false
  \/ (checkRateLimit rateLimitPerIP now ip (rateLimitMap srv)).1 = false ->
  let '(srv1, c1) := handleConnection rules rateLimitPerIP now ip srv in
  rateLimitMap srv1 = rateLimitMap srv
  /\ prereadTimer c1 = false
  /\ dataListener c1 = false
  /\ upstreamSocket c1 = None
  /\ deliverAll evs srv1 c1 = (srv1, c1).
Proof.
  intros Href.
  assert (H : handleConnection rules rateLimitPerIP now ip srv
              = ({| stats := recordFailure (stats srv);
                    rateLimitMap := rateLimitMap srv |},
                 destroyClient (newConnection ip))).
  { unfold handleConnection.
    destruct (isAllowed rules ip) eqn:Hip; cbn [negb]; [|reflexivity].
    destruct Href as [Href | Href]; [discriminate Href|].
    pose proof (checkRateLimit_refused_unchanged _ _ _ _ Href) as Hm.
    destruct (checkRateLimit rateLimitPerIP now ip (rateLimitMap srv))
      as [admitted m].
    cbn [fst snd] in Href, Hm. subst admitted m. reflexivity. }
  rewrite H. repeat split. apply deliverAll_rejected.
Qed.

Lemma X27_refused_connection_witness :
  let '(srv1, c1) :=
    handleConnection (setAllowedIPs (IPString (js "10.0.0.0/8"))) 100 0
                     (js "203.0.113.5") newServer in
  rateLimitMap srv1 = rateLimitMap newServer
  /\ prereadTimer c1 = false
  /\ dataListener c1 = false
  /\ upstreamSocket c1 = None
  /\ deliverAll [ClientData exampleComHello; PrereadTimeout; ClientClose]
       srv1 c1 = (srv1, c1).
Proof.
  apply (X27_refused_connection_leaves_no_trace
           (setAllowedIPs (IPString (js "10.0.0.0/8"))) 100 0
           (js "203.0.113.5") newServer
           [ClientData exampleComHello; PrereadTimeout; ClientClose]).
  left. vm_compute. reflexivity.
Defined.

(** ** Further properties of the route table *)

(** X28.  [getAllowedDomains] lists exactly the names that [isAllowedSNI]
    accepts. *)
Theorem X28_getAllowedDomains_are_the_allowed_names (sni : jsstring) :
  sni ∈ getAllowedDomains <-> isAllowedSNI sni = true.
Proof.
  rewrite list_elem_of_In. split.
  - intros H. unfold getAllowedDomains, UNIFI_DOMAINS in H.
    rewrite map_map in H. cbn [map fst In] in H.
    repeat (destruct H as [<- | H]; [vm_compute; reflexivity|]).
    contradiction.
  - intros H. unfold isAllowedSNI in H.
    apply andb_true_iff in H as [_ H].
    apply bool_decide_eq_true in H as [u Hu].
    apply ownProperty_In in Hu.
    unfold getAllowedDomains.
    exact (in_map fst _ _ Hu).
Qed.
